(** * The user-session coordinator: request correlation and join

    A shallow embedding of [actors/user_session/user_session_actor.py]
    and [actors/user_session/request_handling.py]: the two pending tables
    ([_pending_limits], [_pending_requests]), the inbound handlers of
    [handle_message], the readiness check, the embedding fallback, the
    continuation after the limit check and the periodic sweep.

    Conventions of the embedding.
    - A Python dict used as a table keeps insertion order: it is an
      association list ([dict]), new keys are appended.
    - A record stored in a table is a Python dict whose keys may be absent:
      an optional key is an [option]; a key that may hold [None] is an
      [option (option _)] (outer: key present, inner: value is not None).
    - [datetime] values are microseconds ([Z]); a timeout of [t] seconds is
      [t * 10^6]; [(a - b).total_seconds() > t] is [a - b > t * 10^6].
      The clock is read once per handled message or sweep.
    - A [float] (mode confidence, vector component) is the rational it
      denotes.
    - [UserSession] objects live in a heap and are shared by reference
      between [_sessions] and the pending limit records.
    - Handlers run in a monad with state, an append-only trace of effects
      (messages sent, events appended, log lines) and exceptions. *)

From Stdlib Require Import ZArith QArith.
From stdpp Require Import base option list gmap strings pretty.

Local Open Scope Z_scope.

(** ** Configuration ([config/settings.py]) *)

Definition Time := Z.

Definition seconds (n : Z) : Z := n * 1000000.

Record Settings := {
  DAILY_MESSAGE_LIMIT : Z;
  MODE_HISTORY_SIZE : nat;
  STM_CONTEXT_SIZE_FOR_GENERATION : Z;
  STM_CONTEXT_REQUEST_TIMEOUT : Z;
  LTM_EMBEDDING_REQUEST_TIMEOUT : Z;
  LTM_REQUEST_TIMEOUT : Z;
  LTM_CONTEXT_LIMIT : Z;
  LTM_REQUEST_ENABLED : bool;
  AUTH_CHECK_TIMEOUT : Z;
  AUTH_FALLBACK_TO_DEMO : bool
}.

(** The values of [config/settings.py]. *)
Definition settings : Settings := {|
  DAILY_MESSAGE_LIMIT := 10;
  MODE_HISTORY_SIZE := 5;
  STM_CONTEXT_SIZE_FOR_GENERATION := 20;
  STM_CONTEXT_REQUEST_TIMEOUT := seconds 30;
  LTM_EMBEDDING_REQUEST_TIMEOUT := seconds 2;
  LTM_REQUEST_TIMEOUT := 500000;
  LTM_CONTEXT_LIMIT := 3;
  LTM_REQUEST_ENABLED := true;
  AUTH_CHECK_TIMEOUT := seconds 2;
  AUTH_FALLBACK_TO_DEMO := true
|}.

Definition PYDANTIC_CONFIDENCE_MIN : Q := 0.
Definition PYDANTIC_CONFIDENCE_MAX : Q := 1.

(** ** Python dicts as insertion-ordered association lists *)

Module Dict.

Definition dict (V : Type) := list (string * V).

Fixpoint get {V} (k : string) (d : dict V) : option V :=
  match d with
  | [] => None
  | (k', v) :: d' => if String.eqb k k' then Some v else get k d'
  end.

(** [d[k] = v]: an existing key keeps its position, a new one goes last. *)
Fixpoint set {V} (k : string) (v : V) (d : dict V) : dict V :=
  match d with
  | [] => [(k, v)]
  | (k', v') :: d' =>
      if String.eqb k k' then (k', v) :: d' else (k', v') :: set k v d'
  end.

(** [del d[k]]: the entry under [k] goes, the others keep their order. *)
Fixpoint remove {V} (k : string) (d : dict V) : dict V :=
  match d with
  | [] => []
  | (k', v') :: d' =>
      if String.eqb k k' then remove k d' else (k', v') :: remove k d'
  end.

Definition mem {V} (k : string) (d : dict V) : bool :=
  match get k d with Some _ => true | None => false end.

Definition keys {V} (d : dict V) : list string := map fst d.

End Dict.

Import Dict.

(** ** Data model *)

Definition loc := nat.

(** Opaque payload items: one STM message, one LTM memory, the detector's
    details. *)
Definition StmMessage := string.
Definition Memory := string.
Definition Details := string.
Definition Emotions := list (string * Q).

(** [UserSession] (pydantic model, [validate_assignment=True]).  The three
    extension fields [emotional_state], [style_vector], [memory_buffer] are
    never read or written by the coordinator and are left out.  The
    validators of [mode_history] and [cache_metrics] run on construction
    and on assignment of the field; the coordinator only appends to and
    pops from [mode_history] in place, which runs no validator. *)
Record UserSession := {
  user_id : string;
  username : option string;
  message_count : Z;
  created_at : Time;
  last_activity : Time;
  cache_metrics : list Q;
  current_mode : string;
  mode_confidence : Q;
  mode_history : list string;
  last_mode_change : option Time;
  last_emotion_vector : option Emotions;
  last_dominant_emotions : list string;
  last_user_text : option string;
  last_bot_response : option string;
  last_bot_mode : option string;
  last_bot_confidence : option Q
}.

(** [UserSession(user_id=..., username=...)] with the field defaults. *)
Definition new_session (uid : string) (uname : option string) (now : Time)
  : UserSession := {|
  user_id := uid;
  username := uname;
  message_count := 0;
  created_at := now;
  last_activity := now;
  cache_metrics := [];
  current_mode := "talk";
  mode_confidence := 0%Q;
  mode_history := [];
  last_mode_change := None;
  last_emotion_vector := None;
  last_dominant_emotions := [];
  last_user_text := None;
  last_bot_response := None;
  last_bot_mode := None;
  last_bot_confidence := None
|}.

Record SessionData := {
  sd_username : option string;
  sd_created_at : Time
}.

(** The payload of [USER_MESSAGE]. *)
Record UserMessagePayload := {
  um_user_id : string;
  um_username : option string;
  um_text : string;
  um_chat_id : Z
}.

(** A record of [_pending_limits]. *)
Record PendingLimit := {
  pl_user_id : string;
  pl_timestamp : Time;
  pl_chat_id : Z;
  pl_text : string;
  pl_username : option string;
  pl_session : loc;
  pl_message : UserMessagePayload
}.

(** A record of [_pending_requests]: nine keys written at creation, the
    others added by the LTM branch of the continuation and by the reply
    handlers. *)
Record PendingRequest := {
  pr_user_id : string;
  pr_chat_id : Z;
  pr_text : string;
  pr_include_prompt : bool;
  pr_message_count : Z;
  pr_session_data : SessionData;
  pr_mode : string;
  pr_mode_confidence : Q;
  pr_timestamp : Time;
  expecting_ltm : option bool;
  ltm_search_type : option string;
  stm_received : option bool;
  ltm_received : option bool;
  stm_context : option (option (list StmMessage));
  ltm_memories : option (option (list Memory));
  ltm_request_timestamp : option Time;
  expecting_embedding : option bool;
  embedding_received : option bool;
  query_vector : option (option (list Q))
}.

(** Field assignment, one function per assigned field. *)

Definition set_last_user_text (v : option string) (s : UserSession) : UserSession :=
  {| user_id := user_id s; username := username s;
     message_count := message_count s; created_at := created_at s;
     last_activity := last_activity s; cache_metrics := cache_metrics s;
     current_mode := current_mode s; mode_confidence := mode_confidence s;
     mode_history := mode_history s; last_mode_change := last_mode_change s;
     last_emotion_vector := last_emotion_vector s;
     last_dominant_emotions := last_dominant_emotions s; last_user_text := v;
     last_bot_response := last_bot_response s;
     last_bot_mode := last_bot_mode s;
     last_bot_confidence := last_bot_confidence s |}.

Definition set_last_mode_change (v : option Time) (s : UserSession) : UserSession :=
  {| user_id := user_id s; username := username s;
     message_count := message_count s; created_at := created_at s;
     last_activity := last_activity s; cache_metrics := cache_metrics s;
     current_mode := current_mode s; mode_confidence := mode_confidence s;
     mode_history := mode_history s; last_mode_change := v;
     last_emotion_vector := last_emotion_vector s;
     last_dominant_emotions := last_dominant_emotions s;
     last_user_text := last_user_text s;
     last_bot_response := last_bot_response s;
     last_bot_mode := last_bot_mode s;
     last_bot_confidence := last_bot_confidence s |}.

Definition set_current_mode (v : string) (s : UserSession) : UserSession :=
  {| user_id := user_id s; username := username s;
     message_count := message_count s; created_at := created_at s;
     last_activity := last_activity s; cache_metrics := cache_metrics s;
     current_mode := v; mode_confidence := mode_confidence s;
     mode_history := mode_history s; last_mode_change := last_mode_change s;
     last_emotion_vector := last_emotion_vector s;
     last_dominant_emotions := last_dominant_emotions s;
     last_user_text := last_user_text s;
     last_bot_response := last_bot_response s;
     last_bot_mode := last_bot_mode s;
     last_bot_confidence := last_bot_confidence s |}.

Definition set_mode_confidence (v : Q) (s : UserSession) : UserSession :=
  {| user_id := user_id s; username := username s;
     message_count := message_count s; created_at := created_at s;
     last_activity := last_activity s; cache_metrics := cache_metrics s;
     current_mode := current_mode s; mode_confidence := v;
     mode_history := mode_history s; last_mode_change := last_mode_change s;
     last_emotion_vector := last_emotion_vector s;
     last_dominant_emotions := last_dominant_emotions s;
     last_user_text := last_user_text s;
     last_bot_response := last_bot_response s;
     last_bot_mode := last_bot_mode s;
     last_bot_confidence := last_bot_confidence s |}.

Definition set_mode_history (v : list string) (s : UserSession) : UserSession :=
  {| user_id := user_id s; username := username s;
     message_count := message_count s; created_at := created_at s;
     last_activity := last_activity s; cache_metrics := cache_metrics s;
     current_mode := current_mode s; mode_confidence := mode_confidence s;
     mode_history := v; last_mode_change := last_mode_change s;
     last_emotion_vector := last_emotion_vector s;
     last_dominant_emotions := last_dominant_emotions s;
     last_user_text := last_user_text s;
     last_bot_response := last_bot_response s;
     last_bot_mode := last_bot_mode s;
     last_bot_confidence := last_bot_confidence s |}.

Definition set_message_count (v : Z) (s : UserSession) : UserSession :=
  {| user_id := user_id s; username := username s; message_count := v;
     created_at := created_at s; last_activity := last_activity s;
     cache_metrics := cache_metrics s; current_mode := current_mode s;
     mode_confidence := mode_confidence s; mode_history := mode_history s;
     last_mode_change := last_mode_change s;
     last_emotion_vector := last_emotion_vector s;
     last_dominant_emotions := last_dominant_emotions s;
     last_user_text := last_user_text s;
     last_bot_response := last_bot_response s;
     last_bot_mode := last_bot_mode s;
     last_bot_confidence := last_bot_confidence s |}.

Definition set_last_activity (v : Time) (s : UserSession) : UserSession :=
  {| user_id := user_id s; username := username s;
     message_count := message_count s; created_at := created_at s;
     last_activity := v; cache_metrics := cache_metrics s;
     current_mode := current_mode s; mode_confidence := mode_confidence s;
     mode_history := mode_history s; last_mode_change := last_mode_change s;
     last_emotion_vector := last_emotion_vector s;
     last_dominant_emotions := last_dominant_emotions s;
     last_user_text := last_user_text s;
     last_bot_response := last_bot_response s;
     last_bot_mode := last_bot_mode s;
     last_bot_confidence := last_bot_confidence s |}.

Definition set_expecting_ltm (v : option bool) (p : PendingRequest) : PendingRequest :=
  {| pr_user_id := pr_user_id p; pr_chat_id := pr_chat_id p;
     pr_text := pr_text p; pr_include_prompt := pr_include_prompt p;
     pr_message_count := pr_message_count p;
     pr_session_data := pr_session_data p; pr_mode := pr_mode p;
     pr_mode_confidence := pr_mode_confidence p;
     pr_timestamp := pr_timestamp p; expecting_ltm := v;
     ltm_search_type := ltm_search_type p; stm_received := stm_received p;
     ltm_received := ltm_received p; stm_context := stm_context p;
     ltm_memories := ltm_memories p;
     ltm_request_timestamp := ltm_request_timestamp p;
     expecting_embedding := expecting_embedding p;
     embedding_received := embedding_received p;
     query_vector := query_vector p |}.

Definition set_ltm_search_type (v : option string) (p : PendingRequest) : PendingRequest :=
  {| pr_user_id := pr_user_id p; pr_chat_id := pr_chat_id p;
     pr_text := pr_text p; pr_include_prompt := pr_include_prompt p;
     pr_message_count := pr_message_count p;
     pr_session_data := pr_session_data p; pr_mode := pr_mode p;
     pr_mode_confidence := pr_mode_confidence p;
     pr_timestamp := pr_timestamp p; expecting_ltm := expecting_ltm p;
     ltm_search_type := v; stm_received := stm_received p;
     ltm_received := ltm_received p; stm_context := stm_context p;
     ltm_memories := ltm_memories p;
     ltm_request_timestamp := ltm_request_timestamp p;
     expecting_embedding := expecting_embedding p;
     embedding_received := embedding_received p;
     query_vector := query_vector p |}.

Definition set_stm_received (v : option bool) (p : PendingRequest) : PendingRequest :=
  {| pr_user_id := pr_user_id p; pr_chat_id := pr_chat_id p;
     pr_text := pr_text p; pr_include_prompt := pr_include_prompt p;
     pr_message_count := pr_message_count p;
     pr_session_data := pr_session_data p; pr_mode := pr_mode p;
     pr_mode_confidence := pr_mode_confidence p;
     pr_timestamp := pr_timestamp p; expecting_ltm := expecting_ltm p;
     ltm_search_type := ltm_search_type p; stm_received := v;
     ltm_received := ltm_received p; stm_context := stm_context p;
     ltm_memories := ltm_memories p;
     ltm_request_timestamp := ltm_request_timestamp p;
     expecting_embedding := expecting_embedding p;
     embedding_received := embedding_received p;
     query_vector := query_vector p |}.

Definition set_ltm_received (v : option bool) (p : PendingRequest) : PendingRequest :=
  {| pr_user_id := pr_user_id p; pr_chat_id := pr_chat_id p;
     pr_text := pr_text p; pr_include_prompt := pr_include_prompt p;
     pr_message_count := pr_message_count p;
     pr_session_data := pr_session_data p; pr_mode := pr_mode p;
     pr_mode_confidence := pr_mode_confidence p;
     pr_timestamp := pr_timestamp p; expecting_ltm := expecting_ltm p;
     ltm_search_type := ltm_search_type p; stm_received := stm_received p;
     ltm_received := v; stm_context := stm_context p;
     ltm_memories := ltm_memories p;
     ltm_request_timestamp := ltm_request_timestamp p;
     expecting_embedding := expecting_embedding p;
     embedding_received := embedding_received p;
     query_vector := query_vector p |}.

Definition set_stm_context (v : option (option (list StmMessage))) (p : PendingRequest) : PendingRequest :=
  {| pr_user_id := pr_user_id p; pr_chat_id := pr_chat_id p;
     pr_text := pr_text p; pr_include_prompt := pr_include_prompt p;
     pr_message_count := pr_message_count p;
     pr_session_data := pr_session_data p; pr_mode := pr_mode p;
     pr_mode_confidence := pr_mode_confidence p;
     pr_timestamp := pr_timestamp p; expecting_ltm := expecting_ltm p;
     ltm_search_type := ltm_search_type p; stm_received := stm_received p;
     ltm_received := ltm_received p; stm_context := v;
     ltm_memories := ltm_memories p;
     ltm_request_timestamp := ltm_request_timestamp p;
     expecting_embedding := expecting_embedding p;
     embedding_received := embedding_received p;
     query_vector := query_vector p |}.

Definition set_ltm_memories (v : option (option (list Memory))) (p : PendingRequest) : PendingRequest :=
  {| pr_user_id := pr_user_id p; pr_chat_id := pr_chat_id p;
     pr_text := pr_text p; pr_include_prompt := pr_include_prompt p;
     pr_message_count := pr_message_count p;
     pr_session_data := pr_session_data p; pr_mode := pr_mode p;
     pr_mode_confidence := pr_mode_confidence p;
     pr_timestamp := pr_timestamp p; expecting_ltm := expecting_ltm p;
     ltm_search_type := ltm_search_type p; stm_received := stm_received p;
     ltm_received := ltm_received p; stm_context := stm_context p;
     ltm_memories := v; ltm_request_timestamp := ltm_request_timestamp p;
     expecting_embedding := expecting_embedding p;
     embedding_received := embedding_received p;
     query_vector := query_vector p |}.

Definition set_ltm_request_timestamp (v : option Time) (p : PendingRequest) : PendingRequest :=
  {| pr_user_id := pr_user_id p; pr_chat_id := pr_chat_id p;
     pr_text := pr_text p; pr_include_prompt := pr_include_prompt p;
     pr_message_count := pr_message_count p;
     pr_session_data := pr_session_data p; pr_mode := pr_mode p;
     pr_mode_confidence := pr_mode_confidence p;
     pr_timestamp := pr_timestamp p; expecting_ltm := expecting_ltm p;
     ltm_search_type := ltm_search_type p; stm_received := stm_received p;
     ltm_received := ltm_received p; stm_context := stm_context p;
     ltm_memories := ltm_memories p; ltm_request_timestamp := v;
     expecting_embedding := expecting_embedding p;
     embedding_received := embedding_received p;
     query_vector := query_vector p |}.

Definition set_expecting_embedding (v : option bool) (p : PendingRequest) : PendingRequest :=
  {| pr_user_id := pr_user_id p; pr_chat_id := pr_chat_id p;
     pr_text := pr_text p; pr_include_prompt := pr_include_prompt p;
     pr_message_count := pr_message_count p;
     pr_session_data := pr_session_data p; pr_mode := pr_mode p;
     pr_mode_confidence := pr_mode_confidence p;
     pr_timestamp := pr_timestamp p; expecting_ltm := expecting_ltm p;
     ltm_search_type := ltm_search_type p; stm_received := stm_received p;
     ltm_received := ltm_received p; stm_context := stm_context p;
     ltm_memories := ltm_memories p;
     ltm_request_timestamp := ltm_request_timestamp p;
     expecting_embedding := v; embedding_received := embedding_received p;
     query_vector := query_vector p |}.

Definition set_embedding_received (v : option bool) (p : PendingRequest) : PendingRequest :=
  {| pr_user_id := pr_user_id p; pr_chat_id := pr_chat_id p;
     pr_text := pr_text p; pr_include_prompt := pr_include_prompt p;
     pr_message_count := pr_message_count p;
     pr_session_data := pr_session_data p; pr_mode := pr_mode p;
     pr_mode_confidence := pr_mode_confidence p;
     pr_timestamp := pr_timestamp p; expecting_ltm := expecting_ltm p;
     ltm_search_type := ltm_search_type p; stm_received := stm_received p;
     ltm_received := ltm_received p; stm_context := stm_context p;
     ltm_memories := ltm_memories p;
     ltm_request_timestamp := ltm_request_timestamp p;
     expecting_embedding := expecting_embedding p; embedding_received := v;
     query_vector := query_vector p |}.

Definition set_query_vector (v : option (option (list Q))) (p : PendingRequest) : PendingRequest :=
  {| pr_user_id := pr_user_id p; pr_chat_id := pr_chat_id p;
     pr_text := pr_text p; pr_include_prompt := pr_include_prompt p;
     pr_message_count := pr_message_count p;
     pr_session_data := pr_session_data p; pr_mode := pr_mode p;
     pr_mode_confidence := pr_mode_confidence p;
     pr_timestamp := pr_timestamp p; expecting_ltm := expecting_ltm p;
     ltm_search_type := ltm_search_type p; stm_received := stm_received p;
     ltm_received := ltm_received p; stm_context := stm_context p;
     ltm_memories := ltm_memories p;
     ltm_request_timestamp := ltm_request_timestamp p;
     expecting_embedding := expecting_embedding p;
     embedding_received := embedding_received p; query_vector := v |}.

(** ** Inbound messages *)

(** [LIMIT_RESPONSE]: flags are read by truthiness of [payload.get],
    the other keys may be absent. *)
Record LimitPayload := {
  is_status_check : bool;
  is_auth_check : bool;
  lp_request_id : option string;
  approaching_limit : bool;
  messages_remaining : option Z;
  lp_limit : option Z;
  subscription_expiring : bool;
  days_remaining : option Z;
  unlimited : option bool;
  messages_today : option Z
}.

Record ContextPayload := {
  cp_request_id : option string;
  cp_messages : option (list StmMessage)
}.

Record LtmPayload := {
  ltm_request_id : option string;
  ltm_success : option bool;
  ltm_results : option (list Memory);
  ltm_error : option string
}.

Record EmbeddingPayload := {
  ep_request_id : option string;
  ep_success : option bool;
  ep_embedding : option (list Q);
  ep_error : option string
}.

(** The message types of the join.  The other types of [handle_message]
    ([CACHE_HIT_METRIC], [BOT_RESPONSE], [EMOTION_RESULT]) go to the mixins
    or update the emotion and bot-response fields of a session; they read
    and write neither pending table.  The [EMOTION_RESULT] branch is
    modelled on its own below ([handle_emotion_result]); the other two
    call into the mixins and are outside this development. *)
Inductive ActorMessage :=
| USER_MESSAGE (p : UserMessagePayload)
| CONTEXT_RESPONSE (p : ContextPayload)
| LTM_RESPONSE (p : LtmPayload)
| EMBEDDING_RESPONSE (p : EmbeddingPayload)
| LIMIT_RESPONSE (p : LimitPayload).

(** ** Outbound messages, domain events, log lines *)

(** The payload of [GENERATE_RESPONSE].  [historical_context] may hold
    [None]; the key [ltm_memories] may be absent (outer option) or hold
    [None] (inner option). *)
Record GeneratePayload := {
  gp_user_id : string;
  gp_chat_id : Z;
  gp_text : string;
  gp_include_prompt : bool;
  gp_message_count : Z;
  gp_session_data : SessionData;
  gp_mode : string;
  gp_mode_confidence : Q;
  gp_historical_context : option (list StmMessage);
  gp_ltm_memories : option (option (list Memory))
}.

(** One constructor per message type, with the keys of its payload.  The
    sender is always the actor; [reply_to] is the actor for
    [ANALYZE_EMOTION], [GET_CONTEXT], [GENERATE_EMBEDDING] and
    [GET_LTM_MEMORY] and is not set otherwise. *)
Inductive OutMsg :=
| STORE_MEMORY (uid message_type content : string)
    (meta_username : option string) (meta_timestamp : Time)
| CHECK_LIMIT (uid request_id : string)
| ANALYZE_EMOTION (uid text : string)
| GET_CONTEXT (uid request_id : string) (limit : Z) (format_type : string)
| GENERATE_EMBEDDING (text : string) (emotions : Emotions)
    (request_id : string)
| GET_LTM_MEMORY (uid search_type : string) (vector : option (list Q))
    (limit : Z) (request_id : string)
| GENERATE_RESPONSE (p : GeneratePayload)
| BOT_RESPONSE (uid : string) (chat_id : Z) (text : string)
| LIMIT_EXCEEDED (uid : string) (chat_id : Z) (today limit : Z).

Inductive Event :=
| SessionCreatedEvent (uid : string) (uname : option string) (created : Time)
| ModeDetectedEvent (uid mode : string) (confidence : Q)
    (previous_mode : option string) (detection_details : Details)
    (timestamp : Time)
| PromptInclusionEvent (uid : string) (count : Z) (strategy reason : string)
| LimitExceededEvent (uid : string) (today daily_limit : Z).

(** The exceptions the coordinator can meet: an attribute access on
    [None], a missing key, a rejected assignment on a session. *)
Inductive Exn :=
| AttributeError
| KeyError (key : string)
| ValidationError (field : string).

Inductive Level := DEBUG | INFO | WARNING | ERROR.

(** One constructor per [self.logger] call, with the interpolated values. *)
Inductive LogLine :=
| UnknownContextId (rid : option string)
| UnknownLtmId (rid : option string)
| UnknownEmbeddingId (rid : option string)
| UnknownLimitId (rid : option string)
| NoPendingRequest (rid : string)
| ReceivedStmContext (rid : string) (n : nat)
| ReceivedLtmContext (rid : string) (n : nat)
| LtmSearchFailed (rid : string) (error : string)
| ReceivedEmbedding (n : nat) (rid : string)
| SentVectorSearch (uid : string)
| EmptyEmbedding
| EmbeddingFailed (error : string)
| ExceededDailyLimit (uid : string) (today limit : Z)
| CreatedLimitExceededEvent (uid : string)
| SentLimitExceeded (uid : string)
| WithinLimits (uid : string)
| SentCheckLimit (uid rid : string)
| CreatedSession (uid : string)
| EmbeddingTimeout (rid : string) (elapsed : Z)
| LtmTimeout (rid : string) (elapsed : Z)
| GeneratedWithLtm (n : nat) (uid : string)
| FallbackToRecent (uid : string)
| ContextRequestTimeout (uid : string)
| LimitCheckTimeout (uid : string)
| ContinuingAfterLimit (uid : string)
| SentAnalyzeEmotion
| ModeDetection (mode : string) (confidence : Q) (changed : bool)
| RequestedContext (uid : string)
| RequestedEmbedding (uid : string)
| RequestedLtm (uid search_type : string)
| CleanupLoopError (e : Exn).

Inductive Effect :=
| Send (target : string) (m : OutMsg)
| AppendEvent (e : Event)
| Log (lvl : Level) (l : LogLine).

(** ** The actor and its monad *)

(** [actor_system]: whether [get_actor_system()] returns a system.
    [uuid_drawn]: how many identifiers [uuid.uuid4()] has produced. *)
Record Actor := {
  _sessions : gmap string loc;
  heap : list UserSession;
  _last_detection_details : Details;
  _pending_requests : dict PendingRequest;
  _pending_limits : dict PendingLimit;
  actor_system : bool;
  uuid_drawn : nat
}.

(** [UserSessionActor.__init__]. *)
Definition init (attached : bool) : Actor := {|
  _sessions := ∅;
  heap := [];
  _last_detection_details := EmptyString;
  _pending_requests := [];
  _pending_limits := [];
  actor_system := attached;
  uuid_drawn := 0
|}.

Definition set_sessions (m : gmap string loc) (h : list UserSession)
    (a : Actor) : Actor :=
  {| _sessions := m; heap := h;
     _last_detection_details := _last_detection_details a;
     _pending_requests := _pending_requests a;
     _pending_limits := _pending_limits a;
     actor_system := actor_system a; uuid_drawn := uuid_drawn a |}.

Definition set_heap (h : list UserSession) (a : Actor) : Actor :=
  set_sessions (_sessions a) h a.

Definition set_details (d : Details) (a : Actor) : Actor :=
  {| _sessions := _sessions a; heap := heap a;
     _last_detection_details := d;
     _pending_requests := _pending_requests a;
     _pending_limits := _pending_limits a;
     actor_system := actor_system a; uuid_drawn := uuid_drawn a |}.

Definition set_pending_requests (d : dict PendingRequest) (a : Actor)
  : Actor :=
  {| _sessions := _sessions a; heap := heap a;
     _last_detection_details := _last_detection_details a;
     _pending_requests := d;
     _pending_limits := _pending_limits a;
     actor_system := actor_system a; uuid_drawn := uuid_drawn a |}.

Definition set_pending_limits (d : dict PendingLimit) (a : Actor) : Actor :=
  {| _sessions := _sessions a; heap := heap a;
     _last_detection_details := _last_detection_details a;
     _pending_requests := _pending_requests a;
     _pending_limits := d;
     actor_system := actor_system a; uuid_drawn := uuid_drawn a |}.

Definition set_uuid_drawn (n : nat) (a : Actor) : Actor :=
  {| _sessions := _sessions a; heap := heap a;
     _last_detection_details := _last_detection_details a;
     _pending_requests := _pending_requests a;
     _pending_limits := _pending_limits a;
     actor_system := actor_system a; uuid_drawn := n |}.

Inductive Result (A : Type) :=
| Ok (a : A)
| Raised (e : Exn).
Arguments Ok {A} a.
Arguments Raised {A} e.

(** A computation reads and writes the actor, appends to the trace and
    may raise; effects and writes made before a raise persist. *)
Definition M (A : Type) : Type := Actor -> Result A * Actor * list Effect.

Definition ret {A} (a : A) : M A := fun σ => (Ok a, σ, []).

Definition bind {A B} (m : M A) (k : A -> M B) : M B :=
  fun σ =>
    match m σ with
    | (Ok a, σ1, t1) =>
        match k a σ1 with (r, σ2, t2) => (r, σ2, t1 ++ t2) end
    | (Raised e, σ1, t1) => (Raised e, σ1, t1)
    end.

Notation "'do' x <- m ; k" := (bind m (fun x => k))
  (at level 10, x name, m at level 100, k at level 200,
   format "'[v' 'do'  x  <-  m ;  '/' k ']'").
Notation "m >> k" := (bind m (fun _ => k))
  (at level 100, k at level 200, right associativity).

Definition raise {A} (e : Exn) : M A := fun σ => (Raised e, σ, []).
Definition emit (e : Effect) : M unit := fun σ => (Ok tt, σ, [e]).
Definition read {A} (f : Actor -> A) : M A := fun σ => (Ok (f σ), σ, []).
Definition write (f : Actor -> Actor) : M unit := fun σ => (Ok tt, f σ, []).

Definition log (lvl : Level) (l : LogLine) : M unit := emit (Log lvl l).

(** [await system.send_message(target, msg)] on an actor system. *)
Definition deliver (target : string) (m : OutMsg) : M unit :=
  emit (Send target m).

(** [await self.get_actor_system().send_message(target, msg)]: without a
    system the attribute access on [None] raises. *)
Definition send_message (target : string) (m : OutMsg) : M unit :=
  do sys <- read actor_system;
  if sys then deliver target m else raise AttributeError.

(** [if self.get_actor_system(): block]. *)
Definition when_system (block : M unit) : M unit :=
  do sys <- read actor_system;
  if sys then block else ret tt.

(** [if self.get_actor_system(): await ...send_message(target, msg)]. *)
Definition send_if_system (target : string) (m : OutMsg) : M unit :=
  when_system (deliver target m).

(** [self._event_version_manager.append_event(event, system)]. *)
Definition append_event (e : Event) : M unit := emit (AppendEvent e).

(** [for x in l: body(x)]. *)
Fixpoint for_each {A} (l : list A) (body : A -> M unit) : M unit :=
  match l with
  | [] => ret tt
  | x :: l' => body x >> for_each l' body
  end.

(** [try: m except Exception: h]. *)
Definition try_except {A} (m : M A) (h : Exn -> M A) : M A :=
  fun σ =>
    match m σ with
    | (Ok a, σ1, t1) => (Ok a, σ1, t1)
    | (Raised e, σ1, t1) =>
        match h e σ1 with (r, σ2, t2) => (r, σ2, t1 ++ t2) end
    end.

(** ** Collaborators outside the two source files

    The mixins [ModeDetectionMixin], [PromptManagementMixin],
    [LTMCoordinationMixin], the texts of [config/messages.py] and
    [config/prompts.py], and the identifier source [uuid.uuid4].  Each is
    a function of its arguments; the detector returns, with the mode and
    the confidence, the details it leaves in [_last_detection_details];
    [uuid4 n] is the [n]-th identifier drawn.  [send_message] of the actor
    system and [append_event] of the version manager are taken not to
    raise. *)
Record Collaborators := {
  uuid4 : nat -> string;
  _determine_generation_mode : string -> UserSession -> string * Q * Details;
  _should_include_prompt : UserSession -> bool;
  _get_prompt_reason : UserSession -> string;
  _should_request_ltm : string -> UserSession -> bool * string;
  prompt_strategy : string;
  USER_MESSAGES : string -> string;
  format_limit_warning : string -> Z -> Z -> string;
  format_days_remaining : string -> Z -> string
}.

(** Truthiness of an optional string: [None] and the empty string are
    falsy. *)
Definition truthy_id (rid : option string) : option string :=
  match rid with
  | Some EmptyString => None
  | r => r
  end.

(** [payload.get(key, False)] read as a condition. *)
Definition flag (b : option bool) : bool := default false b.

(** [bool(x)] for a value that is [None] or a list. *)
Definition nonempty {A} (l : option (list A)) : bool :=
  match l with
  | Some (_ :: _) => true
  | _ => false
  end.

Definition valid_modes : list string := ["talk"; "expert"; "creative"; "base"].

(** [validate_mode]. *)
Definition validate_mode (v : string) : bool :=
  existsb (String.eqb v) valid_modes.

(** [validate_confidence]. *)
Definition validate_confidence (v : Q) : bool :=
  Qle_bool PYDANTIC_CONFIDENCE_MIN v && Qle_bool v PYDANTIC_CONFIDENCE_MAX.

(** [d.get(key, dflt)] and [d.get(key)] on a key that may be absent and
    may hold [None]. *)
Definition get_or {A} (dflt : A) (v : option (option A)) : option A :=
  match v with
  | Some x => x
  | None => Some dflt
  end.

Definition get_or_none {A} (v : option (option A)) : option A :=
  match v with
  | Some x => x
  | None => None
  end.

(** [len(x)] for a value known to be a list. *)
Definition len {A} (l : option (list A)) : nat := length (default [] l).

(** [list.pop(0)] on a non-empty list. *)
Definition pop0 {A} (l : list A) : list A := tail l.

(** [l[-2] if len(l) > 1 else None]. *)
Definition previous_of (l : list string) : option string :=
  if decide (1 < length l)%nat then l !! (length l - 2)%nat else None.

Section Coordinator.

Context (env : Collaborators) (cfg : Settings).

(** *** Access to the heap and the tables *)

Definition get_session (l : loc) : M UserSession :=
  do h <- read heap;
  match h !! l with
  | Some s => ret s
  | None => raise AttributeError
  end.

(** An attribute assignment on the shared session object. *)
Definition update_session (l : loc) (f : UserSession -> UserSession)
  : M unit :=
  do s <- get_session l;
  write (fun σ => set_heap (<[l := f s]> (heap σ)) σ).

(** A key assignment [pending[key] = v] on the record stored under [rid]:
    the record is shared with the table, the write is seen there. *)
Definition update_request (rid : string)
    (f : PendingRequest -> PendingRequest) : M unit :=
  write (fun σ =>
    match get rid (_pending_requests σ) with
    | Some p => set_pending_requests (set rid (f p) (_pending_requests σ)) σ
    | None => σ
    end).

(** [self._pending_requests.pop(rid)]. *)
Definition pop_request (rid : string) : M PendingRequest :=
  do d <- read _pending_requests;
  match get rid d with
  | Some p => write (set_pending_requests (remove rid d)) >> ret p
  | None => raise (KeyError rid)
  end.

(** [self._pending_limits.pop(rid)]. *)
Definition pop_limit (rid : string) : M PendingLimit :=
  do d <- read _pending_limits;
  match get rid d with
  | Some p => write (set_pending_limits (remove rid d)) >> ret p
  | None => raise (KeyError rid)
  end.

(** [str(uuid.uuid4())]. *)
Definition fresh_uuid : M string :=
  do n <- read uuid_drawn;
  write (set_uuid_drawn (S n)) >> ret (uuid4 env n).

(** [payload[key]] on a key that may be absent. *)
Definition index {A} (key : string) (v : option A) : M A :=
  match v with
  | Some a => ret a
  | None => raise (KeyError key)
  end.

(** *** [_get_or_create_session] *)

Definition _get_or_create_session (uid : string) (uname : option string)
    (now : Time) : M loc :=
  do m <- read _sessions;
  match m !! uid with
  | Some l => ret l
  | None =>
      do h <- read heap;
      let session := new_session uid uname now in
      let l := length h in
      write (set_sessions (<[uid := l]> m) (h ++ [session])) >>
      append_event (SessionCreatedEvent uid uname (created_at session)) >>
      log INFO (CreatedSession uid) >>
      ret l
  end.

(** *** [_handle_user_message]: everything after the first [return None]
    is unreachable and is not part of the function. *)

Definition _handle_user_message (p : UserMessagePayload) (now : Time)
  : M unit :=
  let uid := um_user_id p in
  let uname := um_username p in
  let text := um_text p in
  let chat_id := um_chat_id p in
  do session <- _get_or_create_session uid uname now;
  update_session session (set_last_user_text (Some text)) >>
  send_if_system "memory" (STORE_MEMORY uid "user" text uname now) >>
  do limit_request_id <- fresh_uuid;
  write (fun σ => set_pending_limits
    (set limit_request_id
       {| pl_user_id := uid; pl_timestamp := now; pl_chat_id := chat_id;
          pl_text := text; pl_username := uname; pl_session := session;
          pl_message := p |}
       (_pending_limits σ)) σ) >>
  send_message "auth" (CHECK_LIMIT uid limit_request_id) >>
  log INFO (SentCheckLimit uid limit_request_id).

(** *** [_fallback_to_recent_search] *)

Definition _fallback_to_recent_search (request_id : string) : M unit :=
  do d <- read _pending_requests;
  match get request_id d with
  | None => ret tt
  | Some pending =>
      update_request request_id (set_embedding_received (Some true)) >>
      update_request request_id (set_query_vector (Some None)) >>
      let uid := pr_user_id pending in
      send_message "ltm"
        (GET_LTM_MEMORY uid "recent" None (LTM_CONTEXT_LIMIT cfg)
           request_id) >>
      log INFO (FallbackToRecent uid)
  end.

(** *** [_check_ready_to_generate] *)

(** The payload assembled once the record is ready:
    [pending.get(key, [])] returns the stored value whenever the key is
    present, also when that value is [None]. *)
Definition generate_payload (pending : PendingRequest) : GeneratePayload :=
  {| gp_user_id := pr_user_id pending;
     gp_chat_id := pr_chat_id pending;
     gp_text := pr_text pending;
     gp_include_prompt := pr_include_prompt pending;
     gp_message_count := pr_message_count pending;
     gp_session_data := pr_session_data pending;
     gp_mode := pr_mode pending;
     gp_mode_confidence := pr_mode_confidence pending;
     gp_historical_context := get_or [] (stm_context pending);
     gp_ltm_memories := Some (get_or [] (ltm_memories pending)) |}.

Definition _check_ready_to_generate (request_id : string) (now : Time)
  : M unit :=
  do d <- read _pending_requests;
  match get request_id d with
  | None => ret tt
  | Some pending =>
      let stm_ready := flag (stm_received pending) in
      let expecting_ltm_ := flag (expecting_ltm pending) in
      let ltm_ready := flag (ltm_received pending) in
      let expecting_embedding_ := flag (expecting_embedding pending) in
      let embedding_received_ := flag (embedding_received pending) in
      if expecting_embedding_ && negb embedding_received_ then
        match ltm_request_timestamp pending with
        | Some ltm_timestamp =>
            let elapsed := now - ltm_timestamp in
            if bool_decide (elapsed > LTM_EMBEDDING_REQUEST_TIMEOUT cfg) then
              log DEBUG (EmbeddingTimeout request_id elapsed) >>
              _fallback_to_recent_search request_id
            else ret tt
        | None => ret tt
        end
      else
        do ltm_timeout <-
          (if expecting_ltm_ && negb ltm_ready then
             match ltm_request_timestamp pending with
             | Some ltm_timestamp =>
                 let elapsed := now - ltm_timestamp in
                 if bool_decide (elapsed > LTM_REQUEST_TIMEOUT cfg) then
                   log DEBUG (LtmTimeout request_id elapsed) >> ret true
                 else ret false
             | None => ret false
             end
           else ret false);
        let ready :=
          stm_ready && (ltm_ready || negb expecting_ltm_ || ltm_timeout) in
        if negb ready then ret tt
        else
          do pending <- pop_request request_id;
          let payload := generate_payload pending in
          (if nonempty (get_or_none (ltm_memories pending)) then
             log INFO (GeneratedWithLtm
                         (len (get_or_none (ltm_memories pending)))
                         (pr_user_id pending))
           else ret tt) >>
          send_if_system "generation" (GENERATE_RESPONSE payload)
  end.

(** *** [_continue_message_processing] *)

(** The record stored under the new identifier. *)
Definition new_request (uid : string) (chat_id : Z) (text : string)
    (include_prompt : bool) (session : UserSession) (now : Time)
  : PendingRequest :=
  {| pr_user_id := uid;
     pr_chat_id := chat_id;
     pr_text := text;
     pr_include_prompt := include_prompt;
     pr_message_count := message_count session;
     pr_session_data :=
       {| sd_username := username session;
          sd_created_at := created_at session |};
     pr_mode := current_mode session;
     pr_mode_confidence := mode_confidence session;
     pr_timestamp := now;
     expecting_ltm := None; ltm_search_type := None;
     stm_received := None; ltm_received := None;
     stm_context := None; ltm_memories := None;
     ltm_request_timestamp := None;
     expecting_embedding := None; embedding_received := None;
     query_vector := None |}.

(** [session.current_mode = v] under [validate_assignment]. *)
Definition assign_current_mode (l : loc) (v : string) : M unit :=
  if validate_mode v then update_session l (set_current_mode v)
  else raise (ValidationError "current_mode").

(** [session.mode_confidence = v] under [validate_assignment]. *)
Definition assign_mode_confidence (l : loc) (v : Q) : M unit :=
  if validate_confidence v then update_session l (set_mode_confidence v)
  else raise (ValidationError "mode_confidence").

(** [session.mode_history.append(m)] followed by the cap. *)
Definition push_mode (new_mode : string) (history : list string)
  : list string :=
  let history := history ++ [new_mode] in
  if bool_decide (MODE_HISTORY_SIZE cfg < length history)%nat
  then pop0 history
  else history.

Definition _continue_message_processing (pending : PendingLimit)
    (now : Time) : M unit :=
  let uid := pl_user_id pending in
  let text := pl_text pending in
  let chat_id := pl_chat_id pending in
  let session := pl_session pending in
  log DEBUG (ContinuingAfterLimit uid) >>
  when_system
    (deliver "perception" (ANALYZE_EMOTION uid text) >>
     log INFO SentAnalyzeEmotion) >>
  do s <- get_session session;
  let '(new_mode, confidence, details) :=
    _determine_generation_mode env text s in
  write (set_details details) >>
  do mode_changed <-
    (if bool_decide (new_mode ≠ current_mode s) then
       update_session session (set_last_mode_change (Some now)) >>
       assign_current_mode session new_mode >>
       ret true
     else ret false);
  assign_mode_confidence session confidence >>
  update_session session
    (fun s => set_mode_history (push_mode new_mode (mode_history s)) s) >>
  log INFO (ModeDetection new_mode confidence mode_changed) >>
  do s <- get_session session;
  (if mode_changed then
     do details <- read _last_detection_details;
     append_event
       (ModeDetectedEvent uid new_mode confidence
          (previous_of (mode_history s)) details now)
   else ret tt) >>
  update_session session
    (fun s => set_message_count (message_count s + 1) s) >>
  update_session session (set_last_activity now) >>
  do s <- get_session session;
  let include_prompt := _should_include_prompt env s in
  (if include_prompt then
     append_event
       (PromptInclusionEvent uid (message_count s) (prompt_strategy env)
          (_get_prompt_reason env s))
   else ret tt) >>
  do request_id <- fresh_uuid;
  write (fun σ => set_pending_requests
    (set request_id (new_request uid chat_id text include_prompt s now)
       (_pending_requests σ)) σ) >>
  send_message "memory"
    (GET_CONTEXT uid request_id (STM_CONTEXT_SIZE_FOR_GENERATION cfg)
       "structured") >>
  log INFO (RequestedContext uid) >>
  if LTM_REQUEST_ENABLED cfg then
    let '(need_ltm, search_type) := _should_request_ltm env text s in
    if need_ltm then
      update_request request_id (set_expecting_ltm (Some true)) >>
      update_request request_id (set_ltm_search_type (Some search_type)) >>
      update_request request_id (set_stm_received (Some false)) >>
      update_request request_id (set_ltm_received (Some false)) >>
      update_request request_id (set_stm_context (Some None)) >>
      update_request request_id (set_ltm_memories (Some None)) >>
      update_request request_id (set_ltm_request_timestamp (Some now)) >>
      if String.eqb search_type "vector" then
        update_request request_id (set_expecting_embedding (Some true)) >>
        update_request request_id (set_embedding_received (Some false)) >>
        send_message "ltm"
          (GENERATE_EMBEDDING text
             (match last_emotion_vector s with
              | Some (e :: v) => e :: v
              | _ => []
              end)
             request_id) >>
        log INFO (RequestedEmbedding uid)
      else
        send_message "ltm"
          (GET_LTM_MEMORY uid search_type None (LTM_CONTEXT_LIMIT cfg)
             request_id) >>
        log INFO (RequestedLtm uid search_type)
    else
      update_request request_id (set_expecting_ltm (Some false)) >>
      update_request request_id (set_stm_received (Some false)) >>
      update_request request_id (set_ltm_received (Some false)) >>
      update_request request_id (set_stm_context (Some None)) >>
      update_request request_id (set_ltm_memories (Some None))
  else ret tt.

(** *** [handle_message] *)

(** The negation of [not request_id or request_id not in table]. *)
Definition present {V} (request_id : option string) (table : dict V)
  : option string :=
  match truthy_id request_id with
  | Some rid => if mem rid table then Some rid else None
  | None => None
  end.

Definition handle_context_response (p : ContextPayload) (now : Time)
  : M unit :=
  do table <- read _pending_requests;
  match present (cp_request_id p) table with
  | None => log WARNING (UnknownContextId (cp_request_id p))
  | Some request_id =>
      match get request_id table with
      | None => log WARNING (NoPendingRequest request_id)
      | Some _ =>
          let messages := default [] (cp_messages p) in
          update_request request_id
            (set_stm_context (Some (Some messages))) >>
          update_request request_id (set_stm_received (Some true)) >>
          log DEBUG (ReceivedStmContext request_id (length messages)) >>
          _check_ready_to_generate request_id now
      end
  end.

Definition handle_ltm_response (p : LtmPayload) (now : Time) : M unit :=
  do table <- read _pending_requests;
  match present (ltm_request_id p) table with
  | None => log WARNING (UnknownLtmId (ltm_request_id p))
  | Some request_id =>
      match get request_id table with
      | None => log WARNING (NoPendingRequest request_id)
      | Some _ =>
          (if flag (ltm_success p) then
             let ltm_results_ := default [] (ltm_results p) in
             update_request request_id
               (set_ltm_memories (Some (Some ltm_results_))) >>
             log INFO (ReceivedLtmContext request_id (length ltm_results_))
           else
             update_request request_id (set_ltm_memories (Some (Some []))) >>
             log WARNING
               (LtmSearchFailed request_id
                  (default "Unknown error" (ltm_error p)))) >>
          update_request request_id (set_ltm_received (Some true)) >>
          _check_ready_to_generate request_id now
      end
  end.

Definition handle_embedding_response (p : EmbeddingPayload) : M unit :=
  do table <- read _pending_requests;
  match present (ep_request_id p) table with
  | None => log WARNING (UnknownEmbeddingId (ep_request_id p))
  | Some request_id =>
      match get request_id table with
      | None => log WARNING (NoPendingRequest request_id)
      | Some pending =>
          if flag (ep_success p) then
            match ep_embedding p with
            | Some (x :: v) =>
                let embedding := x :: v in
                update_request request_id
                  (set_query_vector (Some (Some embedding))) >>
                update_request request_id
                  (set_embedding_received (Some true)) >>
                log DEBUG (ReceivedEmbedding (length embedding) request_id) >>
                let uid := pr_user_id pending in
                send_message "ltm"
                  (GET_LTM_MEMORY uid "vector" (Some embedding)
                     (LTM_CONTEXT_LIMIT cfg) request_id) >>
                log INFO (SentVectorSearch uid)
            | _ =>
                log WARNING EmptyEmbedding >>
                _fallback_to_recent_search request_id
            end
          else
            log WARNING
              (EmbeddingFailed (default "Unknown error" (ep_error p))) >>
            _fallback_to_recent_search request_id
      end
  end.

Definition handle_limit_response (p : LimitPayload) (now : Time) : M unit :=
  if is_status_check p || is_auth_check p then ret tt
  else
    do table <- read _pending_limits;
    match present (lp_request_id p) table with
    | None => log WARNING (UnknownLimitId (lp_request_id p))
    | Some request_id =>
        do pending <- pop_limit request_id;
        let uid := pl_user_id pending in
        let chat_id := pl_chat_id pending in
        (if approaching_limit p then
           do remaining <- index "messages_remaining" (messages_remaining p);
           do limit <- index "limit" (lp_limit p);
           send_if_system "telegram"
             (BOT_RESPONSE uid chat_id
                (format_limit_warning env
                   (USER_MESSAGES env "limit_warning") remaining limit))
         else ret tt) >>
        (if subscription_expiring p then
           do days <- index "days_remaining" (days_remaining p);
           let message_key :=
             if days =? 0 then "subscription_expiring_today"
             else "subscription_expiring" in
           send_if_system "telegram"
             (BOT_RESPONSE uid chat_id
                (if bool_decide (days > 0)
                 then format_days_remaining env
                        (USER_MESSAGES env message_key) days
                 else USER_MESSAGES env message_key))
         else ret tt) >>
        let unlimited_ := flag (unlimited p) in
        let today := default 0 (messages_today p) in
        let limit := default (DAILY_MESSAGE_LIMIT cfg) (lp_limit p) in
        if negb unlimited_ && bool_decide (today >= limit) then
          log WARNING (ExceededDailyLimit uid today limit) >>
          append_event (LimitExceededEvent uid today limit) >>
          log INFO (CreatedLimitExceededEvent uid) >>
          when_system
            (deliver "telegram" (LIMIT_EXCEEDED uid chat_id today limit) >>
             log INFO (SentLimitExceeded uid))
        else
          log INFO (WithinLimits uid) >>
          _continue_message_processing pending now
    end.

Definition handle_message (message : ActorMessage) (now : Time) : M unit :=
  match message with
  | USER_MESSAGE p => _handle_user_message p now
  | CONTEXT_RESPONSE p => handle_context_response p now
  | LTM_RESPONSE p => handle_ltm_response p now
  | EMBEDDING_RESPONSE p => handle_embedding_response p
  | LIMIT_RESPONSE p => handle_limit_response p now
  end.

(** *** [_cleanup_expired_requests] *)

(** The payload built by the sweep: nine keys, no [ltm_memories]. *)
Definition timeout_payload (pending : PendingRequest) : GeneratePayload :=
  {| gp_user_id := pr_user_id pending;
     gp_chat_id := pr_chat_id pending;
     gp_text := pr_text pending;
     gp_include_prompt := pr_include_prompt pending;
     gp_message_count := pr_message_count pending;
     gp_session_data := pr_session_data pending;
     gp_mode := pr_mode pending;
     gp_mode_confidence := pr_mode_confidence pending;
     gp_historical_context := Some [];
     gp_ltm_memories := None |}.

(** The keys whose record is older than [timeout], in table order. *)
Definition expired_keys {V} (timestamp : V -> Time) (timeout : Z)
    (now : Time) (table : dict V) : list string :=
  keys (List.filter
          (fun kv => bool_decide (now - timestamp (snd kv) > timeout)) table).

Definition expire_request (request_id : string) : M unit :=
  do pending <- pop_request request_id;
  log WARNING (ContextRequestTimeout (pr_user_id pending)) >>
  send_if_system "generation" (GENERATE_RESPONSE (timeout_payload pending)).

Definition expire_limit (now : Time) (request_id : string) : M unit :=
  do pending <- pop_limit request_id;
  log WARNING (LimitCheckTimeout (pl_user_id pending)) >>
  if AUTH_FALLBACK_TO_DEMO cfg
  then _continue_message_processing pending now
  else ret tt.

Definition _cleanup_expired_requests (now : Time) : M unit :=
  do requests <- read _pending_requests;
  let expired :=
    expired_keys pr_timestamp (STM_CONTEXT_REQUEST_TIMEOUT cfg) now requests in
  for_each expired expire_request >>
  do limits <- read _pending_limits;
  let expired_limits :=
    expired_keys pl_timestamp (AUTH_CHECK_TIMEOUT cfg) now limits in
  for_each expired_limits (expire_limit now).

(** One turn of [_cleanup_pending_requests_loop] after its sleep. *)
Definition cleanup_iteration (now : Time) : M unit :=
  try_except (_cleanup_expired_requests now)
    (fun e => log ERROR (CleanupLoopError e)).

(** *** Runs of the actor *)

Inductive Input :=
| Deliver (message : ActorMessage)
| Sweep.

Definition step (i : Input) (now : Time) : M unit :=
  match i with
  | Deliver message => handle_message message now
  | Sweep => cleanup_iteration now
  end.

(** Inputs are processed one at a time; an exception ends the handling of
    the current input only. *)
Fixpoint run (inputs : list (Input * Time)) (σ : Actor)
  : Actor * list Effect :=
  match inputs with
  | [] => (σ, [])
  | (i, now) :: rest =>
      match step i now σ with
      | (_, σ1, t1) =>
          match run rest σ1 with (σ2, t2) => (σ2, t1 ++ t2) end
      end
  end.

End Coordinator.

(** * Notions used to state the properties *)

(** The messages sent in a trace, with their target, in order. *)
Definition sent (t : list Effect) : list (string * OutMsg) :=
  omap (fun e => match e with Send target m => Some (target, m) | _ => None end) t.

(** The payloads of the generation requests sent in a trace, in order. *)
Definition generation_requests (t : list Effect) : list GeneratePayload :=
  omap (fun e =>
          match e with
          | Send target (GENERATE_RESPONSE p) =>
              if String.eqb target "generation" then Some p else None
          | _ => None
          end) t.

(** The domain events appended in a trace. *)
Definition appended (t : list Effect) : list Event :=
  omap (fun e => match e with AppendEvent ev => Some ev | _ => None end) t.

(** The log lines of a trace. *)
Definition logged (t : list Effect) : list (Level * LogLine) :=
  omap (fun e => match e with Log lvl l => Some (lvl, l) | _ => None end) t.

(** The trace without its log lines. *)
Definition without_logs (t : list Effect) : list Effect :=
  List.filter (fun e => match e with Log _ _ => false | _ => true end) t.

(** The join state of a record, read as the readiness check reads it. *)
Definition awaiting_embedding (p : PendingRequest) : bool :=
  flag (expecting_embedding p) && negb (flag (embedding_received p)).

Definition embedding_timed_out (cfg : Settings) (p : PendingRequest)
    (now : Time) : bool :=
  match ltm_request_timestamp p with
  | Some started => bool_decide (now - started > LTM_EMBEDDING_REQUEST_TIMEOUT cfg)
  | None => false
  end.

Definition ltm_timed_out (cfg : Settings) (p : PendingRequest) (now : Time)
  : bool :=
  match ltm_request_timestamp p with
  | Some started => bool_decide (now - started > LTM_REQUEST_TIMEOUT cfg)
  | None => false
  end.

(** STM received and (LTM received or not expected or timed out). *)
Definition ready (cfg : Settings) (p : PendingRequest) (now : Time) : bool :=
  flag (stm_received p) &&
  (flag (ltm_received p) || negb (flag (expecting_ltm p)) ||
   ltm_timed_out cfg p now).

(** The record [p] stored under [rid] with its table entry replaced. *)
Definition with_request (rid : string) (p : PendingRequest) (σ : Actor)
  : Actor :=
  set_pending_requests (set rid p (_pending_requests σ)) σ.

(** The record as each reply handler leaves it before the readiness
    check. *)
Definition after_context (messages : option (list StmMessage))
    (p : PendingRequest) : PendingRequest :=
  set_stm_received (Some true)
    (set_stm_context (Some (Some (default [] messages))) p).

Definition after_ltm (success : option bool) (results : option (list Memory))
    (p : PendingRequest) : PendingRequest :=
  set_ltm_received (Some true)
    (set_ltm_memories
       (Some (Some (if flag success then default [] results else []))) p).

Definition after_embedding (v : list Q) (p : PendingRequest)
  : PendingRequest :=
  set_embedding_received (Some true) (set_query_vector (Some (Some v)) p).

Definition after_fallback (p : PendingRequest) : PendingRequest :=
  set_query_vector (Some None) (set_embedding_received (Some true) p).

(** The readiness rule in the words of the specification: what the check
    does to the actor and which messages it sends, for the record [p]
    stored under [rid]. *)
Definition check_state (cfg : Settings) (rid : string) (p : PendingRequest)
    (now : Time) (σ : Actor) : Actor :=
  if awaiting_embedding p then
    if embedding_timed_out cfg p now
    then with_request rid (after_fallback p) σ
    else σ
  else if ready cfg p now
  then set_pending_requests (remove rid (_pending_requests σ)) σ
  else σ.

Definition recent_search (cfg : Settings) (rid : string) (p : PendingRequest)
  : string * OutMsg :=
  ("ltm"%string,
   GET_LTM_MEMORY (pr_user_id p) "recent" None (LTM_CONTEXT_LIMIT cfg) rid).

Definition check_sends (cfg : Settings) (rid : string) (p : PendingRequest)
    (now : Time) : list (string * OutMsg) :=
  if awaiting_embedding p then
    if embedding_timed_out cfg p now then [recent_search cfg rid p] else []
  else if ready cfg p now
  then [("generation"%string, GENERATE_RESPONSE (generate_payload p))]
  else [].

(** The trace [t] put in front of the trace of an outcome. *)
Definition emitting {A} (t : list Effect)
    (x : Result A * Actor * list Effect) : Result A * Actor * list Effect :=
  match x with (r, σ, t2) => (r, σ, t ++ t2) end.

(** The record under [rid] is gone and exactly one message went out, the
    generation request carrying [payload]. *)
Definition resolved_with (rid : string) (payload : GeneratePayload)
    (σ' : Actor) (t : list Effect) : Prop :=
  get rid (_pending_requests σ') = None ∧
  sent t = [("generation"%string, GENERATE_RESPONSE payload)].

(** The record under [rid] is still in the table, as [q], and no
    generation request went out. *)
Definition left_pending (rid : string) (q : PendingRequest) (σ' : Actor)
    (t : list Effect) : Prop :=
  get rid (_pending_requests σ') = Some q ∧ generation_requests t = [].

(** The vector search issued once the embedding is known. *)
Definition vector_search (cfg : Settings) (rid : string)
    (p : PendingRequest) (v : list Q) : string * OutMsg :=
  ("ltm"%string,
   GET_LTM_MEMORY (pr_user_id p) "vector" (Some v) (LTM_CONTEXT_LIMIT cfg)
     rid).

(** The outcome of a handler that ends with the readiness check, for the
    record [q] it has just updated under [rid]: a record awaiting its
    embedding stays, with the fallback applied once the embedding timeout
    has passed; any other record is resolved exactly when it is ready. *)
Definition join_outcome (cfg : Settings) (rid : string) (q : PendingRequest)
    (now : Time) (x : Result unit * Actor * list Effect) : Prop :=
  ∃ σ' t, x = (Ok tt, σ', t) ∧
    if awaiting_embedding q then
      left_pending rid
        (if embedding_timed_out cfg q now then after_fallback q else q)
        σ' t ∧
      sent t =
        (if embedding_timed_out cfg q now then [recent_search cfg rid q]
         else [])
    else
      (ready cfg q now = true ↔
         resolved_with rid (generate_payload q) σ' t) ∧
      (ready cfg q now = false ↔ left_pending rid q σ' t ∧ sent t = []).

(** [m] is a partial reply carrying the correlation id [rid]. *)
Definition reply_for (rid : string) (m : ActorMessage) : Prop :=
  match m with
  | CONTEXT_RESPONSE r => cp_request_id r = Some rid
  | LTM_RESPONSE r => ltm_request_id r = Some rid
  | EMBEDDING_RESPONSE r => ep_request_id r = Some rid
  | _ => False
  end.

(** A consequence of reading the readiness rule as holding after every
    partial reply: once a reply for a pending record has been processed, a
    record that is still in the table and awaits no embedding is not
    ready. *)
Definition ready_records_are_resolved_by_any_reply : Prop :=
  ∀ env cfg σ rid p m now r σ' t q,
    get rid (_pending_requests σ) = Some p →
    rid ≠ EmptyString →
    actor_system σ = true →
    reply_for rid m →
    handle_message env cfg m now σ = (r, σ', t) →
    get rid (_pending_requests σ') = Some q →
    awaiting_embedding q = false →
    ready cfg q now = false.

(** A reading of C8 that takes every denying verdict with a matching
    correlation id, flagged or not: the pending limit check is consumed. *)
Definition every_denying_verdict_consumes_the_check : Prop :=
  ∀ env cfg σ rid pending verdict now r σ' t,
    get rid (_pending_limits σ) = Some pending →
    rid ≠ EmptyString →
    actor_system σ = true →
    lp_request_id verdict = Some rid →
    flag (unlimited verdict) = false →
    default 0 (messages_today verdict) >=
      default (DAILY_MESSAGE_LIMIT cfg) (lp_limit verdict) →
    handle_message env cfg (LIMIT_RESPONSE verdict) now σ = (r, σ', t) →
    get rid (_pending_limits σ') = None ∧
    ∃ uid today limit, LimitExceededEvent uid today limit ∈ appended t.

(** ** Invariants of the actor *)

(** [k] was produced by one of the draws [from .. upto-1]. *)
Definition drawn_between (env : Collaborators) (from upto : nat)
    (k : string) : Prop :=
  ∃ n, (from ≤ n < upto)%nat ∧ k = uuid4 env n.

(** Every session respects the cap on its mode history. *)
Definition history_bounded (cfg : Settings) (σ : Actor) : Prop :=
  Forall (fun s => (length (mode_history s) ≤ MODE_HISTORY_SIZE cfg)%nat)
    (heap σ).

(** The tables are dictionaries (no key twice) and every key was drawn. *)
Record well_formed (env : Collaborators) (σ : Actor) : Prop := {
  wf_requests_nodup : NoDup (keys (_pending_requests σ));
  wf_limits_nodup : NoDup (keys (_pending_limits σ));
  wf_requests_drawn :
    ∀ k, k ∈ keys (_pending_requests σ) →
         drawn_between env 0 (uuid_drawn σ) k;
  wf_limits_drawn :
    ∀ k, k ∈ keys (_pending_limits σ) →
         drawn_between env 0 (uuid_drawn σ) k
}.

(** How the actor [σ] relates to an earlier actor [σ0]: identifiers are
    only drawn, a key of a table is an old key or a newly drawn one, the
    tables stay dictionaries and the cap on the mode histories is kept. *)
Record evolves (env : Collaborators) (cfg : Settings) (σ0 σ : Actor)
  : Prop := {
  ev_drawn : (uuid_drawn σ0 ≤ uuid_drawn σ)%nat;
  ev_requests :
    ∀ k, k ∈ keys (_pending_requests σ) →
         k ∈ keys (_pending_requests σ0) ∨
         drawn_between env (uuid_drawn σ0) (uuid_drawn σ) k;
  ev_limits :
    ∀ k, k ∈ keys (_pending_limits σ) →
         k ∈ keys (_pending_limits σ0) ∨
         drawn_between env (uuid_drawn σ0) (uuid_drawn σ) k;
  ev_requests_nodup :
    NoDup (keys (_pending_requests σ0)) → NoDup (keys (_pending_requests σ));
  ev_limits_nodup :
    NoDup (keys (_pending_limits σ0)) → NoDup (keys (_pending_limits σ));
  ev_bounded : history_bounded cfg σ0 → history_bounded cfg σ;
  ev_system : actor_system σ = actor_system σ0
}.

(** A specification of a computation: from a state satisfying [P], every
    emitted effect satisfies [φ], a returned value and final state satisfy
    [Q], and the state left by a raise satisfies [E]. *)
Definition hoare {A} (φ : Effect → Prop) (P : Actor → Prop) (m : M A)
    (Q : A → Actor → Prop) (E : Actor → Prop) : Prop :=
  ∀ σ r σ' t, P σ → m σ = (r, σ', t) →
    Forall φ t ∧
    match r with
    | Ok a => Q a σ'
    | Raised _ => E σ'
    end.

(** [m] keeps the invariant [I], also when it raises. *)
Definition keeps {A} (φ : Effect → Prop) (I : Actor → Prop) (m : M A)
  : Prop :=
  hoare φ I m (fun _ => I) I.

(** An effect other than a message to the generation service. *)
Definition not_generation (e : Effect) : Prop :=
  match e with
  | Send target _ => target ≠ "generation"%string
  | _ => True
  end.

(** An effect other than a message. *)
Definition not_a_message (e : Effect) : Prop :=
  match e with
  | Send _ _ => False
  | _ => True
  end.

(** An assignment to a session that keeps the cap on its mode history. *)
Definition history_preserving (cfg : Settings)
    (f : UserSession → UserSession) : Prop :=
  ∀ s, (length (mode_history s) ≤ MODE_HISTORY_SIZE cfg)%nat →
       (length (mode_history (f s)) ≤ MODE_HISTORY_SIZE cfg)%nat.

(** An invariant [I] closed under every write the coordinator performs,
    with a predicate [φ] that admits every effect other than a message and
    every message an attached actor sends to a service other than
    generation. *)
Record stable (env : Collaborators) (cfg : Settings) (φ : Effect → Prop)
    (I : Actor → Prop) : Prop := {
  st_quiet : ∀ e, not_a_message e → φ e;
  st_send :
    ∀ σ target m, I σ → actor_system σ = true →
                  target ≠ "generation"%string → φ (Send target m);
  st_update_request :
    ∀ σ rid p q, I σ → get rid (_pending_requests σ) = Some p →
                 I (with_request rid q σ);
  st_remove_request :
    ∀ σ rid, I σ →
             I (set_pending_requests (remove rid (_pending_requests σ)) σ);
  st_remove_limit :
    ∀ σ rid, I σ → I (set_pending_limits (remove rid (_pending_limits σ)) σ);
  st_insert_request :
    ∀ σ v, I σ →
           I (set_pending_requests
                (set (uuid4 env (uuid_drawn σ)) v (_pending_requests σ))
                (set_uuid_drawn (S (uuid_drawn σ)) σ));
  st_insert_limit :
    ∀ σ v, I σ →
           I (set_pending_limits
                (set (uuid4 env (uuid_drawn σ)) v (_pending_limits σ))
                (set_uuid_drawn (S (uuid_drawn σ)) σ));
  st_update_session :
    ∀ σ l s f, I σ → heap σ !! l = Some s → history_preserving cfg f →
               I (set_heap (<[l := f s]> (heap σ)) σ);
  st_new_session :
    ∀ σ uid uname now, I σ →
      I (set_sessions (<[uid := length (heap σ)]> (_sessions σ))
           (heap σ ++ [new_session uid uname now]) σ);
  st_details : ∀ σ d, I σ → I (set_details d σ)
}.

(** [φ] also admits the generation requests of an attached actor. *)
Definition admits_generation (φ : Effect → Prop) (I : Actor → Prop) : Prop :=
  ∀ σ m, I σ → actor_system σ = true → φ (Send "generation" m).

(** ** The continuation of a turn, in closed form *)

(** The session stored at [l] replaced by [s]. *)
Definition with_session (l : loc) (s : UserSession) (σ : Actor) : Actor :=
  set_heap (<[l := s]> (heap σ)) σ.

(** The session once the continuation has updated it: mode and time of
    change when the detected mode differs, confidence, mode history,
    message count, activity. *)
Definition continued_session (env : Collaborators) (cfg : Settings)
    (text : string) (now : Time) (s : UserSession) : UserSession :=
  match _determine_generation_mode env text s with
  | (new_mode, confidence, _) =>
      let s1 :=
        if bool_decide (new_mode ≠ current_mode s)
        then set_current_mode new_mode (set_last_mode_change (Some now) s)
        else s in
      let s2 := set_mode_confidence confidence s1 in
      let s3 :=
        set_mode_history (push_mode cfg new_mode (mode_history s2)) s2 in
      set_last_activity now (set_message_count (message_count s3 + 1) s3)
  end.

(** The join flags written on the new record by the LTM decision. *)
Definition ltm_legs (env : Collaborators) (cfg : Settings) (text : string)
    (now : Time) (s : UserSession) (p : PendingRequest) : PendingRequest :=
  if LTM_REQUEST_ENABLED cfg then
    match _should_request_ltm env text s with
    | (true, search_type) =>
        let p :=
          set_ltm_request_timestamp (Some now)
            (set_ltm_memories (Some None)
               (set_stm_context (Some None)
                  (set_ltm_received (Some false)
                     (set_stm_received (Some false)
                        (set_ltm_search_type (Some search_type)
                           (set_expecting_ltm (Some true) p)))))) in
        if String.eqb search_type "vector"
        then set_embedding_received (Some false)
               (set_expecting_embedding (Some true) p)
        else p
    | (false, _) =>
        set_ltm_memories (Some None)
          (set_stm_context (Some None)
             (set_ltm_received (Some false)
                (set_stm_received (Some false)
                   (set_expecting_ltm (Some false) p))))
    end
  else p.

(** The record the continuation leaves in [_pending_requests]. *)
Definition continued_request (env : Collaborators) (cfg : Settings)
    (pending : PendingLimit) (now : Time) (s : UserSession)
  : PendingRequest :=
  ltm_legs env cfg (pl_text pending) now s
    (new_request (pl_user_id pending) (pl_chat_id pending) (pl_text pending)
       (_should_include_prompt env s) s now).

(** The requests the continuation sends, in order. *)
Definition fan_out (env : Collaborators) (cfg : Settings)
    (pending : PendingLimit) (rid : string) (s : UserSession)
  : list (string * OutMsg) :=
  [("perception"%string,
    ANALYZE_EMOTION (pl_user_id pending) (pl_text pending));
   ("memory"%string,
    GET_CONTEXT (pl_user_id pending) rid
      (STM_CONTEXT_SIZE_FOR_GENERATION cfg) "structured")] ++
  (if LTM_REQUEST_ENABLED cfg then
     match _should_request_ltm env (pl_text pending) s with
     | (true, search_type) =>
         if String.eqb search_type "vector"
         then [("ltm"%string,
                GENERATE_EMBEDDING (pl_text pending)
                  (match last_emotion_vector s with
                   | Some (e :: v) => e :: v
                   | _ => []
                   end) rid)]
         else [("ltm"%string,
                GET_LTM_MEMORY (pl_user_id pending) search_type None
                  (LTM_CONTEXT_LIMIT cfg) rid)]
     | (false, _) => []
     end
   else []).

(** The actor once the turn of [pending], whose session was [s], has been
    continued. *)
Definition continued_actor (env : Collaborators) (cfg : Settings)
    (pending : PendingLimit) (now : Time) (s : UserSession) (σ : Actor)
  : Actor :=
  let s' := continued_session env cfg (pl_text pending) now s in
  with_request (uuid4 env (uuid_drawn σ))
    (continued_request env cfg pending now s')
    (set_uuid_drawn (S (uuid_drawn σ))
       (with_session (pl_session pending) s'
          (set_details
             (snd (_determine_generation_mode env (pl_text pending) s))
             σ))).

(** The detector answers with a valid mode and a confidence in range. *)
Definition detector_valid (env : Collaborators) : Prop :=
  ∀ text s,
    validate_mode (fst (fst (_determine_generation_mode env text s))) = true ∧
    validate_confidence (snd (fst (_determine_generation_mode env text s)))
      = true.

(** ** The sweep *)

(** The table without the keys [ks]. *)
Definition remove_all {V} (ks : list string) (d : dict V) : dict V :=
  fold_left (fun d k => remove k d) ks d.

(** The identifier source never repeats itself. *)
Definition uuid_injective (env : Collaborators) : Prop :=
  ∀ m n, uuid4 env m = uuid4 env n → m = n.

(** The generation requests of the sweep at [now], in table order: one
    per expired record, built by [timeout_payload]. *)
Definition timeout_requests (cfg : Settings) (now : Time)
    (table : dict PendingRequest) : list GeneratePayload :=
  omap (fun k => timeout_payload <$> get k table)
    (expired_keys pr_timestamp (STM_CONTEXT_REQUEST_TIMEOUT cfg) now table).


(** Identifiers are not the empty string. *)
Definition uuid_nonempty (env : Collaborators) : Prop :=
  ∀ n, uuid4 env n ≠ EmptyString.




(** The limit checks the sweep at [now] finds expired. *)
Definition expired_limits (cfg : Settings) (now : Time) (σ : Actor)
  : list string :=
  expired_keys pl_timestamp (AUTH_CHECK_TIMEOUT cfg) now (_pending_limits σ).

(** ** Resolutions along a run *)

(** The correlation id of a reply is not in the table: it is missing, or
    no record is stored under it. *)
Definition unknown {V} (request_id : option string) (table : dict V)
  : Prop :=
  ∀ rid, request_id = Some rid → get rid table = None.

(** The keys of [before] that are no longer in [after]. *)
Definition resolved_ids {V} (before after : dict V) : list string :=
  List.filter (fun k => negb (mem k after)) (keys before).

(** What one input did: the generation records and the limit checks it
    removed, and how many generation requests it sent. *)
Record Resolution := {
  resolved_requests : list string;
  resolved_limits : list string;
  dispatched : nat
}.

Fixpoint resolutions (env : Collaborators) (cfg : Settings)
    (inputs : list (Input * Time)) (σ : Actor) : list Resolution :=
  match inputs with
  | [] => []
  | (i, now) :: rest =>
      match step env cfg i now σ with
      | (_, σ1, t1) =>
          {| resolved_requests :=
               resolved_ids (_pending_requests σ) (_pending_requests σ1);
             resolved_limits :=
               resolved_ids (_pending_limits σ) (_pending_limits σ1);
             dispatched := length (generation_requests t1) |}
          :: resolutions env cfg rest σ1
      end
  end.

(** C2 read with "logged" for every reply: a reply whose correlation id
    is unknown leaves a warning in the log. *)
Definition every_unknown_reply_is_logged : Prop :=
  ∀ env cfg σ now p r σ' t,
    unknown (lp_request_id p) (_pending_limits σ) →
    handle_message env cfg (LIMIT_RESPONSE p) now σ = (r, σ', t) →
    ∃ line, (WARNING, line) ∈ logged t.

(** [k] is an identifier the source has not produced yet at [drawn]. *)
Definition not_yet_drawn (env : Collaborators) (drawn : nat) (k : string)
  : Prop :=
  ∃ n, (drawn ≤ n)%nat ∧ k = uuid4 env n.

(** * Sample collaborators, records and actors

    Concrete inputs on which the properties below are exercised. *)

(** A detector that always answers [mode] with confidence 1/2, a prompt
    policy that always includes the prompt, an LTM policy that answers
    [ltm]. *)
Definition sample_env (mode : string) (ltm : bool * string)
  : Collaborators := {|
  uuid4 := fun n => "id" +:+ pretty n;
  _determine_generation_mode := fun _ _ => (mode, (1 # 2)%Q, "details"%string);
  _should_include_prompt := fun _ => true;
  _get_prompt_reason := fun _ => "first message";
  _should_request_ltm := fun _ _ => ltm;
  prompt_strategy := "always";
  USER_MESSAGES := fun key => key;
  format_limit_warning := fun template _ _ => template;
  format_days_remaining := fun template _ => template
|}.

Definition sample_turn : UserMessagePayload :=
  {| um_user_id := "42"; um_username := None; um_text := "hi";
     um_chat_id := 7 |}.

Definition sample_limit : PendingLimit :=
  {| pl_user_id := "42"; pl_timestamp := 0; pl_chat_id := 7;
     pl_text := "hi"; pl_username := None; pl_session := 0%nat;
     pl_message := sample_turn |}.

(** A record as the continuation leaves it when a vector search was
    decided at time 0: every leg outstanding. *)
Definition sample_request : PendingRequest :=
  {| pr_user_id := "42"; pr_chat_id := 7; pr_text := "hi";
     pr_include_prompt := true; pr_message_count := 1;
     pr_session_data := {| sd_username := None; sd_created_at := 0 |};
     pr_mode := "talk"; pr_mode_confidence := (1 # 2)%Q;
     pr_timestamp := 0;
     expecting_ltm := Some true; ltm_search_type := Some "vector"%string;
     stm_received := Some false; ltm_received := Some false;
     stm_context := Some None; ltm_memories := Some None;
     ltm_request_timestamp := Some 0;
     expecting_embedding := Some true; embedding_received := Some false;
     query_vector := None |}.

(** The same record once the STM context has arrived. *)
Definition sample_request_with_context : PendingRequest :=
  after_context (Some ["hello"%string]) sample_request.

(** An attached actor with one session, one pending limit check under
    ["id0"] and the pending generation record [p] under ["id1"]. *)
Definition sample_actor (p : PendingRequest) : Actor :=
  {| _sessions := {[ "42"%string := 0%nat ]};
     heap := [new_session "42" None 0];
     _last_detection_details := EmptyString;
     _pending_requests := [("id1"%string, p)];
     _pending_limits := [("id0"%string, sample_limit)];
     actor_system := true;
     uuid_drawn := 2 |}.

Definition sample_verdict (status_check : bool) (rid : string) (today : Z)
  : LimitPayload :=
  {| is_status_check := status_check; is_auth_check := false;
     lp_request_id := Some rid; approaching_limit := false;
     messages_remaining := None; lp_limit := Some 10;
     subscription_expiring := false; days_remaining := None;
     unlimited := Some false; messages_today := Some today |}.

Definition sample_embedding_reply (success : bool) (v : list Q)
  : EmbeddingPayload :=
  {| ep_request_id := Some "id1"%string; ep_success := Some success;
     ep_embedding := Some v; ep_error := None |}.

Definition sample_ltm_reply (success : bool) (results : list Memory)
  : LtmPayload :=
  {| ltm_request_id := Some "id1"%string; ltm_success := Some success;
     ltm_results := Some results; ltm_error := None |}.

Definition sample_context_reply (messages : list StmMessage)
  : ContextPayload :=
  {| cp_request_id := Some "id1"%string; cp_messages := Some messages |}.

(** [settings] with the global LTM switch off. *)
Definition settings_without_ltm : Settings :=
  {| DAILY_MESSAGE_LIMIT := 10;
     MODE_HISTORY_SIZE := 5;
     STM_CONTEXT_SIZE_FOR_GENERATION := 20;
     STM_CONTEXT_REQUEST_TIMEOUT := seconds 30;
     LTM_EMBEDDING_REQUEST_TIMEOUT := seconds 2;
     LTM_REQUEST_TIMEOUT := 500000;
     LTM_CONTEXT_LIMIT := 3;
     LTM_REQUEST_ENABLED := false;
     AUTH_CHECK_TIMEOUT := seconds 2;
     AUTH_FALLBACK_TO_DEMO := true |}.

(** The happy path: a turn, an allowing verdict, the context reply. *)
Definition happy_path : list (Input * Time) :=
  [(Deliver (USER_MESSAGE sample_turn), 0);
   (Deliver (LIMIT_RESPONSE (sample_verdict false "id0" 3)), 1);
   (Deliver (CONTEXT_RESPONSE (sample_context_reply ["hello"%string])), 2)].

(** A record whose long-term memories have arrived while its STM context
    never did. *)
Definition sample_request_with_memories : PendingRequest :=
  after_ltm (Some true) (Some ["a memory"%string])
    (set_embedding_received (Some true) sample_request).

(** * More of the session actor

    The validators of [UserSession] that cut a list to size, and the
    [EMOTION_RESULT] branch of [handle_message].  The branch reads and
    writes the sessions only; its log lines and its event have types of
    their own. *)

(** ** [config/settings.py], continued *)

Definition PYDANTIC_MODE_HISTORY_MAX_SIZE : nat := 10.
Definition PYDANTIC_CACHE_METRICS_MAX_SIZE : nat := 100.

Definition EMOTION_EMOJI_MAP : dict string :=
  [("joy"%string, "😊"%string);
   ("sadness"%string, "😢"%string);
   ("anger"%string, "😠"%string);
   ("fear"%string, "😨"%string);
   ("surprise"%string, "😮"%string);
   ("disgust"%string, "🤮"%string);
   ("love"%string, "😍"%string);
   ("admiration"%string, "🤩"%string);
   ("amusement"%string, "😄"%string);
   ("approval"%string, "👍"%string);
   ("caring"%string, "🤗"%string);
   ("confusion"%string, "😕"%string);
   ("curiosity"%string, "🤔"%string);
   ("desire"%string, "🫦"%string);
   ("disappointment"%string, "😞"%string);
   ("disapproval"%string, "👎"%string);
   ("embarrassment"%string, "😳"%string);
   ("excitement"%string, "🎉"%string);
   ("gratitude"%string, "🙏"%string);
   ("grief"%string, "😔"%string);
   ("nervousness"%string, "😰"%string);
   ("optimism"%string, "✨"%string);
   ("pride"%string, "😤"%string);
   ("realization"%string, "💡"%string);
   ("relief"%string, "😌"%string);
   ("remorse"%string, "😔"%string);
   ("annoyance"%string, "😒"%string);
   ("neutral"%string, "😐"%string)].

(** The default of [EMOTION_EMOJI_MAP.get] in the handler. *)
Definition DEFAULT_EMOJI : string := "🎭"%string.

(** ** The size validators of [UserSession] *)

(** [v[-n:]]: the last [n] items of [v]; the whole of [v] when [n] is 0 or
    exceeds the length. *)
Definition last_items {A} (n : nat) (v : list A) : list A :=
  match n with
  | O => v
  | S _ => drop (length v - n) v
  end.

(** [validate_mode_history_size]. *)
Definition validate_mode_history_size (v : list string) : list string :=
  if bool_decide (PYDANTIC_MODE_HISTORY_MAX_SIZE < length v)%nat
  then last_items PYDANTIC_MODE_HISTORY_MAX_SIZE v
  else v.

(** [validate_cache_metrics_size]. *)
Definition validate_cache_metrics_size (v : list Q) : list Q :=
  if bool_decide (PYDANTIC_CACHE_METRICS_MAX_SIZE < length v)%nat
  then last_items PYDANTIC_CACHE_METRICS_MAX_SIZE v
  else v.

(** ** The [EMOTION_RESULT] branch *)

Definition set_last_emotion_vector (v : option Emotions) (s : UserSession)
  : UserSession :=
  {| user_id := user_id s; username := username s;
     message_count := message_count s; created_at := created_at s;
     last_activity := last_activity s; cache_metrics := cache_metrics s;
     current_mode := current_mode s; mode_confidence := mode_confidence s;
     mode_history := mode_history s; last_mode_change := last_mode_change s;
     last_emotion_vector := v;
     last_dominant_emotions := last_dominant_emotions s;
     last_user_text := last_user_text s;
     last_bot_response := last_bot_response s;
     last_bot_mode := last_bot_mode s;
     last_bot_confidence := last_bot_confidence s |}.

Definition set_last_dominant_emotions (v : list string) (s : UserSession)
  : UserSession :=
  {| user_id := user_id s; username := username s;
     message_count := message_count s; created_at := created_at s;
     last_activity := last_activity s; cache_metrics := cache_metrics s;
     current_mode := current_mode s; mode_confidence := mode_confidence s;
     mode_history := mode_history s; last_mode_change := last_mode_change s;
     last_emotion_vector := last_emotion_vector s;
     last_dominant_emotions := v;
     last_user_text := last_user_text s;
     last_bot_response := last_bot_response s;
     last_bot_mode := last_bot_mode s;
     last_bot_confidence := last_bot_confidence s |}.

(** The payload of [EMOTION_RESULT]; every key is read with [.get] and may
    be absent.  A key that is present holds a value of its type: a string,
    a list of labels, a dict from labels to scores (kept in its order). *)
Record EmotionPayload := {
  er_user_id : option string;
  er_dominant_emotions : option (list string);
  er_emotions : option Emotions;
  er_text : option string
}.

(** The log lines of the branch, with the values they print. *)
Inductive EmotionLine :=
| EmotionResultWithoutUser
| EmotionSummary (emoji : string) (top_emotions : Emotions)
    (dominant_emotions : list string)
| NoEmotionsDetected (uid : string)
| SavedEmotionDetectedEvent (uid : string)
| NoSessionFound (uid : string).

(** What the branch emits: a log line, or [EmotionDetectedEvent.create]
    with its four arguments handed to the version manager. *)
Inductive EmotionEffect :=
| EmotionLog (lvl : Level) (line : EmotionLine)
| EmotionDetectedEvent (uid : string) (dominant_emotions : list string)
    (emotion_scores : Emotions) (text_preview : string).

(** [sorted(items, key=lambda x: x[1], reverse=True)]: a stable sort by
    descending score, items of equal score keeping their order. *)
Fixpoint insert_by_score (x : string * Q) (l : Emotions) : Emotions :=
  match l with
  | [] => [x]
  | y :: l' =>
      if Qle_bool (snd y) (snd x) then x :: y :: l'
      else y :: insert_by_score x l'
  end.

Definition sorted_by_score (items : Emotions) : Emotions :=
  foldr insert_by_score [] items.

(** The summary line of the branch. *)
Definition emotion_summary (uid : string) (dominant_emotions : list string)
    (emotion_scores : Emotions) : EmotionEffect :=
  match emotion_scores with
  | _ :: _ =>
      let top_emotions := take 3 (sorted_by_score emotion_scores) in
      let emoji :=
        match dominant_emotions with
        | first :: _ => default DEFAULT_EMOJI (get first EMOTION_EMOJI_MAP)
        | [] => DEFAULT_EMOJI
        end in
      EmotionLog INFO (EmotionSummary emoji top_emotions dominant_emotions)
  | [] => EmotionLog INFO (NoEmotionsDetected uid)
  end.

(** The branch itself.  [EmotionDetectedEvent.create] and the version
    manager are taken not to raise, so the [except] clauses are not
    entered.  The session of a registered user is read through the heap;
    as in [get_session], a location outside the heap is an attribute
    error. *)
Definition handle_emotion_result (p : EmotionPayload) (σ : Actor)
  : Result unit * Actor * list EmotionEffect :=
  match truthy_id (er_user_id p) with
  | None => (Ok tt, σ, [EmotionLog WARNING EmotionResultWithoutUser])
  | Some uid =>
      let dominant_emotions := default [] (er_dominant_emotions p) in
      let emotion_scores := default [] (er_emotions p) in
      let summary := emotion_summary uid dominant_emotions emotion_scores in
      match _sessions σ !! uid with
      | Some l =>
          match heap σ !! l with
          | Some s =>
              let s1 := set_last_emotion_vector (Some emotion_scores) s in
              let s2 := set_last_dominant_emotions dominant_emotions s1 in
              (Ok tt, set_heap (<[l := s2]> (heap σ)) σ,
               [summary;
                EmotionDetectedEvent uid (last_dominant_emotions s2)
                  (default [] (last_emotion_vector s2))
                  (default EmptyString (er_text p));
                EmotionLog INFO (SavedEmotionDetectedEvent uid)])
          | None => (Raised AttributeError, σ, [summary])
          end
      | None =>
          (Ok tt, σ, [summary; EmotionLog WARNING (NoSessionFound uid)])
      end
  end.

(** * Notions for the rest of the coordinator *)

(** Every registered user refers to a session of the heap. *)
Definition registry_valid (σ : Actor) : Prop :=
  ∀ uid l, _sessions σ !! uid = Some l → is_Some (heap σ !! l).

(** The location of the session of [uid] and the actor once
    [_get_or_create_session] has run: an unknown user gets a new session
    at the end of the heap. *)
Definition registered (uid : string) (uname : option string) (now : Time)
    (σ : Actor) : loc * Actor :=
  match _sessions σ !! uid with
  | Some l => (l, σ)
  | None =>
      (length (heap σ),
       set_sessions (<[uid := length (heap σ)]> (_sessions σ))
         (heap σ ++ [new_session uid uname now]) σ)
  end.

(** The pending limit check stored for a turn. *)
Definition limit_of_turn (p : UserMessagePayload) (session : loc)
    (now : Time) : PendingLimit :=
  {| pl_user_id := um_user_id p; pl_timestamp := now;
     pl_chat_id := um_chat_id p; pl_text := um_text p;
     pl_username := um_username p; pl_session := session;
     pl_message := p |}.

(** The limit check [p] stored under [rid]. *)
Definition with_limit (rid : string) (p : PendingLimit) (σ : Actor) : Actor :=
  set_pending_limits (set rid p (_pending_limits σ)) σ.

(** The actor once the turn [p] has been taken in at [now], where [s] is
    the session of its user after registration: the text of the turn is on
    the session, one id has been drawn, the limit check is stored under
    it. *)
Definition ingested (env : Collaborators) (p : UserMessagePayload)
    (now : Time) (s : UserSession) (σ : Actor) : Actor :=
  let r := registered (um_user_id p) (um_username p) now σ in
  with_limit (uuid4 env (uuid_drawn σ)) (limit_of_turn p (fst r) now)
    (set_uuid_drawn (S (uuid_drawn σ))
       (with_session (fst r) (set_last_user_text (Some (um_text p)) s)
          (snd r))).

(** The key a verdict fails on: a warning flag is set and a figure the
    warning quotes is not in the reply.  The keys are read in the order of
    the handler. *)
Definition missing_figure (p : LimitPayload) : option string :=
  if approaching_limit p && negb (bool_decide (is_Some (messages_remaining p)))
  then Some "messages_remaining"%string
  else if approaching_limit p && negb (bool_decide (is_Some (lp_limit p)))
  then Some "limit"%string
  else if subscription_expiring p
          && negb (bool_decide (is_Some (days_remaining p)))
  then Some "days_remaining"%string
  else None.

(** The verdict is within the limit: an unlimited user, or a usage below
    the limit. *)
Definition within_limit (cfg : Settings) (p : LimitPayload) : Prop :=
  flag (unlimited p) = true ∨
  default 0 (messages_today p) < default (DAILY_MESSAGE_LIMIT cfg) (lp_limit p).

(** The table of limit checks without [rid]. *)
Definition without_limit (rid : string) (σ : Actor) : Actor :=
  set_pending_limits (remove rid (_pending_limits σ)) σ.

(** The warnings a verdict makes the handler send to the front end before
    it looks at the limit: the approaching-limit warning, then the warning
    on the subscription, whose text depends on the days left. *)
Definition verdict_warnings (env : Collaborators) (p : LimitPayload)
    (pending : PendingLimit) : list (string * OutMsg) :=
  match approaching_limit p, messages_remaining p, lp_limit p with
  | true, Some remaining, Some limit =>
      [("telegram"%string,
        BOT_RESPONSE (pl_user_id pending) (pl_chat_id pending)
          (format_limit_warning env (USER_MESSAGES env "limit_warning")
             remaining limit))]
  | _, _, _ => []
  end ++
  match subscription_expiring p, days_remaining p with
  | true, Some days =>
      let message_key :=
        if days =? 0 then "subscription_expiring_today"%string
        else "subscription_expiring"%string in
      [("telegram"%string,
        BOT_RESPONSE (pl_user_id pending) (pl_chat_id pending)
          (if bool_decide (days > 0)
           then format_days_remaining env (USER_MESSAGES env message_key) days
           else USER_MESSAGES env message_key))]
  | _, _ => []
  end.

(** The messages [ms] as effects. *)
Definition sends (ms : list (string * OutMsg)) : list Effect :=
  map (fun tm => Send (fst tm) (snd tm)) ms.

(** The domain events of the continuation of a turn whose session was [s]:
    the mode-detected event when the detected mode differs from the mode of
    the session, the prompt-inclusion event when the prompt is included. *)
Definition continued_events (env : Collaborators) (cfg : Settings)
    (pending : PendingLimit) (now : Time) (s : UserSession) : list Event :=
  let s' := continued_session env cfg (pl_text pending) now s in
  match _determine_generation_mode env (pl_text pending) s with
  | (new_mode, confidence, details) =>
      (if bool_decide (new_mode ≠ current_mode s)
       then [ModeDetectedEvent (pl_user_id pending) new_mode confidence
               (previous_of (mode_history s')) details now]
       else []) ++
      (if _should_include_prompt env s'
       then [PromptInclusionEvent (pl_user_id pending) (message_count s')
               (prompt_strategy env) (_get_prompt_reason env s')]
       else [])
  end.

(** ** The effect of a reply on the other records *)

(** The table of generation records without [rid]. *)
Definition without_request (rid : string) (σ : Actor) : Actor :=
  set_pending_requests (remove rid (_pending_requests σ)) σ.

(** [σ'] differs from [σ] at most in the generation record under [rid]. *)
Definition untouched_but (rid : string) (σ σ' : Actor) : Prop :=
  (∀ k, k ≠ rid →
        get k (_pending_requests σ') = get k (_pending_requests σ)) ∧
  _pending_limits σ' = _pending_limits σ ∧
  heap σ' = heap σ ∧
  _sessions σ' = _sessions σ ∧
  uuid_drawn σ' = uuid_drawn σ ∧
  _last_detection_details σ' = _last_detection_details σ ∧
  actor_system σ' = actor_system σ.

(** [q] is the record [p] further along the join: the turn, its snapshot
    of the session, the time of creation and what the record waits for are
    the same, and a leg that was received is still received. *)
Definition advances (p q : PendingRequest) : Prop :=
  pr_user_id q = pr_user_id p ∧
  pr_chat_id q = pr_chat_id p ∧
  pr_text q = pr_text p ∧
  pr_include_prompt q = pr_include_prompt p ∧
  pr_message_count q = pr_message_count p ∧
  pr_session_data q = pr_session_data p ∧
  pr_mode q = pr_mode p ∧
  pr_mode_confidence q = pr_mode_confidence p ∧
  pr_timestamp q = pr_timestamp p ∧
  expecting_ltm q = expecting_ltm p ∧
  ltm_search_type q = ltm_search_type p ∧
  ltm_request_timestamp q = ltm_request_timestamp p ∧
  expecting_embedding q = expecting_embedding p ∧
  (flag (stm_received p) = true → flag (stm_received q) = true) ∧
  (flag (ltm_received p) = true → flag (ltm_received q) = true) ∧
  (flag (embedding_received p) = true → flag (embedding_received q) = true).

(** The message is a memory search for the record [p] under [rid]. *)
Definition search_for (cfg : Settings) (rid : string) (p : PendingRequest)
    (tm : string * OutMsg) : Prop :=
  ∃ search_type vector,
    tm = ("ltm"%string,
          GET_LTM_MEMORY (pr_user_id p) search_type vector
            (LTM_CONTEXT_LIMIT cfg) rid).

(** What a reply for the pending record [p] under [rid] leaves behind:
    the record further along, still in the table after at most a memory
    search, or the record gone and one generation request built from
    it. *)
Definition reply_outcome (cfg : Settings) (rid : string) (p : PendingRequest)
    (σ σ' : Actor) (t : list Effect) : Prop :=
  ∃ q,
    advances p q ∧
    appended t = [] ∧
    ((σ' = with_request rid q σ ∧
      ∀ tm, tm ∈ sent t → search_for cfg rid p tm) ∨
     (σ' = without_request rid σ ∧
      sent t = [("generation"%string, GENERATE_RESPONSE (generate_payload q))])).

(** The payload of a message when it is a generation request. *)
Definition generation_of (tm : string * OutMsg) : option GeneratePayload :=
  match tm with
  | (target, GENERATE_RESPONSE p) =>
      if String.eqb target "generation" then Some p else None
  | _ => None
  end.

(** The LTM policy is off for the text: the switch is off, or the policy
    declines whatever the session. *)
Definition ltm_declined (env : Collaborators) (cfg : Settings)
    (text : string) : Prop :=
  LTM_REQUEST_ENABLED cfg = false ∨
  ∀ s, fst (_should_request_ltm env text s) = false.

(** ** The emotion result *)

(** [s'] is [s] but for the two emotion fields. *)
Definition same_but_emotions (s s' : UserSession) : Prop :=
  user_id s' = user_id s ∧ username s' = username s ∧
  message_count s' = message_count s ∧ created_at s' = created_at s ∧
  last_activity s' = last_activity s ∧ cache_metrics s' = cache_metrics s ∧
  current_mode s' = current_mode s ∧ mode_confidence s' = mode_confidence s ∧
  mode_history s' = mode_history s ∧
  last_mode_change s' = last_mode_change s ∧
  last_user_text s' = last_user_text s ∧
  last_bot_response s' = last_bot_response s ∧
  last_bot_mode s' = last_bot_mode s ∧
  last_bot_confidence s' = last_bot_confidence s.

(** The events among the effects of the [EMOTION_RESULT] branch. *)
Definition emotion_events (t : list EmotionEffect) : list EmotionEffect :=
  List.filter
    (fun e => match e with EmotionDetectedEvent _ _ _ _ => true | _ => false end)
    t.

(** The scores of a list of emotions never increase. *)
Fixpoint descending (l : Emotions) : Prop :=
  match l with
  | [] => True
  | x :: l' => Forall (fun y => (snd y <= snd x)%Q) l' ∧ descending l'
  end.

(** The registry is valid and the heap has at least [n] sessions. *)
Definition registry_grown (n : nat) (σ : Actor) : Prop :=
  registry_valid σ ∧ (n ≤ length (heap σ))%nat.

(** ** The sweep of the limit checks, in closed form *)

(** The demo continuation of the limit checks [ks], in order, with the
    messages and the events of the continuations: each check is removed
    and its turn continued, that is, the mode is detected and the session
    updated ([continued_session]), the generation record is stored under
    the id drawn ([continued_request]) and the requests are fanned out
    ([fan_out]). *)
Fixpoint demo_continued (env : Collaborators) (cfg : Settings) (now : Time)
    (ks : list string) (σ : Actor)
  : Actor * list (string * OutMsg) * list Event :=
  match ks with
  | [] => (σ, [], [])
  | k :: ks' =>
      match get k (_pending_limits σ) with
      | Some p =>
          match heap σ !! pl_session p with
          | Some s =>
              let s' := continued_session env cfg (pl_text p) now s in
              let '(σ', ms, evs) :=
                demo_continued env cfg now ks'
                  (continued_actor env cfg p now s (without_limit k σ)) in
              (σ',
               fan_out env cfg p (uuid4 env (uuid_drawn σ)) s' ++ ms,
               continued_events env cfg p now s ++ evs)
          | None => (σ, [], [])
          end
      | None => (σ, [], [])
      end
  end.


(** * Facts about the tables *)

Module DictFacts.

Section Facts.

Context {V : Type}.
Implicit Types (d : dict V) (k : string) (v : V).

Lemma get_set_eq k v d : get k (set k v d) = Some v.
Proof.
  induction d as [|[k' v'] d IH]; simpl.
  - by rewrite String.eqb_refl.
  - destruct (String.eqb k k') eqn:E; simpl; rewrite E; done.
Qed.

Lemma get_set_ne k k' v d : k ≠ k' → get k' (set k v d) = get k' d.
Proof.
  intros Hne. induction d as [|[k0 v0] d IH]; simpl.
  - destruct (String.eqb_spec k' k); congruence.
  - destruct (String.eqb_spec k k0) as [->|]; simpl.
    + destruct (String.eqb_spec k' k0); congruence.
    + by rewrite IH.
Qed.

Lemma set_set k v1 v2 d : set k v2 (set k v1 d) = set k v2 d.
Proof.
  induction d as [|[k' v'] d IH]; simpl.
  - by rewrite String.eqb_refl.
  - destruct (String.eqb k k') eqn:E; simpl; rewrite E; congruence.
Qed.

Lemma get_Some_keys k v d : get k d = Some v → k ∈ keys d.
Proof.
  induction d as [|[k' v'] d IH]; simpl; [done|].
  destruct (String.eqb_spec k k') as [->|]; intros H.
  - left.
  - right. by apply IH.
Qed.

Lemma get_None_keys k d : get k d = None ↔ k ∉ keys d.
Proof.
  induction d as [|[k' v'] d IH]; simpl.
  - split; [intros _; apply not_elem_of_nil | done].
  - rewrite not_elem_of_cons.
    destruct (String.eqb_spec k k') as [->|]; split; try done.
    + intros [? _]; done.
    + intros H. split; [done | by apply IH].
    + intros [_ H]. by apply IH.
Qed.

Lemma keys_get k d : k ∈ keys d → is_Some (get k d).
Proof.
  intros Hin. destruct (get k d) eqn:E; [eauto|].
  by apply get_None_keys in E.
Qed.

Lemma mem_true k d : mem k d = true ↔ k ∈ keys d.
Proof.
  unfold mem. split.
  - destruct (get k d) eqn:E; [|done]. intros _. by eapply get_Some_keys.
  - intros [v ->]%keys_get. done.
Qed.

Lemma mem_get k v d : get k d = Some v → mem k d = true.
Proof. unfold mem. by intros ->. Qed.

Lemma keys_set_present k v d :
  k ∈ keys d → keys (set k v d) = keys d.
Proof.
  induction d as [|[k' v'] d IH]; simpl.
  - by intros ?%elem_of_nil.
  - destruct (String.eqb_spec k k') as [->|]; simpl; [done|].
    intros [?|Hin]%elem_of_cons; [done|]. f_equal. by apply IH.
Qed.

Lemma keys_set_absent k v d :
  k ∉ keys d → keys (set k v d) = keys d ++ [k].
Proof.
  induction d as [|[k' v'] d IH]; simpl; [done|].
  intros [Hne Hnin]%not_elem_of_cons.
  destruct (String.eqb_spec k k'); [done|]. simpl. f_equal. by apply IH.
Qed.

Lemma elem_of_keys_set k k' v d :
  k' ∈ keys (set k v d) ↔ k' = k ∨ k' ∈ keys d.
Proof.
  destruct (decide (k ∈ keys d)) as [Hin|Hnin].
  - rewrite keys_set_present by done. split; [by right|].
    intros [->|]; done.
  - rewrite keys_set_absent by done. rewrite elem_of_app, list_elem_of_singleton.
    tauto.
Qed.

Lemma NoDup_keys_set k v d : NoDup (keys d) → NoDup (keys (set k v d)).
Proof.
  intros Hnd. destruct (decide (k ∈ keys d)) as [Hin|Hnin].
  - by rewrite keys_set_present.
  - rewrite keys_set_absent by done. apply NoDup_app. split; [done|].
    split; [|apply NoDup_singleton].
    intros x Hx ->%list_elem_of_singleton. done.
Qed.

Lemma get_remove_eq k d : get k (remove k d) = None.
Proof.
  induction d as [|[k' v'] d IH]; simpl; [done|].
  destruct (String.eqb k k') eqn:E; simpl; [done|]. by rewrite E.
Qed.

Lemma get_remove_ne k k' d : k ≠ k' → get k' (remove k d) = get k' d.
Proof.
  intros Hne. induction d as [|[k0 v0] d IH]; simpl; [done|].
  destruct (String.eqb_spec k k0) as [->|]; simpl.
  - destruct (String.eqb_spec k' k0); congruence.
  - by rewrite IH.
Qed.

Lemma elem_of_keys_remove k k' d :
  k' ∈ keys (remove k d) ↔ k' ≠ k ∧ k' ∈ keys d.
Proof.
  split.
  - intros [v Hv]%keys_get. destruct (decide (k = k')) as [->|Hne].
    + by rewrite get_remove_eq in Hv.
    + rewrite get_remove_ne in Hv by done. split; [done|].
      by eapply get_Some_keys.
  - intros [Hne [v Hv]%keys_get].
    rewrite <- (get_remove_ne k) in Hv by done. by eapply get_Some_keys.
Qed.

Lemma keys_remove k d :
  keys (remove k d) =
    List.filter (fun k' => negb (String.eqb k k')) (keys d).
Proof.
  induction d as [|[k' v'] d IH]; simpl; [done|].
  destruct (String.eqb k k'); simpl; by rewrite IH.
Qed.

Lemma NoDup_keys_remove k d : NoDup (keys d) → NoDup (keys (remove k d)).
Proof.
  induction d as [|[k' v'] d IH]; simpl; [done|].
  intros [Hnin Hnd]%NoDup_cons.
  destruct (String.eqb k k'); simpl; [by apply IH|].
  apply NoDup_cons. split; [|by apply IH].
  intros Hin. apply elem_of_keys_remove in Hin as [_ Hin]. by apply Hnin.
Qed.

End Facts.

End DictFacts.

Import DictFacts.

(** * Evaluation of the primitives *)

Section MonadLaws.

Context {A B : Type}.

Lemma emitting_triple (t : list Effect) (r : Result A) σ t2 :
  emitting t (r, σ, t2) = (r, σ, t ++ t2).
Proof. done. Qed.

Lemma emitting_nil (x : Result A * Actor * list Effect) : emitting [] x = x.
Proof. by destruct x as [[r σ] t]. Qed.

Lemma emitting_emitting t1 t2 (x : Result A * Actor * list Effect) :
  emitting t1 (emitting t2 x) = emitting (t1 ++ t2) x.
Proof. destruct x as [[r σ] t]. simpl. by rewrite app_assoc. Qed.

Lemma bind_ret (a : A) (k : A → M B) σ : bind (ret a) k σ = k a σ.
Proof. unfold bind, ret. by destruct (k a σ) as [[r σ'] t]. Qed.

Lemma bind_read (f : Actor → A) (k : A → M B) σ :
  bind (read f) k σ = k (f σ) σ.
Proof. unfold bind, read. by destruct (k (f σ) σ) as [[r σ'] t]. Qed.

Lemma bind_raise (e : Exn) (k : A → M B) σ :
  bind (raise e) k σ = (Raised e, σ, []).
Proof. done. Qed.

Lemma bind_emitting (m : M A) (k : A → M B) σ a σ1 t1 :
  m σ = (Ok a, σ1, t1) → bind m k σ = emitting t1 (k a σ1).
Proof. unfold bind. by intros ->. Qed.

Lemma bind_raised (m : M A) (k : A → M B) σ e σ1 t1 :
  m σ = (Raised e, σ1, t1) → bind m k σ = (Raised e, σ1, t1).
Proof. unfold bind. by intros ->. Qed.

End MonadLaws.

Section MonadLaws2.

Context {B : Type}.

Lemma bind_write (f : Actor → Actor) (k : unit → M B) σ :
  bind (write f) k σ = k tt (f σ).
Proof. unfold bind, write. by destruct (k tt (f σ)) as [[r σ'] t]. Qed.

Lemma bind_emit (e : Effect) (k : unit → M B) σ :
  bind (emit e) k σ = emitting [e] (k tt σ).
Proof. done. Qed.

Lemma bind_log lvl l (k : unit → M B) σ :
  bind (log lvl l) k σ = emitting [Log lvl l] (k tt σ).
Proof. done. Qed.

Lemma bind_append_event ev (k : unit → M B) σ :
  bind (append_event ev) k σ = emitting [AppendEvent ev] (k tt σ).
Proof. done. Qed.

Lemma bind_assoc {A C} (m : M A) (k1 : A → M C) (k2 : C → M B) σ :
  bind (bind m k1) k2 σ = bind m (fun a => bind (k1 a) k2) σ.
Proof.
  unfold bind. destruct (m σ) as [[[a|e] σ1] t1]; [|done].
  destruct (k1 a σ1) as [[[c|e] σ2] t2]; [|done].
  destruct (k2 c σ2) as [[r σ3] t3]. by rewrite app_assoc.
Qed.

Lemma bind_deliver target m (k : unit → M B) σ :
  bind (deliver target m) k σ = emitting [Send target m] (k tt σ).
Proof. done. Qed.

Lemma bind_send_message target m (k : unit → M B) σ :
  actor_system σ = true →
  bind (send_message target m) k σ = emitting [Send target m] (k tt σ).
Proof.
  intros Hsys. unfold send_message. rewrite bind_assoc, bind_read, Hsys.
  apply bind_emit.
Qed.

Lemma bind_when_system block (k : unit → M B) σ :
  actor_system σ = true →
  bind (when_system block) k σ = bind block k σ.
Proof.
  intros Hsys. unfold when_system. by rewrite bind_assoc, bind_read, Hsys.
Qed.

Lemma bind_send_if_system target m (k : unit → M B) σ :
  actor_system σ = true →
  bind (send_if_system target m) k σ = emitting [Send target m] (k tt σ).
Proof.
  intros Hsys. unfold send_if_system. by rewrite bind_when_system.
Qed.

Lemma bind_update_request rid f p (k : unit → M B) σ :
  get rid (_pending_requests σ) = Some p →
  bind (update_request rid f) k σ = k tt (with_request rid (f p) σ).
Proof. intros H. unfold update_request. by rewrite bind_write, H. Qed.

Lemma bind_pop_request rid p (k : PendingRequest → M B) σ :
  get rid (_pending_requests σ) = Some p →
  bind (pop_request rid) k σ =
    k p (set_pending_requests (remove rid (_pending_requests σ)) σ).
Proof.
  intros H. unfold pop_request.
  by rewrite bind_assoc, bind_read, H, bind_assoc, bind_write, bind_ret.
Qed.

Lemma bind_pop_limit rid p (k : PendingLimit → M B) σ :
  get rid (_pending_limits σ) = Some p →
  bind (pop_limit rid) k σ =
    k p (set_pending_limits (remove rid (_pending_limits σ)) σ).
Proof.
  intros H. unfold pop_limit.
  by rewrite bind_assoc, bind_read, H, bind_assoc, bind_write, bind_ret.
Qed.

End MonadLaws2.

Section Primitives.

Context (env : Collaborators) (cfg : Settings).

Lemma present_Some {V} (rid : string) (v : V) (d : dict V) :
  rid ≠ EmptyString → get rid d = Some v → present (Some rid) d = Some rid.
Proof.
  intros Hne Hget. unfold present, truthy_id.
  destruct rid; [done|]. by rewrite (mem_get _ _ _ Hget).
Qed.

Lemma present_inv {V} (request_id : option string) (rid : string)
    (d : dict V) :
  present request_id d = Some rid →
  request_id = Some rid ∧ rid ≠ EmptyString ∧ is_Some (get rid d).
Proof.
  unfold present, truthy_id.
  destruct request_id as [[|c s]|]; try done.
  destruct (mem _ d) eqn:E; [|done]. intros [= <-].
  split; [done|]. split; [done|]. by apply keys_get, mem_true.
Qed.

Lemma with_request_get rid p σ :
  get rid (_pending_requests (with_request rid p σ)) = Some p.
Proof. apply get_set_eq. Qed.

Lemma with_request_twice rid p q σ :
  with_request rid q (with_request rid p σ) = with_request rid q σ.
Proof. unfold with_request. simpl. by rewrite set_set. Qed.

Lemma send_if_system_attached target m σ :
  actor_system σ = true →
  send_if_system target m σ = (Ok tt, σ, [Send target m]).
Proof.
  unfold send_if_system, when_system, deliver, bind, read, emit.
  by intros ->.
Qed.

Lemma send_message_attached target m σ :
  actor_system σ = true →
  send_message target m σ = (Ok tt, σ, [Send target m]).
Proof. unfold send_message, deliver, bind, read, emit. by intros ->. Qed.

Lemma log_eval lvl l σ : log lvl l σ = (Ok tt, σ, [Log lvl l]).
Proof. done. Qed.

Lemma append_event_eval ev σ :
  append_event ev σ = (Ok tt, σ, [AppendEvent ev]).
Proof. done. Qed.

Lemma emit_eval e σ : emit e σ = (Ok tt, σ, [e]).
Proof. done. Qed.

Lemma deliver_eval target m σ :
  deliver target m σ = (Ok tt, σ, [Send target m]).
Proof. done. Qed.

Lemma when_system_attached block σ :
  actor_system σ = true → when_system block σ = block σ.
Proof.
  intros Hsys. unfold when_system. by rewrite bind_read, Hsys.
Qed.

Lemma ret_eval {A} (a : A) σ : ret a σ = (Ok a, σ, []).
Proof. done. Qed.

End Primitives.

(** Symbolic evaluation of a computation, one primitive at a time. *)
Ltac mstep :=
  first
    [ rewrite bind_assoc
    | rewrite bind_ret
    | rewrite bind_read
    | rewrite bind_write
    | rewrite bind_log
    | rewrite bind_append_event
    | rewrite bind_emit
    | rewrite bind_deliver
    | rewrite bind_send_if_system by (simpl; assumption)
    | rewrite bind_send_message by (simpl; assumption)
    | rewrite bind_when_system by (simpl; assumption)
    | rewrite when_system_attached by (simpl; assumption)
    | rewrite deliver_eval
    | rewrite send_if_system_attached by (simpl; assumption)
    | rewrite send_message_attached by (simpl; assumption)
    | rewrite log_eval
    | rewrite append_event_eval
    | rewrite emit_eval
    | rewrite ret_eval
    | rewrite emitting_triple
    | rewrite emitting_emitting ];
  cbv beta iota.

Ltac mnorm := repeat mstep.

(** * Rules for specifications of computations *)

Section HoareRules.

Context {A B : Type} (φ : Effect → Prop).
Implicit Types (P I E : Actor → Prop).

Lemma hoare_ret P (a : A) (Q : A → Actor → Prop) E :
  (∀ σ, P σ → Q a σ) → hoare φ P (ret a) Q E.
Proof. intros H σ r σ' t HP [= <- <- <-]. split; [constructor | auto]. Qed.

Lemma hoare_raise P (e : Exn) (Q : A → Actor → Prop) E :
  (∀ σ, P σ → E σ) → hoare φ P (raise e) Q E.
Proof. intros H σ r σ' t HP [= <- <- <-]. split; [constructor | auto]. Qed.

Lemma hoare_read P (f : Actor → A) (Q : A → Actor → Prop) E :
  (∀ σ, P σ → Q (f σ) σ) → hoare φ P (read f) Q E.
Proof. intros H σ r σ' t HP [= <- <- <-]. split; [constructor | auto]. Qed.

Lemma hoare_bind P (m : M A) (k : A → M B) (Q1 : A → Actor → Prop)
    (Q : B → Actor → Prop) E :
  hoare φ P m Q1 E →
  (∀ a, hoare φ (Q1 a) (k a) Q E) →
  hoare φ P (bind m k) Q E.
Proof.
  intros Hm Hk σ r σ' t HP. unfold bind.
  destruct (m σ) as [[[a|e] σ1] t1] eqn:Em.
  - destruct (Hm _ _ _ _ HP Em) as [Ht1 HQ1].
    destruct (k a σ1) as [[r2 σ2] t2] eqn:Ek. intros [= <- <- <-].
    destruct (Hk a _ _ _ _ HQ1 Ek) as [Ht2 HQ]. split; [|done].
    by apply Forall_app.
  - destruct (Hm _ _ _ _ HP Em) as [Ht1 HE]. by intros [= <- <- <-].
Qed.

Lemma hoare_weaken P P' (m : M A) (Q Q' : A → Actor → Prop) E E' :
  hoare φ P' m Q' E' →
  (∀ σ, P σ → P' σ) →
  (∀ a σ, Q' a σ → Q a σ) →
  (∀ σ, E' σ → E σ) →
  hoare φ P m Q E.
Proof.
  intros Hm HP HQ HE σ r σ' t HPσ Em.
  destruct (Hm _ _ _ _ (HP _ HPσ) Em) as [Ht Hr]. split; [done|].
  destruct r; auto.
Qed.

End HoareRules.

Section HoareUnit.

Context (φ : Effect → Prop).
Implicit Types (P I E : Actor → Prop).

Lemma hoare_write P (f : Actor → Actor) (Q : unit → Actor → Prop) E :
  (∀ σ, P σ → Q tt (f σ)) → hoare φ P (write f) Q E.
Proof. intros H σ r σ' t HP [= <- <- <-]. split; [constructor | auto]. Qed.

Lemma hoare_emit P (e : Effect) (Q : unit → Actor → Prop) E :
  φ e → (∀ σ, P σ → Q tt σ) → hoare φ P (emit e) Q E.
Proof.
  intros He H σ r σ' t HP [= <- <- <-]. split; [|auto].
  by apply Forall_singleton.
Qed.

Lemma keeps_ret {A} I (a : A) : keeps φ I (ret a).
Proof. by apply hoare_ret. Qed.

Lemma keeps_raise {A} I e : keeps φ I (raise e : M A).
Proof. by apply hoare_raise. Qed.

Lemma keeps_read {A} I (f : Actor → A) : keeps φ I (read f).
Proof. by apply hoare_read. Qed.

Lemma keeps_bind {A B} I (m : M A) (k : A → M B) :
  keeps φ I m → (∀ a, keeps φ I (k a)) → keeps φ I (bind m k).
Proof. intros Hm Hk. by eapply hoare_bind. Qed.

Lemma keeps_write I (f : Actor → Actor) :
  (∀ σ, I σ → I (f σ)) → keeps φ I (write f).
Proof. intros H. by apply hoare_write. Qed.

Lemma keeps_emit I e : φ e → keeps φ I (emit e).
Proof. intros H. by apply hoare_emit. Qed.

Lemma keeps_log I lvl l : φ (Log lvl l) → keeps φ I (log lvl l).
Proof. apply keeps_emit. Qed.

Lemma keeps_append_event I ev :
  φ (AppendEvent ev) → keeps φ I (append_event ev).
Proof. apply keeps_emit. Qed.

Lemma keeps_index {A} I key (v : option A) : keeps φ I (index key v).
Proof. destruct v; [apply keeps_ret | apply keeps_raise]. Qed.

Lemma keeps_for_each {A} I (l : list A) (body : A → M unit) :
  (∀ x, x ∈ l → keeps φ I (body x)) → keeps φ I (for_each l body).
Proof.
  induction l as [|x l IH]; intros H; simpl; [apply keeps_ret|].
  apply keeps_bind; [apply H; left|]. intros _. apply IH.
  intros y Hy. apply H. by right.
Qed.

Lemma keeps_try_except {A} I (m : M A) (h : Exn → M A) :
  keeps φ I m → (∀ e, keeps φ I (h e)) → keeps φ I (try_except m h).
Proof.
  intros Hm Hh σ r σ' t HI. unfold try_except.
  destruct (m σ) as [[[a|e] σ1] t1] eqn:Em.
  - intros [= <- <- <-]. apply (Hm _ _ _ _ HI Em).
  - destruct (Hm _ _ _ _ HI Em) as [Ht1 HI1].
    destruct (h e σ1) as [[r2 σ2] t2] eqn:Eh. intros [= <- <- <-].
    destruct (Hh e _ _ _ _ HI1 Eh) as [Ht2 HI2]. split; [|done].
    by apply Forall_app.
Qed.

End HoareUnit.

(** * Every operation keeps a stable invariant *)

Section Stable.

Context (env : Collaborators) (cfg : Settings).
Context (φ : Effect → Prop) (I : Actor → Prop).
Context (HS : stable env cfg φ I).

Lemma keeps_quiet_log lvl l : keeps φ I (log lvl l).
Proof. apply keeps_log. by apply (st_quiet _ _ _ _ HS). Qed.

Lemma keeps_quiet_event ev : keeps φ I (append_event ev).
Proof. apply keeps_append_event. by apply (st_quiet _ _ _ _ HS). Qed.

Lemma keeps_send_message target m :
  target ≠ "generation"%string → keeps φ I (send_message target m).
Proof.
  intros Hne σ r σ' t HI. unfold send_message, bind, read, deliver, emit.
  destruct (actor_system σ) eqn:Hsys; intros [= <- <- <-].
  - split; [|done]. apply Forall_singleton.
    by apply (st_send _ _ _ _ HS σ).
  - split; [constructor | done].
Qed.

Lemma keeps_when_system_send target m (k : M unit) :
  (target ≠ "generation"%string ∨ admits_generation φ I) →
  keeps φ I k →
  keeps φ I (when_system (deliver target m >> k)).
Proof.
  intros Hok Hk σ r σ' t HI. unfold when_system. rewrite bind_read.
  destruct (actor_system σ) eqn:Hsys.
  - rewrite bind_deliver. destruct (k σ) as [[r2 σ2] t2] eqn:Ek.
    intros [= <- <- <-]. destruct (Hk _ _ _ _ HI Ek) as [Ht2 Hr].
    split; [|done]. apply Forall_cons. split; [|done].
    destruct Hok as [Hne|Hgen].
    + by apply (st_send _ _ _ _ HS σ).
    + destruct (decide (target = "generation"%string)) as [->|Hne].
      * by apply (Hgen σ).
      * by apply (st_send _ _ _ _ HS σ).
  - intros [= <- <- <-]. split; [constructor | done].
Qed.

Lemma keeps_send_if_system target m :
  (target ≠ "generation"%string ∨ admits_generation φ I) →
  keeps φ I (send_if_system target m).
Proof.
  intros Hok σ r σ' t HI Hrun.
  apply (keeps_when_system_send target m (ret tt) Hok (keeps_ret _ _ _) σ);
    [done|].
  unfold send_if_system, when_system in *.
  rewrite bind_read in *. destruct (actor_system σ); [|done].
  by rewrite bind_deliver, ret_eval, emitting_triple.
Qed.

Lemma keeps_update_request rid f : keeps φ I (update_request rid f).
Proof.
  apply keeps_write. intros σ HI.
  destruct (get rid (_pending_requests σ)) as [p|] eqn:E; [|done].
  by apply (st_update_request _ _ _ _ HS σ rid p).
Qed.

Lemma keeps_pop_request rid : keeps φ I (pop_request rid).
Proof.
  intros σ r σ' t HI. unfold pop_request. rewrite bind_read.
  destruct (get rid (_pending_requests σ)) as [p|] eqn:E.
  - rewrite bind_write, ret_eval. intros [= <- <- <-].
    split; [constructor|]. by apply (st_remove_request _ _ _ _ HS).
  - intros [= <- <- <-]. split; [constructor | done].
Qed.

Lemma keeps_pop_limit rid : keeps φ I (pop_limit rid).
Proof.
  intros σ r σ' t HI. unfold pop_limit. rewrite bind_read.
  destruct (get rid (_pending_limits σ)) as [p|] eqn:E.
  - rewrite bind_write, ret_eval. intros [= <- <- <-].
    split; [constructor|]. by apply (st_remove_limit _ _ _ _ HS).
  - intros [= <- <- <-]. split; [constructor | done].
Qed.

Lemma keeps_get_session l : keeps φ I (get_session l).
Proof.
  apply keeps_bind; [apply keeps_read|]. intros h.
  destruct (h !! l); [apply keeps_ret | apply keeps_raise].
Qed.

Lemma keeps_update_session l f :
  history_preserving cfg f → keeps φ I (update_session l f).
Proof.
  intros Hf σ r σ' t HI. unfold update_session, get_session.
  rewrite bind_assoc, bind_read.
  destruct (heap σ !! l) as [s|] eqn:E.
  - rewrite bind_ret. intros [= <- <- <-]. split; [constructor|].
    by apply (st_update_session _ _ _ _ HS).
  - rewrite bind_raise. intros [= <- <- <-]. split; [constructor | done].
Qed.

Lemma keeps_insert_request {B} (v : string → PendingRequest)
    (k : string → M B) :
  (∀ id, keeps φ I (k id)) →
  keeps φ I
    (do id <- fresh_uuid env;
     write (fun σ => set_pending_requests
                       (set id (v id) (_pending_requests σ)) σ) >>
     k id).
Proof.
  intros Hk σ r σ' t HI. unfold fresh_uuid.
  rewrite bind_assoc, bind_read, bind_assoc, bind_write, bind_ret, bind_write.
  apply Hk. by apply (st_insert_request _ _ _ _ HS σ).
Qed.

Lemma keeps_insert_limit {B} (v : string → PendingLimit)
    (k : string → M B) :
  (∀ id, keeps φ I (k id)) →
  keeps φ I
    (do id <- fresh_uuid env;
     write (fun σ => set_pending_limits
                       (set id (v id) (_pending_limits σ)) σ) >>
     k id).
Proof.
  intros Hk σ r σ' t HI. unfold fresh_uuid.
  rewrite bind_assoc, bind_read, bind_assoc, bind_write, bind_ret, bind_write.
  apply Hk. by apply (st_insert_limit _ _ _ _ HS σ).
Qed.

Lemma push_mode_bounded new_mode history :
  (length history ≤ MODE_HISTORY_SIZE cfg)%nat →
  (length (push_mode cfg new_mode history) ≤ MODE_HISTORY_SIZE cfg)%nat.
Proof.
  intros H. unfold push_mode, pop0. case_bool_decide as Hlen.
  - rewrite length_app in Hlen. simpl in Hlen.
    destruct history as [|x h]; simpl in *; [lia|].
    rewrite length_app. simpl. lia.
  - lia.
Qed.

Lemma push_mode_preserving new_mode :
  history_preserving cfg
    (fun s => set_mode_history (push_mode cfg new_mode (mode_history s)) s).
Proof. intros s Hs. simpl. by apply push_mode_bounded. Qed.

Local Ltac keeps_step :=
  lazymatch goal with
  | |- keeps _ _ (bind (fresh_uuid _) _) =>
      first [ apply keeps_insert_request
            | apply keeps_insert_limit ]; intros ?
  | |- keeps _ _ (bind _ _) => apply keeps_bind; [|intros ?]
  | |- keeps _ _ (ret _) => apply keeps_ret
  | |- keeps _ _ (raise _) => apply keeps_raise
  | |- keeps _ _ (read _) => apply keeps_read
  | |- keeps _ _ (log _ _) => apply keeps_quiet_log
  | |- keeps _ _ (append_event _) => apply keeps_quiet_event
  | |- keeps _ _ (send_message _ _) =>
      apply keeps_send_message; discriminate
  | |- keeps _ _ (send_if_system _ _) =>
      apply keeps_send_if_system; first [left; discriminate | by right]
  | |- keeps _ _ (when_system (bind (deliver _ _) _)) =>
      apply keeps_when_system_send; [first [left; discriminate | by right]|]
  | |- keeps _ _ (update_request _ _) => apply keeps_update_request
  | |- keeps _ _ (update_session _ _) =>
      apply keeps_update_session;
      first [apply push_mode_preserving | by intros ? ?]
  | |- keeps _ _ (get_session _) => apply keeps_get_session
  | |- keeps _ _ (pop_request _) => apply keeps_pop_request
  | |- keeps _ _ (pop_limit _) => apply keeps_pop_limit
  | |- keeps _ _ (index _ _) => apply keeps_index
  | |- keeps _ _ (write (set_details _)) =>
      apply keeps_write; intros ? ?; by apply (st_details _ _ _ _ HS)
  | |- keeps _ _ (if ?b then _ else _) => destruct b
  | |- keeps _ _ (match ?x with _ => _ end) => destruct x
  end.

Local Ltac keeps_auto := repeat keeps_step.

Lemma keeps_get_or_create_session uid uname now :
  keeps φ I (_get_or_create_session uid uname now).
Proof.
  intros σ r σ' t HI. unfold _get_or_create_session. rewrite bind_read.
  destruct (_sessions σ !! uid) as [l|].
  - intros [= <- <- <-]. split; [constructor | done].
  - rewrite bind_read, bind_write, bind_append_event, bind_log, ret_eval.
    intros [= <- <- <-]. split.
    + repeat constructor; by apply (st_quiet _ _ _ _ HS).
    + by apply (st_new_session _ _ _ _ HS).
Qed.

Lemma keeps_handle_user_message p now :
  keeps φ I (_handle_user_message env p now).
Proof.
  unfold _handle_user_message.
  apply keeps_bind; [apply keeps_get_or_create_session | intros l].
  keeps_auto.
Qed.

Lemma keeps_fallback rid : keeps φ I (_fallback_to_recent_search cfg rid).
Proof. unfold _fallback_to_recent_search. keeps_auto. Qed.

Lemma keeps_check_ready rid now :
  admits_generation φ I →
  keeps φ I (_check_ready_to_generate cfg rid now).
Proof.
  intros Hgen. unfold _check_ready_to_generate.
  apply keeps_bind; [apply keeps_read | intros d].
  destruct (get rid d) as [pending|]; [|apply keeps_ret].
  destruct (_ && _).
  - destruct (ltm_request_timestamp pending); [|apply keeps_ret].
    case_bool_decide; [|apply keeps_ret].
    apply keeps_bind; [apply keeps_quiet_log | intros _; apply keeps_fallback].
  - keeps_auto.
Qed.

Lemma keeps_continue pending now :
  keeps φ I (_continue_message_processing env cfg pending now).
Proof.
  unfold _continue_message_processing, assign_current_mode,
    assign_mode_confidence.
  keeps_auto.
Qed.

Lemma keeps_handle_embedding_response p :
  keeps φ I (handle_embedding_response cfg p).
Proof.
  unfold handle_embedding_response.
  apply keeps_bind; [apply keeps_read | intros table].
  destruct (present _ table) as [rid|]; [|apply keeps_quiet_log].
  destruct (get rid table) as [pending|]; [|apply keeps_quiet_log].
  destruct (flag _); [destruct (ep_embedding p) as [[|x v]|]|];
    try (apply keeps_bind; [apply keeps_quiet_log
                           | intros _; apply keeps_fallback]).
  keeps_auto.
Qed.

Lemma keeps_handle_limit_response p now :
  keeps φ I (handle_limit_response env cfg p now).
Proof.
  unfold handle_limit_response.
  destruct (_ || _); [apply keeps_ret|].
  apply keeps_bind; [apply keeps_read | intros table].
  destruct (present _ table) as [rid|]; [|apply keeps_quiet_log].
  apply keeps_bind; [apply keeps_pop_limit | intros pending].
  apply keeps_bind; [keeps_auto | intros _].
  apply keeps_bind; [keeps_auto | intros _].
  destruct (_ && _); [keeps_auto|].
  apply keeps_bind; [apply keeps_quiet_log | intros _; apply keeps_continue].
Qed.

Lemma keeps_expire_limit now rid : keeps φ I (expire_limit env cfg now rid).
Proof.
  unfold expire_limit.
  apply keeps_bind; [apply keeps_pop_limit | intros pending].
  apply keeps_bind; [apply keeps_quiet_log | intros _].
  destruct (AUTH_FALLBACK_TO_DEMO cfg); [apply keeps_continue|apply keeps_ret].
Qed.

Context (Hgen : admits_generation φ I).

Lemma keeps_handle_context_response p now :
  keeps φ I (handle_context_response cfg p now).
Proof.
  unfold handle_context_response.
  apply keeps_bind; [apply keeps_read | intros table].
  destruct (present _ table) as [rid|]; [|apply keeps_quiet_log].
  destruct (get rid table) as [pending|]; [|apply keeps_quiet_log].
  do 3 (apply keeps_bind; [keeps_step | intros _]).
  by apply keeps_check_ready.
Qed.

Lemma keeps_handle_ltm_response p now :
  keeps φ I (handle_ltm_response cfg p now).
Proof.
  unfold handle_ltm_response.
  apply keeps_bind; [apply keeps_read | intros table].
  destruct (present _ table) as [rid|]; [|apply keeps_quiet_log].
  destruct (get rid table) as [pending|]; [|apply keeps_quiet_log].
  apply keeps_bind; [keeps_auto | intros _].
  apply keeps_bind; [keeps_step | intros _].
  by apply keeps_check_ready.
Qed.

Lemma keeps_handle_message message now :
  keeps φ I (handle_message env cfg message now).
Proof.
  destruct message; simpl.
  - apply keeps_handle_user_message.
  - apply keeps_handle_context_response.
  - apply keeps_handle_ltm_response.
  - apply keeps_handle_embedding_response.
  - apply keeps_handle_limit_response.
Qed.

Lemma keeps_expire_request rid : keeps φ I (expire_request rid).
Proof. unfold expire_request. keeps_auto. Qed.

Lemma keeps_cleanup_expired_requests now :
  keeps φ I (_cleanup_expired_requests env cfg now).
Proof.
  unfold _cleanup_expired_requests.
  apply keeps_bind; [apply keeps_read | intros requests].
  apply keeps_bind;
    [apply keeps_for_each; intros; apply keeps_expire_request | intros _].
  apply keeps_bind; [apply keeps_read | intros limits].
  apply keeps_for_each; intros; apply keeps_expire_limit.
Qed.

Lemma keeps_step_input i now : keeps φ I (step env cfg i now).
Proof.
  destruct i; simpl; [apply keeps_handle_message|].
  apply keeps_try_except; [apply keeps_cleanup_expired_requests|].
  intros e. apply keeps_quiet_log.
Qed.

End Stable.

(** * The actor only evolves *)

Section Evolves.

Context (env : Collaborators) (cfg : Settings).

Lemma drawn_between_mono from from' upto upto' k :
  (from' ≤ from)%nat → (upto ≤ upto')%nat →
  drawn_between env from upto k → drawn_between env from' upto' k.
Proof. intros ? ? (n & Hn & ->). exists n. split; [lia | done]. Qed.

Lemma evolves_refl σ : evolves env cfg σ σ.
Proof. constructor; auto. Qed.

Lemma evolves_trans σ0 σ1 σ2 :
  evolves env cfg σ0 σ1 → evolves env cfg σ1 σ2 → evolves env cfg σ0 σ2.
Proof.
  intros [Hd1 Hr1 Hl1 Hrn1 Hln1 Hb1 Hs1] [Hd2 Hr2 Hl2 Hrn2 Hln2 Hb2 Hs2].
  constructor; auto; try lia; try congruence.
  - intros k [Hk|Hk]%Hr2.
    + destruct (Hr1 k Hk) as [?|?]; [by left|right].
      eapply drawn_between_mono; [| |done]; lia.
    + right. eapply drawn_between_mono; [| |done]; lia.
  - intros k [Hk|Hk]%Hl2.
    + destruct (Hl1 k Hk) as [?|?]; [by left|right].
      eapply drawn_between_mono; [| |done]; lia.
    + right. eapply drawn_between_mono; [| |done]; lia.
Qed.

Lemma well_formed_evolves σ0 σ :
  well_formed env σ0 → evolves env cfg σ0 σ → well_formed env σ.
Proof.
  intros [Hrn Hln Hr Hl] [Hd Her Hel Hern Heln _ _]. constructor; auto.
  - intros k [Hk|Hk]%Her.
    + eapply drawn_between_mono; [| |by apply Hr]; lia.
    + eapply drawn_between_mono; [| |done]; lia.
  - intros k [Hk|Hk]%Hel.
    + eapply drawn_between_mono; [| |by apply Hl]; lia.
    + eapply drawn_between_mono; [| |done]; lia.
Qed.

Lemma well_formed_init attached : well_formed env (init attached).
Proof.
  constructor; simpl; try apply NoDup_nil_2; by intros k ?%elem_of_nil.
Qed.

Lemma stable_evolves (φ : Effect → Prop) σ0 :
  (∀ e, not_generation e → φ e) →
  stable env cfg φ (evolves env cfg σ0).
Proof.
  intros Hφ. constructor.
  - intros [target m| |] He; apply Hφ; done.
  - intros σ target m _ _ Hne. by apply Hφ.
  - intros σ rid p q [Hd Hr Hl Hrn Hln Hb Hs] Hget.
    assert (keys (set rid q (_pending_requests σ)) =
            keys (_pending_requests σ)) as Hkeys.
    { apply keys_set_present. by eapply get_Some_keys. }
    constructor; simpl; auto; rewrite Hkeys; done.
  - intros σ rid [Hd Hr Hl Hrn Hln Hb Hs].
    constructor; simpl; auto.
    + intros k [_ Hk]%elem_of_keys_remove. by apply Hr.
    + intros Hnd. by apply NoDup_keys_remove, Hrn.
  - intros σ rid [Hd Hr Hl Hrn Hln Hb Hs].
    constructor; simpl; auto.
    + intros k [_ Hk]%elem_of_keys_remove. by apply Hl.
    + intros Hnd. by apply NoDup_keys_remove, Hln.
  - intros σ v [Hd Hr Hl Hrn Hln Hb Hs].
    constructor; simpl; auto.
    + intros k [->|Hk]%elem_of_keys_set.
      * right. exists (uuid_drawn σ). split; [lia | done].
      * destruct (Hr k Hk) as [?|?]; [by left|right].
        eapply drawn_between_mono; [| |done]; lia.
    + intros k Hk. destruct (Hl k Hk) as [?|?]; [by left|right].
      eapply drawn_between_mono; [| |done]; lia.
    + intros Hnd. by apply NoDup_keys_set, Hrn.
  - intros σ v [Hd Hr Hl Hrn Hln Hb Hs].
    constructor; simpl; auto.
    + intros k Hk. destruct (Hr k Hk) as [?|?]; [by left|right].
      eapply drawn_between_mono; [| |done]; lia.
    + intros k [->|Hk]%elem_of_keys_set.
      * right. exists (uuid_drawn σ). split; [lia | done].
      * destruct (Hl k Hk) as [?|?]; [by left|right].
        eapply drawn_between_mono; [| |done]; lia.
    + intros Hnd. by apply NoDup_keys_set, Hln.
  - intros σ l s f [Hd Hr Hl Hrn Hln Hb Hs] Hlook Hf.
    constructor; simpl; auto.
    intros Hb0. specialize (Hb Hb0). unfold history_bounded in *. simpl.
    apply Forall_insert; [done|]. apply Hf.
    by apply (Forall_lookup_1 _ _ _ _ Hb Hlook).
  - intros σ uid uname now [Hd Hr Hl Hrn Hln Hb Hs].
    constructor; simpl; auto.
    intros Hb0. specialize (Hb Hb0). unfold history_bounded in *. simpl.
    apply Forall_app. split; [done|]. apply Forall_singleton. simpl. lia.
  - intros σ d [Hd Hr Hl Hrn Hln Hb Hs]. constructor; simpl; auto.
Qed.

Lemma admits_generation_any (I : Actor → Prop) :
  admits_generation (fun _ => True) I.
Proof. done. Qed.

(** Every input leaves the actor evolved, whatever the outcome. *)
Lemma step_evolves i now σ r σ' t :
  step env cfg i now σ = (r, σ', t) → evolves env cfg σ σ'.
Proof.
  intros Hstep.
  pose proof (keeps_step_input env cfg (fun _ => True) (evolves env cfg σ)
                (stable_evolves _ σ (fun _ _ => Logic.I))
                (admits_generation_any _) i now σ r σ' t
                (evolves_refl σ) Hstep) as [_ H].
  by destruct r.
Qed.

(** The continuation sends nothing to the generation service. *)
Lemma continue_not_generation pending now σ r σ' t :
  _continue_message_processing env cfg pending now σ = (r, σ', t) →
  Forall not_generation t ∧ evolves env cfg σ σ'.
Proof.
  intros Hrun.
  pose proof (keeps_continue env cfg not_generation (evolves env cfg σ)
                (stable_evolves _ σ (fun _ H => H)) pending now σ r σ' t
                (evolves_refl σ) Hrun) as [Ht H].
  split; [done|]. by destruct r.
Qed.

End Evolves.

(** * The readiness check and the fallback *)

Section Check.

Context (env : Collaborators) (cfg : Settings).

Lemma fallback_eval rid p σ :
  get rid (_pending_requests σ) = Some p →
  actor_system σ = true →
  _fallback_to_recent_search cfg rid σ =
    (Ok tt, with_request rid (after_fallback p) σ,
     [Send "ltm" (GET_LTM_MEMORY (pr_user_id p) "recent" None
                    (LTM_CONTEXT_LIMIT cfg) rid);
      Log INFO (FallbackToRecent (pr_user_id p))]).
Proof.
  intros Hget Hsys. unfold _fallback_to_recent_search.
  rewrite bind_read, Hget.
  rewrite (bind_update_request _ _ p) by done.
  rewrite (bind_update_request _ _ _ _ _ (with_request_get _ _ _)).
  rewrite with_request_twice.
  rewrite bind_send_message by done. done.
Qed.

Lemma check_ready_spec rid p now σ :
  get rid (_pending_requests σ) = Some p →
  actor_system σ = true →
  ∃ t, _check_ready_to_generate cfg rid now σ =
         (Ok tt, check_state cfg rid p now σ, t) ∧
       sent t = check_sends cfg rid p now ∧
       appended t = [].
Proof.
  intros Hget Hsys. unfold _check_ready_to_generate.
  rewrite bind_read, Hget.
  unfold check_state, check_sends, awaiting_embedding, ready,
    embedding_timed_out, ltm_timed_out.
  destruct (flag (expecting_embedding p) && negb (flag (embedding_received p))).
  - destruct (ltm_request_timestamp p) as [ts|]; [|by eexists].
    case_bool_decide; [|by eexists].
    rewrite bind_log, (fallback_eval _ _ _ Hget Hsys). by eexists.
  - destruct (flag (stm_received p)), (flag (ltm_received p)),
      (flag (expecting_ltm p)), (ltm_request_timestamp p) as [ts|];
      simpl; repeat case_bool_decide;
      rewrite ?bind_assoc, ?bind_log, ?bind_ret; simpl;
      try (by eexists);
      rewrite (bind_pop_request _ p) by done;
      destruct (nonempty (get_or_none (ltm_memories p)));
      rewrite ?bind_log, ?bind_ret, send_if_system_attached by done;
      by eexists.
Qed.

End Check.

(** * The continuation in closed form *)

Section Continue.

Context (env : Collaborators) (cfg : Settings).

Lemma bind_get_session {B} l s (k : UserSession → M B) σ :
  heap σ !! l = Some s → bind (get_session l) k σ = k s σ.
Proof.
  intros H. unfold get_session. by rewrite bind_assoc, bind_read, H, bind_ret.
Qed.

Lemma bind_update_session {B} l s f (k : unit → M B) σ :
  heap σ !! l = Some s →
  bind (update_session l f) k σ = k tt (with_session l (f s) σ).
Proof.
  intros H. unfold update_session.
  by rewrite bind_assoc, (bind_get_session _ s), bind_write.
Qed.

Lemma with_session_get l s s0 σ :
  heap σ !! l = Some s0 → heap (with_session l s σ) !! l = Some s.
Proof.
  intros H. simpl. apply list_lookup_insert_eq. by eapply lookup_lt_Some.
Qed.

Lemma with_session_twice l s1 s2 σ :
  with_session l s2 (with_session l s1 σ) = with_session l s2 σ.
Proof. unfold with_session. simpl. by rewrite list_insert_insert_eq. Qed.

Lemma bind_fresh_uuid {B} (k : string → M B) σ :
  bind (fresh_uuid env) k σ =
    k (uuid4 env (uuid_drawn σ)) (set_uuid_drawn (S (uuid_drawn σ)) σ).
Proof.
  unfold fresh_uuid. by rewrite bind_assoc, bind_read, bind_assoc, bind_write,
    bind_ret.
Qed.

Lemma bind_insert_request {B} rid v (k : unit → M B) σ :
  bind (write (fun σ => set_pending_requests
                          (set rid v (_pending_requests σ)) σ)) k σ =
    k tt (with_request rid v σ).
Proof. by rewrite bind_write. Qed.

Lemma update_request_eval rid f p σ :
  get rid (_pending_requests σ) = Some p →
  update_request rid f σ = (Ok tt, with_request rid (f p) σ, []).
Proof. intros H. unfold update_request, write. by rewrite H. Qed.

Local Ltac session_step H :=
  first
    [ erewrite bind_update_session
        by (first [exact H | eapply with_session_get; exact H])
    | erewrite bind_get_session
        by (first [exact H | eapply with_session_get; exact H]) ];
  rewrite ?with_session_twice.

Local Ltac request_step :=
  first
    [ rewrite (bind_update_request _ _ _ _ _ (with_request_get _ _ _))
    | rewrite (update_request_eval _ _ _ _ (with_request_get _ _ _)) ];
  rewrite with_request_twice.

Lemma continue_eval pending now s σ :
  heap σ !! pl_session pending = Some s →
  actor_system σ = true →
  validate_mode
    (fst (fst (_determine_generation_mode env (pl_text pending) s))) = true →
  validate_confidence
    (snd (fst (_determine_generation_mode env (pl_text pending) s))) = true →
  ∃ t,
    _continue_message_processing env cfg pending now σ =
      (Ok tt, continued_actor env cfg pending now s σ, t) ∧
    sent t =
      fan_out env cfg pending (uuid4 env (uuid_drawn σ))
        (continued_session env cfg (pl_text pending) now s).
Proof.
  intros Hs Hsys Hmode Hconf.
  unfold _continue_message_processing, continued_actor, continued_session,
    continued_request, fan_out, ltm_legs,
    assign_current_mode, assign_mode_confidence.
  rewrite bind_log, (bind_when_system _ _ _ Hsys).
  rewrite bind_assoc, bind_deliver, bind_log.
  rewrite (bind_get_session _ s) by done.
  destruct (_determine_generation_mode env (pl_text pending) s)
    as [[new_mode confidence] details].
  simpl in Hmode, Hconf. rewrite bind_write. cbn [snd].
  set (σ1 := set_details details σ).
  assert (heap σ1 !! pl_session pending = Some s) as Hs1 by done.
  rewrite Hmode, Hconf.
  set (s1 := if bool_decide (new_mode ≠ current_mode s)
             then set_current_mode new_mode (set_last_mode_change (Some now) s)
             else s).
  assert (∀ {B} (k : bool → M B),
    bind (if bool_decide (new_mode ≠ current_mode s)
          then update_session (pl_session pending)
                 (set_last_mode_change (Some now)) >>
               update_session (pl_session pending)
                 (set_current_mode new_mode) >>
               ret true
          else ret false) k σ1 =
    k (bool_decide (new_mode ≠ current_mode s))
      (with_session (pl_session pending) s1 σ1)) as Hchange.
  { intros B k. subst s1. case_bool_decide.
    - rewrite !bind_assoc. session_step Hs1. rewrite bind_assoc.
      session_step Hs1. by rewrite bind_ret.
    - rewrite bind_ret. unfold with_session. simpl.
      by rewrite list_insert_id. }
  rewrite Hchange. clear Hchange.
  session_step Hs1. session_step Hs1. rewrite bind_log.
  session_step Hs1.
  set (s3 := set_mode_history _ (set_mode_confidence confidence s1)).
  assert (∀ {B} (k : unit → M B) σ',
    bind (if bool_decide (new_mode ≠ current_mode s)
          then do details0 <- read _last_detection_details;
               append_event
                 (ModeDetectedEvent (pl_user_id pending) new_mode confidence
                    (previous_of (mode_history s3)) details0 now)
          else ret tt) k σ' =
    emitting
      (if bool_decide (new_mode ≠ current_mode s)
       then [AppendEvent
               (ModeDetectedEvent (pl_user_id pending) new_mode confidence
                  (previous_of (mode_history s3))
                  (_last_detection_details σ') now)]
       else []) (k tt σ')) as Hevent.
  { intros B k σ'. case_bool_decide.
    - by rewrite bind_assoc, bind_read, bind_append_event.
    - by rewrite bind_ret, emitting_nil. }
  rewrite Hevent. clear Hevent.
  session_step Hs1. session_step Hs1. session_step Hs1.
  set (s' := set_last_activity now _).
  assert (∀ {B} (k : unit → M B) σ',
    bind (if _should_include_prompt env s'
          then append_event
                 (PromptInclusionEvent (pl_user_id pending)
                    (message_count s') (prompt_strategy env)
                    (_get_prompt_reason env s'))
          else ret tt) k σ' =
    emitting
      (if _should_include_prompt env s'
       then [AppendEvent
               (PromptInclusionEvent (pl_user_id pending)
                  (message_count s') (prompt_strategy env)
                  (_get_prompt_reason env s'))]
       else []) (k tt σ')) as Hprompt.
  { intros B k σ'. destruct (_should_include_prompt env s').
    - by rewrite bind_append_event.
    - by rewrite bind_ret, emitting_nil. }
  rewrite Hprompt. clear Hprompt.
  rewrite bind_fresh_uuid, bind_insert_request.
  rewrite bind_send_message by exact Hsys.
  rewrite bind_log.
  change (uuid_drawn (with_session (pl_session pending) s' σ1))
    with (uuid_drawn σ).
  destruct (LTM_REQUEST_ENABLED cfg).
  - destruct (_should_request_ltm env (pl_text pending) s')
      as [[|] search_type].
    + do 7 request_step.
      destruct (String.eqb search_type "vector").
      * do 2 request_step. rewrite bind_send_message by exact Hsys.
        rewrite log_eval, !emitting_triple.
        eexists. split; [reflexivity|].
        repeat case_bool_decide; destruct (_should_include_prompt env s');
          reflexivity.
      * rewrite bind_send_message by exact Hsys.
        rewrite log_eval, !emitting_triple.
        eexists. split; [reflexivity|].
        repeat case_bool_decide; destruct (_should_include_prompt env s');
          reflexivity.
    + do 4 request_step.
      rewrite (update_request_eval _ _ _ _ (with_request_get _ _ _)).
      rewrite with_request_twice, !emitting_triple.
      eexists. split; [reflexivity|].
      repeat case_bool_decide; destruct (_should_include_prompt env s');
        reflexivity.
  - rewrite ret_eval, !emitting_triple.
    eexists. split; [reflexivity|].
    repeat case_bool_decide; destruct (_should_include_prompt env s');
      reflexivity.
Qed.

End Continue.

(** * The reply handlers *)

Section Replies.

Context (env : Collaborators) (cfg : Settings).

(** C10. A [LIMIT_RESPONSE] carrying [is_status_check] or [is_auth_check]
    is skipped: the actor (both pending tables, every session) is left as
    it was and nothing is emitted, whatever its correlation id; a run that
    starts with such a message continues as if it had not been
    delivered, so a matching pending limit check is still there for a later
    verdict or for the sweep. *)
Theorem status_check_verdict_is_skipped (p : LimitPayload) (now : Time)
    (σ : Actor) :
  is_status_check p || is_auth_check p = true →
  handle_message env cfg (LIMIT_RESPONSE p) now σ = (Ok tt, σ, []) ∧
  ∀ rest, run env cfg ((Deliver (LIMIT_RESPONSE p), now) :: rest) σ =
          run env cfg rest σ.
Proof.
  intros Hflag.
  assert (handle_message env cfg (LIMIT_RESPONSE p) now σ = (Ok tt, σ, []))
    as Hskip.
  { simpl. unfold handle_limit_response. by rewrite Hflag. }
  split; [done|]. intros rest. simpl. simpl in Hskip. rewrite Hskip.
  by destruct (run env cfg rest σ).
Qed.

Lemma embedding_response_vector rid p reply x v σ :
  get rid (_pending_requests σ) = Some p →
  rid ≠ EmptyString →
  actor_system σ = true →
  ep_request_id reply = Some rid →
  flag (ep_success reply) = true →
  ep_embedding reply = Some (x :: v) →
  ∃ t, handle_embedding_response cfg reply σ =
         (Ok tt, with_request rid (after_embedding (x :: v) p) σ, t) ∧
       sent t = [vector_search cfg rid p (x :: v)].
Proof.
  intros Hget Hne Hsys Hid Hok Hv. unfold handle_embedding_response.
  rewrite bind_read, Hid, (present_Some _ _ _ Hne Hget), Hget, Hok, Hv.
  rewrite (bind_update_request _ _ p) by done.
  rewrite (bind_update_request _ _ _ _ _ (with_request_get _ _ _)).
  rewrite with_request_twice, bind_log, bind_send_message by done.
  by eexists.
Qed.

Lemma embedding_response_fallback rid p reply σ :
  get rid (_pending_requests σ) = Some p →
  rid ≠ EmptyString →
  actor_system σ = true →
  ep_request_id reply = Some rid →
  flag (ep_success reply) = false ∨ nonempty (ep_embedding reply) = false →
  ∃ t, handle_embedding_response cfg reply σ =
         (Ok tt, with_request rid (after_fallback p) σ, t) ∧
       sent t = [recent_search cfg rid p].
Proof.
  intros Hget Hne Hsys Hid Hcase. unfold handle_embedding_response.
  rewrite bind_read, Hid, (present_Some _ _ _ Hne Hget), Hget.
  destruct (flag (ep_success reply)).
  - destruct Hcase as [?|Hempty]; [done|].
    destruct (ep_embedding reply) as [[|x v]|]; try done;
      rewrite bind_log, (fallback_eval cfg _ _ _ Hget Hsys); by eexists.
  - rewrite bind_log, (fallback_eval cfg _ _ _ Hget Hsys). by eexists.
Qed.

(** C5. For a pending record awaiting an embedding, a successful reply
    with a non-empty vector stores the vector, marks the embedding received
    and sends the vector search; a successful reply with no or an empty
    vector, or a failed reply, marks the embedding received (with no
    vector) and sends the "recent" search.  In both cases the record stays
    in the table and no longer awaits the embedding. *)
Theorem embedding_reply_releases_the_join (rid : string) (p : PendingRequest)
    (reply : EmbeddingPayload) (now : Time) (σ : Actor) :
  get rid (_pending_requests σ) = Some p →
  rid ≠ EmptyString →
  actor_system σ = true →
  awaiting_embedding p = true →
  ep_request_id reply = Some rid →
  ∃ q t,
    handle_message env cfg (EMBEDDING_RESPONSE reply) now σ =
      (Ok tt, with_request rid q σ, t) ∧
    get rid (_pending_requests (with_request rid q σ)) = Some q ∧
    embedding_received q = Some true ∧
    awaiting_embedding q = false ∧
    (∀ v, flag (ep_success reply) = true → ep_embedding reply = Some v →
          v ≠ [] →
          q = after_embedding v p ∧ query_vector q = Some (Some v) ∧
          sent t = [vector_search cfg rid p v]) ∧
    (flag (ep_success reply) = false ∨ ep_embedding reply = None ∨
     ep_embedding reply = Some [] →
          q = after_fallback p ∧ query_vector q = Some None ∧
          sent t = [recent_search cfg rid p]).
Proof.
  intros Hget Hne Hsys _ Hid. unfold handle_message.
  assert (∀ q, embedding_received q = Some true →
               awaiting_embedding q = false) as Hrel.
  { intros q Hq. unfold awaiting_embedding. rewrite Hq. apply andb_false_r. }
  destruct (flag (ep_success reply)) eqn:Hok;
    [destruct (ep_embedding reply) as [[|x w]|] eqn:Hv|].
  2:{ destruct (embedding_response_vector rid p reply x w σ)
        as (t & -> & Ht); try done.
      exists (after_embedding (x :: w) p), t. rewrite with_request_get.
      split; [done|]. split; [done|]. split; [done|].
      split; [by apply Hrel|]. split.
      - by intros v' _ [= <-] _.
      - intros [?|[?|?]]; done. }
  all: destruct (embedding_response_fallback rid p reply σ)
         as (t & -> & Ht); try done;
       try (right; by rewrite Hv); try (by left);
       exists (after_fallback p), t; rewrite with_request_get;
       (split; [done|]); (split; [done|]); (split; [done|]);
       (split; [by apply Hrel|]); split; try done;
       intros v' ? ? ?; congruence.
Qed.

(** The two handlers that end with the readiness check. *)
Lemma context_response_eval rid p reply now σ :
  get rid (_pending_requests σ) = Some p →
  rid ≠ EmptyString →
  cp_request_id reply = Some rid →
  let q := after_context (cp_messages reply) p in
  handle_context_response cfg reply now σ =
    emitting
      [Log DEBUG (ReceivedStmContext rid (length (default [] (cp_messages reply))))]
      (_check_ready_to_generate cfg rid now (with_request rid q σ)).
Proof.
  intros Hget Hne Hid q. unfold handle_context_response.
  rewrite bind_read, Hid, (present_Some _ _ _ Hne Hget), Hget.
  rewrite (bind_update_request _ _ p) by done.
  rewrite (bind_update_request _ _ _ _ _ (with_request_get _ _ _)).
  by rewrite with_request_twice, bind_log.
Qed.

Lemma ltm_response_eval rid p reply now σ :
  get rid (_pending_requests σ) = Some p →
  rid ≠ EmptyString →
  ltm_request_id reply = Some rid →
  let q := after_ltm (ltm_success reply) (ltm_results reply) p in
  ∃ line,
    handle_ltm_response cfg reply now σ =
      emitting [line]
        (_check_ready_to_generate cfg rid now (with_request rid q σ)) ∧
    sent [line] = [] ∧ appended [line] = [] ∧ generation_requests [line] = [].
Proof.
  intros Hget Hne Hid q. unfold handle_ltm_response.
  rewrite bind_read, Hid, (present_Some _ _ _ Hne Hget), Hget.
  subst q. unfold after_ltm. destruct (flag (ltm_success reply)).
  - rewrite bind_assoc, (bind_update_request _ _ p), bind_log by done.
    rewrite (bind_update_request _ _ _ _ _ (with_request_get _ _ _)).
    rewrite with_request_twice. by eexists.
  - rewrite bind_assoc, (bind_update_request _ _ p), bind_log by done.
    rewrite (bind_update_request _ _ _ _ _ (with_request_get _ _ _)).
    rewrite with_request_twice. by eexists.
Qed.

(** What the readiness rule gives for a record that awaits no embedding. *)
Lemma check_state_resolved rid q now σ :
  get rid (_pending_requests σ) = Some q →
  awaiting_embedding q = false →
  ready cfg q now = true →
  ∀ t, sent t = check_sends cfg rid q now →
       resolved_with rid (generate_payload q) (check_state cfg rid q now σ) t.
Proof.
  intros Hget Hemb Hready t Ht. unfold check_state, check_sends in *.
  rewrite Hemb, Hready in *. split; [|done]. simpl. apply get_remove_eq.
Qed.

Lemma sent_generation_requests t :
  generation_requests t =
    omap (fun tm => match tm with
                    | (target, GENERATE_RESPONSE p) =>
                        if String.eqb target "generation" then Some p else None
                    | _ => None
                    end) (sent t).
Proof.
  induction t as [|[target m| |] t IH]; simpl; try done.
  destruct m; simpl; try done. destruct (String.eqb target _); by rewrite IH.
Qed.

Lemma check_state_pending rid q now σ :
  get rid (_pending_requests σ) = Some q →
  awaiting_embedding q = false →
  ready cfg q now = false →
  ∀ t, sent t = check_sends cfg rid q now →
       left_pending rid q (check_state cfg rid q now σ) t ∧ sent t = [].
Proof.
  intros Hget Hemb Hready t Ht.
  unfold left_pending, check_state, check_sends in *.
  rewrite Hemb, Hready in *. rewrite sent_generation_requests, Ht. done.
Qed.

Lemma check_state_awaiting rid q now σ :
  get rid (_pending_requests σ) = Some q →
  awaiting_embedding q = true →
  ∀ t, sent t = check_sends cfg rid q now →
       left_pending rid
         (if embedding_timed_out cfg q now then after_fallback q else q)
         (check_state cfg rid q now σ) t ∧
       sent t =
         if embedding_timed_out cfg q now then [recent_search cfg rid q]
         else [].
Proof.
  intros Hget Hemb t Ht. unfold left_pending, check_state, check_sends in *.
  rewrite Hemb in *. rewrite sent_generation_requests, Ht.
  destruct (embedding_timed_out cfg q now); [|done].
  split; [split; [apply with_request_get | done] | done].
Qed.

Lemma join_outcome_check rid q now σ line :
  get rid (_pending_requests σ) = Some q →
  actor_system σ = true →
  sent [line] = [] →
  join_outcome cfg rid q now
    (emitting [line] (_check_ready_to_generate cfg rid now σ)).
Proof.
  intros Hget Hsys Hline.
  destruct (check_ready_spec cfg rid q now σ Hget Hsys) as (t & -> & Ht & _).
  rewrite emitting_triple. eexists _, _. split; [done|].
  assert (sent ([line] ++ t) = check_sends cfg rid q now) as Hsent.
  { unfold sent in *. by rewrite omap_app, Hline. }
  destruct (awaiting_embedding q) eqn:Hemb.
  - by apply check_state_awaiting.
  - destruct (ready cfg q now) eqn:Hready.
    + pose proof (check_state_resolved rid q now σ Hget Hemb Hready _ Hsent)
        as Hres.
      split; [done|]. split; [done|]. intros [_ Hnone].
      destruct Hres as [_ Hres]. congruence.
    + pose proof (check_state_pending rid q now σ Hget Hemb Hready _ Hsent)
        as Hpen.
      split; [|done]. split; [done|]. intros [_ Hres].
      destruct Hpen as [_ Hpen]. congruence.
Qed.

(** C1 (as amended).  After a context or long-term-memory reply for a
    pending record: a record that awaits its embedding is not resolved
    (past the embedding timeout the fallback is applied and the record
    stays); any other record is resolved -- removed, one generation request
    sent -- if and only if the STM context has been received and the
    long-term memories have been received, or were not expected, or their
    timeout has passed.  An embedding reply runs no readiness check: the
    record stays in the table and no generation request is sent. *)
Theorem readiness_after_reply (rid : string) (p : PendingRequest)
    (now : Time) (σ : Actor) :
  get rid (_pending_requests σ) = Some p →
  rid ≠ EmptyString →
  actor_system σ = true →
  (∀ reply, cp_request_id reply = Some rid →
     join_outcome cfg rid (after_context (cp_messages reply) p) now
       (handle_message env cfg (CONTEXT_RESPONSE reply) now σ)) ∧
  (∀ reply, ltm_request_id reply = Some rid →
     join_outcome cfg rid
       (after_ltm (ltm_success reply) (ltm_results reply) p) now
       (handle_message env cfg (LTM_RESPONSE reply) now σ)) ∧
  (∀ reply, ep_request_id reply = Some rid →
     ∃ q σ' t,
       handle_message env cfg (EMBEDDING_RESPONSE reply) now σ =
         (Ok tt, σ', t) ∧
       left_pending rid q σ' t).
Proof.
  intros Hget Hne Hsys. split; [|split].
  - intros reply Hid. unfold handle_message.
    rewrite (context_response_eval rid p) by done.
    apply join_outcome_check; [apply with_request_get | done | done].
  - intros reply Hid. unfold handle_message.
    destruct (ltm_response_eval rid p reply now σ) as (line & -> & Hl & _);
      try done.
    apply join_outcome_check; [apply with_request_get | done | done].
  - intros reply Hid. unfold handle_message.
    destruct (decide (flag (ep_success reply) = true
                      ∧ nonempty (ep_embedding reply) = true)) as [[Hs Hv]|Hn].
    + destruct (ep_embedding reply) as [[|x v]|] eqn:Hemb; try done.
      destruct (embedding_response_vector rid p reply x v σ)
        as (t & -> & Ht); try done.
      eexists _, _, _. split; [done|]. split; [apply with_request_get|].
      by rewrite sent_generation_requests, Ht.
    + destruct (embedding_response_fallback rid p reply σ)
        as (t & -> & Ht); try done.
      { destruct (flag (ep_success reply)); [|by left].
        destruct (nonempty (ep_embedding reply)); [|by right].
        destruct Hn. done. }
      eexists _, _, _. split; [done|]. split; [apply with_request_get|].
      by rewrite sent_generation_requests, Ht.
Qed.

(** C6. A long-term-memory reply for a pending record stores the results
    (the empty list when the reply reports a failure), marks the leg
    received and runs the readiness check on the updated record: nothing is
    raised, nothing is sent to the user, and a record that awaits no
    embedding is resolved as soon as its STM context is there. *)
Theorem ltm_reply_completes_the_ltm_leg (rid : string) (p : PendingRequest)
    (reply : LtmPayload) (now : Time) (σ : Actor) :
  get rid (_pending_requests σ) = Some p →
  rid ≠ EmptyString →
  actor_system σ = true →
  ltm_request_id reply = Some rid →
  let memories :=
    if flag (ltm_success reply) then default [] (ltm_results reply) else [] in
  let q := after_ltm (ltm_success reply) (ltm_results reply) p in
  ∃ σ' t,
    handle_message env cfg (LTM_RESPONSE reply) now σ = (Ok tt, σ', t) ∧
    ltm_memories q = Some (Some memories) ∧
    ltm_received q = Some true ∧
    σ' = check_state cfg rid q now (with_request rid q σ) ∧
    sent t = check_sends cfg rid q now ∧
    (∀ m, ("telegram"%string, m) ∉ sent t) ∧
    appended t = [] ∧
    (awaiting_embedding q = false → flag (stm_received p) = true →
       resolved_with rid (generate_payload q) σ' t ∧
       gp_ltm_memories (generate_payload q) = Some (Some memories)) ∧
    (awaiting_embedding q = false → flag (stm_received p) = false →
       left_pending rid q σ' t).
Proof.
  intros Hget Hne Hsys Hid memories q. unfold handle_message.
  destruct (ltm_response_eval rid p reply now σ)
    as (line & -> & Hl & Hl2 & _); try done. fold q.
  destruct (check_ready_spec cfg rid q now (with_request rid q σ))
    as (t & -> & Ht & Hev); [apply with_request_get | done |].
  rewrite emitting_triple. eexists _, _. split; [done|].
  assert (sent ([line] ++ t) = check_sends cfg rid q now) as Hsent.
  { unfold sent in *. by rewrite omap_app, Hl. }
  assert (ready cfg q now = flag (stm_received p)) as Hready.
  { unfold ready. simpl. by rewrite andb_true_r. }
  split; [done|]. split; [done|]. split; [done|]. split; [done|].
  split; [|split; [|split]].
  - intros m. rewrite Hsent. unfold check_sends, recent_search.
    destruct (awaiting_embedding q), (embedding_timed_out cfg q now),
      (ready cfg q now);
      rewrite ?list_elem_of_singleton; try apply not_elem_of_nil; intros [=].
  - unfold appended in *. by rewrite omap_app, Hl2, Hev.
  - intros Hemb Hstm. split; [|done].
    apply check_state_resolved; try done; [apply with_request_get|congruence].
  - intros Hemb Hstm.
    apply check_state_pending; try done; [apply with_request_get|congruence].
Qed.

End Replies.

Lemma status_check_verdict_is_skipped_witness :
  let env := sample_env "talk" (false, "recent"%string) in
  let σ := sample_actor sample_request in
  let p := sample_verdict true "id0" 10 in
  is_status_check p || is_auth_check p = true ∧
  get "id0" (_pending_limits σ) = Some sample_limit ∧
  handle_message env settings (LIMIT_RESPONSE p) 5 σ = (Ok tt, σ, []) ∧
  ∀ rest, run env settings ((Deliver (LIMIT_RESPONSE p), 5) :: rest) σ =
          run env settings rest σ.
Proof.
  split; [reflexivity|]. split; [reflexivity|].
  apply (status_check_verdict_is_skipped
           (sample_env "talk" (false, "recent"%string)) settings
           (sample_verdict true "id0" 10) 5 (sample_actor sample_request)).
  reflexivity.
Defined.

Lemma embedding_reply_releases_the_join_witness :
  let env := sample_env "talk" (true, "vector"%string) in
  let σ := sample_actor sample_request in
  let reply := sample_embedding_reply false [] in
  get "id1" (_pending_requests σ) = Some sample_request ∧
  awaiting_embedding sample_request = true ∧
  ∃ t, handle_message env settings (EMBEDDING_RESPONSE reply) 5 σ =
         (Ok tt, with_request "id1" (after_fallback sample_request) σ, t) ∧
       sent t = [recent_search settings "id1" sample_request] ∧
       awaiting_embedding (after_fallback sample_request) = false.
Proof.
  intros env σ reply. split; [reflexivity|]. split; [reflexivity|].
  destruct (embedding_reply_releases_the_join env settings "id1"
              sample_request reply 5 σ)
    as (q & t & Hrun & _ & _ & Hfree & _ & Hfail);
    [reflexivity | discriminate | reflexivity | reflexivity | reflexivity |].
  destruct Hfail as (-> & _ & Hsent); [left; reflexivity|].
  exists t. split; [exact Hrun|]. split; [exact Hsent | exact Hfree].
Defined.

Lemma ltm_reply_completes_the_ltm_leg_witness :
  let env := sample_env "talk" (true, "recent"%string) in
  let p := set_embedding_received (Some true) sample_request_with_context in
  let σ := sample_actor p in
  let reply := sample_ltm_reply false ["ignored"%string] in
  let q := after_ltm (Some false) (Some ["ignored"%string]) p in
  get "id1" (_pending_requests σ) = Some p ∧
  ∃ σ' t,
    handle_message env settings (LTM_RESPONSE reply) 5 σ = (Ok tt, σ', t) ∧
    resolved_with "id1" (generate_payload q) σ' t ∧
    gp_ltm_memories (generate_payload q) = Some (Some []).
Proof.
  intros env p σ reply q. split; [reflexivity|].
  destruct (ltm_reply_completes_the_ltm_leg env settings "id1" p reply 5 σ)
    as (σ' & t & Hrun & _ & _ & _ & _ & _ & _ & Hres & _);
    [reflexivity | discriminate | reflexivity | reflexivity |].
  exists σ', t. split; [exact Hrun|]. apply Hres; reflexivity.
Defined.

Lemma readiness_after_reply_witness :
  let env := sample_env "talk" (true, "vector"%string) in
  let σ := sample_actor sample_request in
  get "id1" (_pending_requests σ) = Some sample_request ∧
  join_outcome settings "id1" sample_request_with_context 5
    (handle_message env settings
       (CONTEXT_RESPONSE (sample_context_reply ["hello"%string])) 5 σ).
Proof.
  intros env σ. split; [reflexivity|].
  destruct (readiness_after_reply env settings "id1" sample_request 5 σ)
    as (Hcontext & _); [reflexivity | discriminate | reflexivity |].
  apply (Hcontext (sample_context_reply ["hello"%string])). reflexivity.
Defined.

(** C1, as worded, fails on an embedding reply: the record of this actor
    has its STM context, its long-term-memory request is one second old
    (past the half-second timeout), and the embedding arrives; the handler
    stores the vector and leaves the record in the table although it is
    ready and awaits no embedding. *)
Lemma embedding_reply_leaves_ready_record_pending :
  ¬ ready_records_are_resolved_by_any_reply.
Proof.
  intros Hclaim.
  pose (env := sample_env "talk" (true, "vector"%string)).
  pose (σ := sample_actor sample_request_with_context).
  pose (m := EMBEDDING_RESPONSE (sample_embedding_reply true [1%Q])).
  pose (x := handle_message env settings m (seconds 1) σ).
  specialize (Hclaim env settings σ "id1"%string
                sample_request_with_context m (seconds 1)
                (fst (fst x)) (snd (fst x)) (snd x)
                (after_embedding [1%Q] sample_request_with_context)).
  discriminate Hclaim; try reflexivity. discriminate.
Qed.

(** * The limit verdict *)

Section Verdict.

Context (env : Collaborators) (cfg : Settings).

(** C8 (as amended).  A verdict that does not carry [is_status_check] or
    [is_auth_check], whose correlation id matches a pending limit check,
    which carries the figures quoted by every warning it flags
    ([messages_remaining] and [limit] with [approaching_limit],
    [days_remaining] with [subscription_expiring]) and which denies (not
    unlimited, usage at or above the limit) removes the pending record,
    appends the limit-exceeded event and sends the limit-exceeded notice
    to the front end; it sends nothing but front-end messages, creates no
    pending generation record and leaves every session (mode, mode
    history, message count) as it was. *)
Theorem denied_verdict_stops_the_turn (rid : string) (pending : PendingLimit)
    (verdict : LimitPayload) (now : Time) (σ : Actor) :
  get rid (_pending_limits σ) = Some pending →
  rid ≠ EmptyString →
  actor_system σ = true →
  is_status_check verdict = false →
  is_auth_check verdict = false →
  lp_request_id verdict = Some rid →
  (approaching_limit verdict = true →
     is_Some (messages_remaining verdict) ∧ is_Some (lp_limit verdict)) →
  (subscription_expiring verdict = true →
     is_Some (days_remaining verdict)) →
  flag (unlimited verdict) = false →
  default 0 (messages_today verdict) >=
    default (DAILY_MESSAGE_LIMIT cfg) (lp_limit verdict) →
  let uid := pl_user_id pending in
  let today := default 0 (messages_today verdict) in
  let limit := default (DAILY_MESSAGE_LIMIT cfg) (lp_limit verdict) in
  ∃ σ' t,
    handle_message env cfg (LIMIT_RESPONSE verdict) now σ = (Ok tt, σ', t) ∧
    σ' = set_pending_limits (remove rid (_pending_limits σ)) σ ∧
    get rid (_pending_limits σ') = None ∧
    appended t = [LimitExceededEvent uid today limit] ∧
    ("telegram"%string, LIMIT_EXCEEDED uid (pl_chat_id pending) today limit)
      ∈ sent t ∧
    (∀ target m, (target, m) ∈ sent t → target = "telegram"%string) ∧
    generation_requests t = [] ∧
    _pending_requests σ' = _pending_requests σ ∧
    heap σ' = heap σ ∧
    _sessions σ' = _sessions σ.
Proof.
  intros Hget Hne Hsys Hstatus Hauth Hid Hwarn Hexp Hunl Hdeny uid today limit.
  unfold handle_message, handle_limit_response.
  rewrite Hstatus, Hauth. cbn [orb].
  rewrite bind_read, Hid, (present_Some _ _ _ Hne Hget).
  rewrite (bind_pop_limit _ pending) by done.
  set (σ1 := set_pending_limits _ σ).
  assert (actor_system σ1 = true) as Hsys1 by done.
  rewrite Hunl. rewrite (bool_decide_eq_true_2 _ Hdeny). cbn [andb negb].
  fold uid today limit.
  destruct (approaching_limit verdict);
    [destruct Hwarn as [[remaining Hrem] [lim Hlim]]; [done|];
     rewrite Hrem, Hlim|];
    (destruct (subscription_expiring verdict);
     [destruct Hexp as [days Hdays]; [done|]; rewrite Hdays|]);
    unfold index; mnorm;
    eexists _, _; (split; [reflexivity|]);
    (split; [reflexivity|]); (split; [apply get_remove_eq|]);
    (split; [reflexivity|]);
    (split; [apply list_elem_of_In; simpl; tauto|]);
    (split; [|done]);
    intros target m Hin%list_elem_of_In; simpl in Hin;
    repeat (destruct Hin as [[= <- <-]|Hin]; [reflexivity|]);
    destruct Hin.
Qed.

End Verdict.

Lemma denied_verdict_stops_the_turn_witness :
  let env := sample_env "talk" (false, "recent"%string) in
  let σ := sample_actor sample_request in
  let verdict :=
    {| is_status_check := false; is_auth_check := false;
       lp_request_id := Some "id0"%string; approaching_limit := true;
       messages_remaining := Some 0; lp_limit := Some 10;
       subscription_expiring := true; days_remaining := Some 3;
       unlimited := Some false; messages_today := Some 10 |} in
  get "id0" (_pending_limits σ) = Some sample_limit ∧
  (approaching_limit verdict = true ∧
   is_Some (messages_remaining verdict) ∧ is_Some (lp_limit verdict)) ∧
  (subscription_expiring verdict = true ∧
   is_Some (days_remaining verdict)) ∧
  ∃ t, handle_message env settings (LIMIT_RESPONSE verdict) 5 σ =
         (Ok tt, set_pending_limits [] σ, t) ∧
       appended t = [LimitExceededEvent "42" 10 10] ∧
       sent t =
         [("telegram"%string, BOT_RESPONSE "42" 7 "limit_warning");
          ("telegram"%string, BOT_RESPONSE "42" 7 "subscription_expiring");
          ("telegram"%string, LIMIT_EXCEEDED "42" 7 10 10)].
Proof.
  intros env σ verdict. split; [reflexivity|].
  assert (is_Some (messages_remaining verdict) ∧ is_Some (lp_limit verdict))
    as Hfigures by (split; eexists; reflexivity).
  assert (is_Some (days_remaining verdict)) as Hdays
    by (eexists; reflexivity).
  split; [split; [reflexivity | exact Hfigures]|].
  split; [split; [reflexivity | exact Hdays]|].
  destruct (denied_verdict_stops_the_turn env settings "id0" sample_limit
              verdict 5 σ eq_refl ltac:(discriminate) eq_refl eq_refl
              eq_refl eq_refl (fun _ => Hfigures) (fun _ => Hdays) eq_refl
              ltac:(vm_compute; discriminate))
    as (σ' & t & Hrun & -> & _ & Hev & _).
  exists t. split; [exact Hrun|]. split; [exact Hev|].
  vm_compute in Hrun. injection Hrun as <-. reflexivity.
Defined.

(** C8 read for every denying verdict with a matching id fails in two
    ways.  The first verdict denies (10 of 10 messages used) and carries
    the id of the pending limit check, but it is a status check: it is
    skipped and the record stays.  The second is not flagged and denies as
    well, but it flags the approaching limit without
    [messages_remaining]: the record is removed and the handler ends in a
    key error, with no event and no notice. *)
Lemma denying_verdict_is_not_always_refused :
  let env := sample_env "talk" (false, "recent"%string) in
  let σ := sample_actor sample_request in
  let flagged := sample_verdict true "id0" 10 in
  let unfigured :=
    {| is_status_check := false; is_auth_check := false;
       lp_request_id := Some "id0"%string; approaching_limit := true;
       messages_remaining := None; lp_limit := Some 10;
       subscription_expiring := false; days_remaining := None;
       unlimited := Some false; messages_today := Some 10 |} in
  handle_message env settings (LIMIT_RESPONSE flagged) 5 σ = (Ok tt, σ, []) ∧
  handle_message env settings (LIMIT_RESPONSE unfigured) 5 σ =
    (Raised (KeyError "messages_remaining"), set_pending_limits [] σ, []) ∧
  ¬ every_denying_verdict_consumes_the_check.
Proof.
  intros env σ flagged unfigured.
  split; [reflexivity|]. split; [reflexivity|].
  intros Hclaim.
  destruct (Hclaim env settings σ "id0"%string sample_limit unfigured 5
              (Raised (KeyError "messages_remaining"))
              (set_pending_limits [] σ) [])
    as [_ (uid & today & limit & Hin)];
    try reflexivity; try discriminate.
  by apply elem_of_nil in Hin.
Qed.

(** * Runs and the cap on the mode history *)

Section Runs.

Context (env : Collaborators) (cfg : Settings).

Lemma run_evolves inputs σ σ' t :
  run env cfg inputs σ = (σ', t) → evolves env cfg σ σ'.
Proof.
  revert σ σ' t. induction inputs as [|[i now] rest IH]; intros σ σ' t; simpl.
  - intros [= <- <-]. apply evolves_refl.
  - destruct (step env cfg i now σ) as [[r σ1] t1] eqn:Estep.
    destruct (run env cfg rest σ1) as [σ2 t2] eqn:Erun.
    intros [= <- <-]. eapply evolves_trans.
    + by eapply step_evolves.
    + by eapply IH.
Qed.

Lemma run_well_formed inputs attached σ t :
  run env cfg inputs (init attached) = (σ, t) → well_formed env σ.
Proof.
  intros Hrun. eapply well_formed_evolves; [apply well_formed_init|].
  by eapply run_evolves.
Qed.

Lemma push_mode_room new_mode history :
  (length history < MODE_HISTORY_SIZE cfg)%nat →
  push_mode cfg new_mode history = history ++ [new_mode].
Proof.
  intros H. unfold push_mode. rewrite bool_decide_eq_false_2; [done|].
  rewrite length_app. simpl. lia.
Qed.

Lemma push_mode_full new_mode oldest history :
  (MODE_HISTORY_SIZE cfg ≤ length (oldest :: history))%nat →
  push_mode cfg new_mode (oldest :: history) = history ++ [new_mode].
Proof.
  intros H. unfold push_mode. rewrite bool_decide_eq_true_2; [done|].
  rewrite length_app. simpl in *. lia.
Qed.

(** C9. In every run of the actor, every session's mode history stays
    within [MODE_HISTORY_SIZE]; a continued turn replaces the history of
    its session by [push_mode] of the detected mode, which appends the mode
    while there is room and otherwise drops the oldest entry and keeps the
    others, in order, before the new one. *)
Theorem mode_history_respects_cap :
  (∀ inputs attached σ t,
     run env cfg inputs (init attached) = (σ, t) → history_bounded cfg σ) ∧
  (∀ pending now s σ,
     heap σ !! pl_session pending = Some s →
     actor_system σ = true →
     validate_mode
       (fst (fst (_determine_generation_mode env (pl_text pending) s)))
       = true →
     validate_confidence
       (snd (fst (_determine_generation_mode env (pl_text pending) s)))
       = true →
     ∃ σ' t s',
       _continue_message_processing env cfg pending now σ = (Ok tt, σ', t) ∧
       heap σ' !! pl_session pending = Some s' ∧
       mode_history s' =
         push_mode cfg
           (fst (fst (_determine_generation_mode env (pl_text pending) s)))
           (mode_history s)) ∧
  (∀ new_mode history,
     ((length history < MODE_HISTORY_SIZE cfg)%nat →
      push_mode cfg new_mode history = history ++ [new_mode]) ∧
     (∀ oldest rest,
        history = oldest :: rest →
        (MODE_HISTORY_SIZE cfg ≤ length history)%nat →
        push_mode cfg new_mode history = rest ++ [new_mode]) ∧
     ((length history ≤ MODE_HISTORY_SIZE cfg)%nat →
      (length (push_mode cfg new_mode history) ≤ MODE_HISTORY_SIZE cfg)%nat)).
Proof.
  split; [|split].
  - intros inputs attached σ t Hrun.
    apply (ev_bounded _ _ _ _ (run_evolves _ _ _ _ Hrun)).
    apply Forall_nil_2.
  - intros pending now s σ Hs Hsys Hmode Hconf.
    destruct (continue_eval env cfg pending now s σ Hs Hsys Hmode Hconf)
      as (t & Hrun & _).
    eexists _, t, _. split; [exact Hrun|]. split.
    + unfold continued_actor. simpl. apply list_lookup_insert_eq.
      by eapply lookup_lt_Some.
    + unfold continued_session.
      destruct (_determine_generation_mode env (pl_text pending) s)
        as [[new_mode confidence] details]. simpl.
      by case_bool_decide.
  - intros new_mode history. split; [apply push_mode_room|]. split.
    + intros oldest rest -> H. by apply push_mode_full.
    + apply push_mode_bounded.
Qed.

End Runs.

Lemma mode_history_respects_cap_witness :
  let env := sample_env "expert" (false, "recent"%string) in
  let full := ["talk"; "talk"; "base"; "talk"; "creative"]%string in
  let s := set_mode_history full (new_session "42" None 0) in
  let σ := set_heap [s] (sample_actor sample_request) in
  heap σ !! pl_session sample_limit = Some s ∧
  (MODE_HISTORY_SIZE settings ≤ length full)%nat ∧
  ∃ σ' t s',
    _continue_message_processing env settings sample_limit 5 σ =
      (Ok tt, σ', t) ∧
    heap σ' !! pl_session sample_limit = Some s' ∧
    mode_history s' = ["talk"; "base"; "talk"; "creative"; "expert"]%string.
Proof.
  intros env full s σ. split; [reflexivity|]. split; [simpl; lia|].
  destruct (mode_history_respects_cap env settings) as (_ & Hturn & Hpush).
  destruct (Hturn sample_limit 5 s σ) as (σ' & t & s' & Hrun & Hs' & Hhist);
    [reflexivity | reflexivity | reflexivity | reflexivity |].
  exists σ', t, s'. split; [exact Hrun|]. split; [exact Hs'|].
  rewrite Hhist.
  destruct (Hpush "expert"%string full) as (_ & Hfull & _).
  change (push_mode settings "expert" full =
          ["talk"; "base"; "talk"; "creative"]%string ++ ["expert"%string]).
  apply (Hfull "talk"%string); [reflexivity | simpl; lia].
Defined.

(** * The payload of the generation request *)

(** C4, at the input where it fails.  With the LTM switch on (the value of
    [config/settings.py]) and a turn for which the LTM policy answers "not
    needed", the continuation stores [None] under [ltm_memories]; the
    readiness check reads it with [pending.get('ltm_memories', [])], whose
    default does not apply to a key that is present, and the one generation
    request of the happy path carries [None], not the empty list.  With the
    switch off the key is never written and the same run carries the empty
    list. *)
Theorem unrequested_ltm_is_dispatched_as_none :
  let env := sample_env "talk" (false, "recent"%string) in
  LTM_REQUEST_ENABLED settings = true ∧
  (∃ payload,
     generation_requests (snd (run env settings happy_path (init true)))
       = [payload] ∧
     gp_historical_context payload = Some ["hello"%string] ∧
     gp_ltm_memories payload = Some None) ∧
  (∃ payload,
     generation_requests
       (snd (run env settings_without_ltm happy_path (init true)))
       = [payload] ∧
     gp_historical_context payload = Some ["hello"%string] ∧
     gp_ltm_memories payload = Some (Some [])).
Proof.
  intros env. split; [reflexivity|].
  split; eexists; (split; [vm_compute; reflexivity|]); split; reflexivity.
Qed.

(** * The sweep *)

Section ExpiredKeys.

Context {V : Type} (timestamp : V → Time) (timeout : Z) (now : Time).

Lemma expired_keys_spec (d : dict V) k :
  NoDup (keys d) →
  k ∈ expired_keys timestamp timeout now d ↔
  ∃ p, get k d = Some p ∧ now - timestamp p > timeout.
Proof.
  unfold expired_keys. induction d as [|[k' v] d IH]; simpl.
  - intros _. split; [by intros ?%elem_of_nil | by intros (p & ? & _)].
  - intros [Hnin Hnd]%NoDup_cons. specialize (IH Hnd).
    destruct (String.eqb_spec k k') as [->|Hne].
    + case_bool_decide as Hexp; simpl.
      * split; [intros _; eauto|]. intros _. left.
      * rewrite IH. split.
        -- intros (p & Hp & _). by apply get_Some_keys in Hp.
        -- intros (p & [= ->] & ?). done.
    + case_bool_decide; simpl; rewrite ?elem_of_cons, IH; [|done].
      split; [intros [?|?]; done | by right].
Qed.

Lemma expired_keys_sublist (d : dict V) :
  sublist (expired_keys timestamp timeout now d) (keys d).
Proof.
  unfold expired_keys. induction d as [|[k' v] d IH]; simpl; [done|].
  case_bool_decide; simpl; by constructor.
Qed.

Lemma NoDup_expired_keys (d : dict V) :
  NoDup (keys d) → NoDup (expired_keys timestamp timeout now d).
Proof. intros H. eapply sublist_NoDup; [done | apply expired_keys_sublist]. Qed.

End ExpiredKeys.

Section RemoveAll.

Context {V : Type}.
Implicit Types (d : dict V).

Lemma get_remove_all_in ks k d : k ∈ ks → get k (remove_all ks d) = None.
Proof.
  revert d. induction ks as [|k' ks IH]; intros d; simpl.
  - by intros ?%elem_of_nil.
  - intros [->|Hin]%elem_of_cons; [|by apply IH].
    destruct (decide (k' ∈ ks)); [by apply IH|].
    clear IH. revert d. induction ks as [|k2 ks IH2]; intros d; simpl.
    + apply get_remove_eq.
    + apply not_elem_of_cons in n as [Hne Hnin].
      assert (remove k2 (remove k' d) = remove k' (remove k2 d)) as ->.
      { clear. induction d as [|[k0 v0] d IH]; simpl; [done|].
        destruct (String.eqb k' k0) eqn:E1, (String.eqb k2 k0) eqn:E2;
          simpl; rewrite ?E1, ?E2; congruence. }
      by apply IH2.
Qed.

Lemma get_remove_all_notin ks k d :
  k ∉ ks → get k (remove_all ks d) = get k d.
Proof.
  revert d. induction ks as [|k' ks IH]; intros d; simpl; [done|].
  intros [Hne Hnin]%not_elem_of_cons. rewrite IH by done.
  by apply get_remove_ne.
Qed.

Lemma omap_ext_in {A B} (f g : A → option B) (l : list A) :
  (∀ x, x ∈ l → f x = g x) → omap f l = omap g l.
Proof.
  induction l as [|x l IH]; intros H; csimpl; [done|].
  rewrite (H x) by left. rewrite IH; [done|]. intros y Hy. apply H. by right.
Qed.

Lemma omap_length_le {A B} (f : A → option B) (l : list A) :
  (length (omap f l) ≤ length l)%nat.
Proof.
  induction l as [|x l IH]; csimpl; [done|]. destruct (f x); simpl; lia.
Qed.

End RemoveAll.

Section Sweep.

Context (env : Collaborators) (cfg : Settings).

Lemma generation_requests_app t1 t2 :
  generation_requests (t1 ++ t2) =
    generation_requests t1 ++ generation_requests t2.
Proof. apply omap_app. Qed.

Lemma not_generation_requests t :
  Forall not_generation t → generation_requests t = [].
Proof.
  induction 1 as [|e t He _ IH]; simpl; [done|].
  destruct e as [target [] | |]; simpl in *; try done.
  destruct (String.eqb_spec target "generation"); done.
Qed.

Lemma generation_requests_log lvl l t :
  generation_requests (Log lvl l :: t) = generation_requests t.
Proof. done. Qed.

Lemma generation_requests_send p t :
  generation_requests (Send "generation" (GENERATE_RESPONSE p) :: t) =
    p :: generation_requests t.
Proof. done. Qed.

Lemma sent_log lvl l t : sent (Log lvl l :: t) = sent t.
Proof. done. Qed.

Lemma sent_send target m t : sent (Send target m :: t) = (target, m) :: sent t.
Proof. done. Qed.

Lemma expire_requests_eval l σ :
  actor_system σ = true →
  NoDup l →
  (∀ k, k ∈ l → is_Some (get k (_pending_requests σ))) →
  ∃ t,
    for_each l expire_request σ =
      (Ok tt, set_pending_requests (remove_all l (_pending_requests σ)) σ,
       t) ∧
    generation_requests t =
      omap (fun k => timeout_payload <$> get k (_pending_requests σ)) l ∧
    sent t = (fun p => ("generation"%string, GENERATE_RESPONSE p)) <$>
               generation_requests t ∧
    without_logs t = (fun p => Send "generation" (GENERATE_RESPONSE p)) <$>
                       generation_requests t.
Proof.
  intros Hsys. revert σ Hsys.
  induction l as [|k l IH]; intros σ Hsys Hnd Hall; simpl.
  - eexists. split; [by destruct σ|]. done.
  - apply NoDup_cons in Hnd as [Hnin Hnd].
    destruct (Hall k) as [p Hp]; [left|].
    unfold expire_request at 1.
    rewrite bind_assoc, (bind_pop_request _ p) by done.
    rewrite bind_assoc, bind_log, bind_send_if_system by done.
    set (σ1 := set_pending_requests _ σ).
    destruct (IH σ1) as (t & -> & Hgen & Hsent & Hlogs); [done | done | |].
    { intros k' Hk'. simpl. rewrite get_remove_ne by congruence.
      apply Hall. by right. }
    rewrite !emitting_triple.
    exists (Log WARNING (ContextRequestTimeout (pr_user_id p))
            :: Send "generation" (GENERATE_RESPONSE (timeout_payload p))
            :: t).
    split; [reflexivity|].
    rewrite generation_requests_log, generation_requests_send.
    assert (omap (fun k0 => timeout_payload <$> get k0 (_pending_requests σ1))
              l =
            omap (fun k0 => timeout_payload <$> get k0 (_pending_requests σ))
              l) as Hsame.
    { apply omap_ext_in. intros k' Hk'. subst σ1. simpl.
      by rewrite get_remove_ne by congruence. }
    rewrite sent_log, sent_send, Hsent, Hgen, Hp, Hsame.
    split; [done|]. split; [done|].
    change (without_logs (?a :: ?b :: t)) with (b :: without_logs t).
    by rewrite Hlogs, Hgen, Hsame.
Qed.

Lemma expire_limits_not_generation now l σ r σ' t :
  for_each l (expire_limit env cfg now) σ = (r, σ', t) →
  Forall not_generation t ∧ evolves env cfg σ σ'.
Proof.
  intros Hrun.
  pose proof (keeps_for_each not_generation (evolves env cfg σ) l
                (expire_limit env cfg now)
                (fun k _ => keeps_expire_limit env cfg not_generation _
                              (stable_evolves env cfg _ σ (fun _ H => H))
                              now k)
                σ r σ' t (evolves_refl env cfg σ) Hrun) as [Ht H].
  split; [done|]. by destruct r.
Qed.

(** The sweep, phase by phase: the expired generation records go first,
    each with its request; what follows sends nothing to generation and
    only adds records under newly drawn identifiers. *)
Lemma cleanup_eval now σ :
  well_formed env σ →
  actor_system σ = true →
  let expired :=
    expired_keys pr_timestamp (STM_CONTEXT_REQUEST_TIMEOUT cfg) now
      (_pending_requests σ) in
  let σ1 :=
    set_pending_requests (remove_all expired (_pending_requests σ)) σ in
  ∃ r σ' t,
    _cleanup_expired_requests env cfg now σ = (r, σ', t) ∧
    generation_requests t = timeout_requests cfg now (_pending_requests σ) ∧
    evolves env cfg σ1 σ'.
Proof.
  intros Hwf Hsys expired σ1. unfold _cleanup_expired_requests.
  rewrite bind_read. fold expired.
  destruct (expire_requests_eval expired σ) as (t1 & Hrun1 & Hgen1 & _ & _).
  - done.
  - apply NoDup_expired_keys, Hwf.
  - intros k Hk. apply expired_keys_spec in Hk as (p & -> & _); [eauto|].
    apply Hwf.
  - rewrite (bind_emitting _ _ _ _ _ _ Hrun1). fold σ1. rewrite bind_read.
    destruct (for_each _ (expire_limit env cfg now) σ1) as [[r σ'] t2] eqn:E2.
    apply expire_limits_not_generation in E2 as [Ht2 Hev].
    rewrite emitting_triple. eexists _, _, _. split; [reflexivity|].
    split; [|done].
    by rewrite generation_requests_app, (not_generation_requests _ Ht2),
      app_nil_r.
Qed.

Lemma allocated_not_newly σ σ' k :
  uuid_injective env →
  drawn_between env 0 (uuid_drawn σ) k →
  ¬ drawn_between env (uuid_drawn σ) (uuid_drawn σ') k.
Proof.
  intros Hinj (n & Hn & ->) (n' & Hn' & Heq). apply Hinj in Heq. lia.
Qed.

(** C3, as the code has it.  The sweep removes every pending generation
    record older than the context-request timeout and sends one generation
    request for it, with an empty STM context; the request is built by
    [timeout_payload] and has no [ltm_memories] key, whatever memories or
    vector the record had accumulated. *)
Theorem sweep_completes_expired_requests (rid : string) (p : PendingRequest)
    (now : Time) (σ : Actor) :
  well_formed env σ →
  uuid_injective env →
  actor_system σ = true →
  get rid (_pending_requests σ) = Some p →
  now - pr_timestamp p > STM_CONTEXT_REQUEST_TIMEOUT cfg →
  ∃ r σ' t,
    _cleanup_expired_requests env cfg now σ = (r, σ', t) ∧
    get rid (_pending_requests σ') = None ∧
    timeout_payload p ∈ generation_requests t ∧
    generation_requests t = timeout_requests cfg now (_pending_requests σ) ∧
    gp_historical_context (timeout_payload p) = Some [] ∧
    gp_ltm_memories (timeout_payload p) = None.
Proof.
  intros Hwf Hinj Hsys Hget Hold.
  destruct (cleanup_eval now σ Hwf Hsys) as (r & σ' & t & Hrun & Hgen & Hev).
  assert (rid ∈ expired_keys pr_timestamp (STM_CONTEXT_REQUEST_TIMEOUT cfg)
                  now (_pending_requests σ)) as Hexpired.
  { apply expired_keys_spec; [apply Hwf | eauto]. }
  exists r, σ', t. split; [done|]. split; [|split; [|done]].
  - apply get_None_keys. intros [Hin|Hnew]%(ev_requests _ _ _ _ Hev).
    + apply keys_get in Hin as [q Hq]. simpl in Hq.
      by rewrite get_remove_all_in in Hq.
    + eapply (allocated_not_newly σ); [done | | exact Hnew].
      apply Hwf. by eapply get_Some_keys.
  - rewrite Hgen. unfold timeout_requests. apply list_elem_of_omap.
    exists rid. split; [done|]. by rewrite Hget.
Qed.

End Sweep.

Lemma sample_env_injective mode ltm : uuid_injective (sample_env mode ltm).
Proof.
  intros m n H. simpl in H. injection H as H. by apply pretty_nat_inj in H.
Qed.

Lemma sample_actor_well_formed mode ltm p :
  well_formed (sample_env mode ltm) (sample_actor p).
Proof.
  constructor; simpl.
  - apply NoDup_singleton.
  - apply NoDup_singleton.
  - intros k ->%list_elem_of_singleton. exists 1%nat. split; [lia | done].
  - intros k ->%list_elem_of_singleton. exists 0%nat. split; [lia | done].
Qed.

Lemma sweep_completes_expired_requests_witness :
  let env := sample_env "talk" (false, "recent"%string) in
  let p := sample_request_with_memories in
  let σ := sample_actor p in
  ltm_memories p = Some (Some ["a memory"%string]) ∧
  seconds 31 - pr_timestamp p > STM_CONTEXT_REQUEST_TIMEOUT settings ∧
  ∃ r σ' t payload,
    _cleanup_expired_requests env settings (seconds 31) σ = (r, σ', t) ∧
    get "id1" (_pending_requests σ') = None ∧
    generation_requests t = [payload] ∧
    gp_historical_context payload = Some [] ∧
    gp_ltm_memories payload = None.
Proof.
  intros env p σ. split; [reflexivity|]. split; [reflexivity|].
  destruct (sweep_completes_expired_requests env settings "id1" p
              (seconds 31) σ)
    as (r & σ' & t & Hrun & Hgone & _ & Hgen & Hctx & Hltm);
    [apply sample_actor_well_formed | apply sample_env_injective
    | reflexivity | reflexivity | reflexivity |].
  exists r, σ', t, (timeout_payload p).
  split; [exact Hrun|]. split; [exact Hgone|]. split; [exact Hgen|].
  split; [exact Hctx | exact Hltm].
Defined.

(** * The sweep of the limit checks *)

Section LimitSweep.

Context (env : Collaborators) (cfg : Settings).


(** Both ways of continuing a turn run the same continuation on the same
    actor; they differ by one log line. *)
Lemma expire_limit_eval now rid p σ :
  get rid (_pending_limits σ) = Some p →
  AUTH_FALLBACK_TO_DEMO cfg = true →
  expire_limit env cfg now rid σ =
    emitting [Log WARNING (LimitCheckTimeout (pl_user_id p))]
      (_continue_message_processing env cfg p now
         (set_pending_limits (remove rid (_pending_limits σ)) σ)).
Proof.
  intros Hget Hdemo. unfold expire_limit.
  by rewrite (bind_pop_limit _ p), bind_log, Hdemo.
Qed.




End LimitSweep.

Lemma sample_env_nonempty mode ltm : uuid_nonempty (sample_env mode ltm).
Proof. intros n. done. Qed.

Lemma sample_env_valid ltm : detector_valid (sample_env "talk" ltm).
Proof. intros text s. split; reflexivity. Qed.


(** * Unknown replies and at-most-once resolution *)

Section Unknown.

Context (env : Collaborators) (cfg : Settings).

Lemma unknown_present {V} (request_id : option string) (table : dict V) :
  unknown request_id table → present request_id table = None.
Proof.
  intros Hunk. unfold present, truthy_id.
  destruct request_id as [[|c s]|]; try done.
  unfold mem. by rewrite (Hunk _ eq_refl).
Qed.

Lemma unknown_context_ignored p now σ :
  unknown (cp_request_id p) (_pending_requests σ) →
  handle_message env cfg (CONTEXT_RESPONSE p) now σ =
    (Ok tt, σ, [Log WARNING (UnknownContextId (cp_request_id p))]).
Proof.
  intros H. simpl. unfold handle_context_response.
  by rewrite bind_read, unknown_present.
Qed.

Lemma unknown_ltm_ignored p now σ :
  unknown (ltm_request_id p) (_pending_requests σ) →
  handle_message env cfg (LTM_RESPONSE p) now σ =
    (Ok tt, σ, [Log WARNING (UnknownLtmId (ltm_request_id p))]).
Proof.
  intros H. simpl. unfold handle_ltm_response.
  by rewrite bind_read, unknown_present.
Qed.

Lemma unknown_embedding_ignored p now σ :
  unknown (ep_request_id p) (_pending_requests σ) →
  handle_message env cfg (EMBEDDING_RESPONSE p) now σ =
    (Ok tt, σ, [Log WARNING (UnknownEmbeddingId (ep_request_id p))]).
Proof.
  intros H. simpl. unfold handle_embedding_response.
  by rewrite bind_read, unknown_present.
Qed.

Lemma unknown_limit_ignored p now σ :
  unknown (lp_request_id p) (_pending_limits σ) →
  handle_message env cfg (LIMIT_RESPONSE p) now σ =
    (Ok tt, σ,
     if is_status_check p || is_auth_check p then []
     else [Log WARNING (UnknownLimitId (lp_request_id p))]).
Proof.
  intros H. simpl. unfold handle_limit_response.
  destruct (_ || _); [done|]. by rewrite bind_read, unknown_present.
Qed.

End Unknown.

(** C2, as worded, fails on a flagged verdict: it carries an id that is in
    no table and it is skipped without a log line. *)
Lemma flagged_unknown_verdict_is_not_logged :
  ¬ every_unknown_reply_is_logged.
Proof.
  intros Hclaim.
  destruct (Hclaim (sample_env "talk" (false, "recent"%string)) settings
              (init true) 5 (sample_verdict true "id7" 3) (Ok tt) (init true)
              [])
    as [line Hline]; [done | reflexivity |].
  by apply elem_of_nil in Hline.
Qed.

Section Once.

Context (env : Collaborators) (cfg : Settings).

Lemma stable_detached :
  stable env cfg not_a_message (fun σ => actor_system σ = false).
Proof. constructor; try done. intros σ target m H1 H2. congruence. Qed.

Lemma admits_generation_detached :
  admits_generation not_a_message (fun σ => actor_system σ = false).
Proof. intros σ m H1 H2. congruence. Qed.

Lemma step_detached_silent i now σ r σ' t :
  actor_system σ = false →
  step env cfg i now σ = (r, σ', t) →
  generation_requests t = [].
Proof.
  intros Hsys Hstep.
  destruct (keeps_step_input env cfg not_a_message _ stable_detached
              admits_generation_detached i now σ r σ' t Hsys Hstep)
    as [Ht _].
  apply not_generation_requests. eapply Forall_impl; [exact Ht|].
  by intros [target m| |].
Qed.

Lemma elem_of_resolved_ids {V} (before after : dict V) k :
  k ∈ resolved_ids before after ↔ k ∈ keys before ∧ get k after = None.
Proof.
  unfold resolved_ids. rewrite !list_elem_of_In, List.filter_In.
  unfold mem. destruct (get k after); simpl; intuition congruence.
Qed.

Lemma NoDup_resolved_ids {V} (before after : dict V) :
  NoDup (keys before) → NoDup (resolved_ids before after).
Proof.
  intros H. apply NoDup_ListNoDup, List.NoDup_filter.
  by apply NoDup_ListNoDup.
Qed.

Lemma resolved_ids_length {V} (before after : dict V) k :
  k ∈ keys before → get k after = None →
  (1 ≤ length (resolved_ids before after))%nat.
Proof.
  intros Hin Hnone.
  assert (k ∈ resolved_ids before after) as Hk
    by by apply elem_of_resolved_ids.
  destruct (resolved_ids before after); [by apply elem_of_nil in Hk|].
  simpl. lia.
Qed.

Lemma check_dispatch_bound rid q now σ r σ' t :
  get rid (_pending_requests σ) = Some q →
  actor_system σ = true →
  _check_ready_to_generate cfg rid now σ = (r, σ', t) →
  generation_requests t = [] ∨
  (length (generation_requests t) = 1%nat ∧
   get rid (_pending_requests σ') = None).
Proof.
  intros Hget Hsys Hrun.
  destruct (check_ready_spec cfg rid q now σ Hget Hsys) as (t' & Heq & Ht & _).
  rewrite Hrun in Heq. injection Heq as -> -> ->.
  rewrite sent_generation_requests, Ht. unfold check_sends, check_state.
  destruct (awaiting_embedding q).
  - left. by destruct (embedding_timed_out cfg q now).
  - destruct (ready cfg q now); [right | by left].
    split; [done|]. simpl. apply get_remove_eq.
Qed.

Lemma generation_requests_emitting_log lvl line
    (x : Result unit * Actor * list Effect) :
  generation_requests (snd (emitting [Log lvl line] x)) =
    generation_requests (snd x).
Proof. by destruct x as [[r σ] t]. Qed.

(** One input sends at most as many generation requests as it removes
    generation records. *)
Lemma step_dispatch_bound i now σ r σ' t :
  well_formed env σ →
  uuid_injective env →
  step env cfg i now σ = (r, σ', t) →
  (length (generation_requests t) ≤
   length (resolved_ids (_pending_requests σ) (_pending_requests σ')))%nat.
Proof.
  intros Hwf Hinj Hstep.
  destruct (actor_system σ) eqn:Hsys;
    [|rewrite (step_detached_silent _ _ _ _ _ _ Hsys Hstep); simpl; lia].
  assert (∀ m, keeps not_generation (evolves env cfg σ) m →
               m σ = (r, σ', t) →
               (length (generation_requests t) ≤
                length (resolved_ids (_pending_requests σ)
                          (_pending_requests σ')))%nat) as Hquiet.
  { intros m Hm Hrun.
    destruct (Hm σ r σ' t (evolves_refl env cfg σ) Hrun) as [Ht _].
    rewrite (not_generation_requests _ Ht). simpl. lia. }
  pose proof (stable_evolves env cfg not_generation σ (fun _ H => H)) as HS.
  assert (∀ rid q line σ0,
            get rid (_pending_requests σ0) = Some q →
            actor_system σ0 = true →
            keys (_pending_requests σ0) = keys (_pending_requests σ) →
            emitting [Log DEBUG line]
              (_check_ready_to_generate cfg rid now σ0) = (r, σ', t) ∨
            emitting [Log INFO line]
              (_check_ready_to_generate cfg rid now σ0) = (r, σ', t) ∨
            emitting [Log WARNING line]
              (_check_ready_to_generate cfg rid now σ0) = (r, σ', t) →
            (length (generation_requests t) ≤
             length (resolved_ids (_pending_requests σ)
                       (_pending_requests σ')))%nat) as Hcheck.
  { intros rid q line σ0 Hget Hsys0 Hkeys Hrun.
    destruct (_check_ready_to_generate cfg rid now σ0) as [[r0 σ0'] t0] eqn:E.
    assert (generation_requests t = generation_requests t0 ∧ σ' = σ0')
      as [-> ->].
    { destruct Hrun as [Hrun|[Hrun|Hrun]]; by injection Hrun as <- <- <-. }
    destruct (check_dispatch_bound _ _ _ _ _ _ _ Hget Hsys0 E)
      as [->|[-> Hnone]]; [simpl; lia|].
    eapply resolved_ids_length; [|done].
    rewrite <- Hkeys. by eapply get_Some_keys. }
  destruct i as [[p|p|p|p|p]|]; simpl in Hstep.
  - eapply Hquiet; [|done]. apply (keeps_handle_user_message env cfg _ _ HS).
  - unfold handle_context_response in Hstep. rewrite bind_read in Hstep.
    destruct (present _ _) as [rid|] eqn:Hpres.
    + apply present_inv in Hpres as (Hid & Hne & [q Hq]).
      rewrite Hq in Hstep.
      rewrite (bind_update_request _ _ q) in Hstep by done.
      rewrite (bind_update_request _ _ _ _ _ (with_request_get _ _ _))
        in Hstep.
      rewrite with_request_twice, bind_log in Hstep.
      eapply Hcheck; [apply with_request_get | exact Hsys | | left; exact Hstep].
      simpl. apply keys_set_present. by eapply get_Some_keys.
    + injection Hstep as <- <- <-. simpl. lia.
  - unfold handle_ltm_response in Hstep. rewrite bind_read in Hstep.
    destruct (present _ _) as [rid|] eqn:Hpres.
    + apply present_inv in Hpres as (Hid & Hne & [q Hq]).
      rewrite Hq in Hstep.
      assert (keys (_pending_requests
                      (with_request rid
                         (after_ltm (ltm_success p) (ltm_results p) q) σ)) =
              keys (_pending_requests σ)) as Hkeys.
      { simpl. apply keys_set_present. by eapply get_Some_keys. }
      unfold after_ltm in Hkeys. destruct (flag (ltm_success p)).
      * rewrite bind_assoc, (bind_update_request _ _ q), bind_log in Hstep
          by done.
        rewrite (bind_update_request _ _ _ _ _ (with_request_get _ _ _))
          in Hstep.
        rewrite with_request_twice in Hstep.
        eapply Hcheck;
          [apply with_request_get | exact Hsys | exact Hkeys
          | right; left; exact Hstep].
      * rewrite bind_assoc, (bind_update_request _ _ q), bind_log in Hstep
          by done.
        rewrite (bind_update_request _ _ _ _ _ (with_request_get _ _ _))
          in Hstep.
        rewrite with_request_twice in Hstep.
        eapply Hcheck;
          [apply with_request_get | exact Hsys | exact Hkeys
          | right; right; exact Hstep].
    + injection Hstep as <- <- <-. simpl. lia.
  - eapply Hquiet; [|done]. apply (keeps_handle_embedding_response env cfg _ _ HS).
  - eapply Hquiet; [|done]. apply (keeps_handle_limit_response env cfg _ _ HS).
  - unfold cleanup_iteration, try_except in Hstep.
    destruct (cleanup_eval env cfg now σ Hwf Hsys)
      as (r0 & σ0 & t0 & Hrun & Hgen & Hev).
    rewrite Hrun in Hstep.
    assert (generation_requests t = generation_requests t0 ∧ σ' = σ0)
      as [-> ->].
    { destruct r0; injection Hstep as <- <- <-; [done|].
      by rewrite generation_requests_app, app_nil_r. }
    rewrite Hgen. unfold timeout_requests.
    set (expired := expired_keys _ _ _ _).
    etrans; [apply omap_length_le|].
    apply submseteq_length, NoDup_submseteq.
    { apply NoDup_expired_keys, Hwf. }
    intros k Hk. apply elem_of_resolved_ids.
    assert (k ∈ keys (_pending_requests σ)) as Hin.
    { apply expired_keys_spec in Hk as (q & Hq & _); [|apply Hwf].
      by eapply get_Some_keys. }
    split; [done|].
    apply get_None_keys. intros [Hin'|Hnew]%(ev_requests _ _ _ _ Hev).
    + apply keys_get in Hin' as [q Hq]. simpl in Hq.
      by rewrite get_remove_all_in in Hq.
    + eapply (allocated_not_newly env σ); [done | | exact Hnew].
      by apply Hwf.
Qed.

Lemma resolved_then_rest {V} (before after : dict V) (rest : list string)
    (d0 d1 : nat) :
  uuid_injective env →
  NoDup (keys before) →
  (∀ k, k ∈ keys before → drawn_between env 0 d0 k) →
  (d0 ≤ d1)%nat →
  NoDup rest →
  (∀ k, k ∈ rest → k ∈ keys after ∨ not_yet_drawn env d1 k) →
  NoDup (resolved_ids before after ++ rest).
Proof.
  intros Hinj Hnd Hdrawn Hle Hrest Halive. apply NoDup_app.
  split; [by apply NoDup_resolved_ids|]. split; [|done].
  intros k [Hin Hnone]%elem_of_resolved_ids Hk.
  destruct (Halive k Hk) as [Hafter|(n & Hn & ->)].
  - by apply get_None_keys in Hnone.
  - destruct (Hdrawn _ Hin) as (n' & Hn' & Heq). apply Hinj in Heq. lia.
Qed.

Lemma alive_or_future {V} (before after : dict V) (rest : list string)
    (d0 d1 : nat) :
  (∀ k, k ∈ keys after → k ∈ keys before ∨ drawn_between env d0 d1 k) →
  (d0 ≤ d1)%nat →
  (∀ k, k ∈ rest → k ∈ keys after ∨ not_yet_drawn env d1 k) →
  ∀ k, k ∈ resolved_ids before after ++ rest →
       k ∈ keys before ∨ not_yet_drawn env d0 k.
Proof.
  intros Hev Hle Halive k [Hk|Hk]%elem_of_app.
  - left. by apply elem_of_resolved_ids in Hk as [? _].
  - destruct (Halive k Hk) as [Hafter|(n & Hn & ->)].
    + destruct (Hev k Hafter) as [?|(n & Hn & ->)]; [by left|].
      right. exists n. split; [lia | done].
    + right. exists n. split; [lia | done].
Qed.

Lemma resolutions_once inputs σ :
  well_formed env σ →
  uuid_injective env →
  let h := resolutions env cfg inputs σ in
  (NoDup (concat (resolved_requests <$> h)) ∧
   ∀ k, k ∈ concat (resolved_requests <$> h) →
        k ∈ keys (_pending_requests σ) ∨
        not_yet_drawn env (uuid_drawn σ) k) ∧
  (NoDup (concat (resolved_limits <$> h)) ∧
   ∀ k, k ∈ concat (resolved_limits <$> h) →
        k ∈ keys (_pending_limits σ) ∨
        not_yet_drawn env (uuid_drawn σ) k) ∧
  Forall (fun x => (dispatched x ≤ length (resolved_requests x))%nat) h.
Proof.
  intros Hwf Hinj. revert σ Hwf.
  induction inputs as [|[i now] rest IH]; intros σ Hwf; simpl.
  - repeat split; try apply NoDup_nil_2; try apply Forall_nil_2;
      by intros k ?%elem_of_nil.
  - destruct (step env cfg i now σ) as [[r σ1] t1] eqn:Estep. csimpl.
    pose proof (step_evolves env cfg _ _ _ _ _ _ Estep) as Hev.
    pose proof (well_formed_evolves env cfg _ _ Hwf Hev) as Hwf1.
    destruct (IH σ1 Hwf1) as ((Hnd1 & Hal1) & (Hnd2 & Hal2) & Hall).
    split; [|split].
    + split.
      * apply (resolved_then_rest _ _ _ (uuid_drawn σ) (uuid_drawn σ1));
          [exact Hinj | apply Hwf | apply Hwf | apply Hev | exact Hnd1
          | exact Hal1].
      * apply (alive_or_future _ _ _ (uuid_drawn σ) (uuid_drawn σ1));
          [apply Hev | apply Hev | exact Hal1].
    + split.
      * apply (resolved_then_rest _ _ _ (uuid_drawn σ) (uuid_drawn σ1));
          [exact Hinj | apply Hwf | apply Hwf | apply Hev | exact Hnd2
          | exact Hal2].
      * apply (alive_or_future _ _ _ (uuid_drawn σ) (uuid_drawn σ1));
          [apply Hev | apply Hev | exact Hal2].
    + apply Forall_cons. split; [|done]. simpl.
      by eapply step_dispatch_bound.
Qed.

Lemma run_stays_resolved inputs σ σ' t k :
  uuid_injective env →
  drawn_between env 0 (uuid_drawn σ) k →
  run env cfg inputs σ = (σ', t) →
  (get k (_pending_requests σ) = None →
   get k (_pending_requests σ') = None) ∧
  (get k (_pending_limits σ) = None → get k (_pending_limits σ') = None).
Proof.
  intros Hinj Hk Hrun. pose proof (run_evolves env cfg _ _ _ _ Hrun) as Hev.
  split; intros Hnone; apply get_None_keys.
  - intros [Hin|Hnew]%(ev_requests _ _ _ _ Hev).
    + by apply get_None_keys in Hnone.
    + by eapply (allocated_not_newly env σ).
  - intros [Hin|Hnew]%(ev_limits _ _ _ _ Hev).
    + by apply get_None_keys in Hnone.
    + by eapply (allocated_not_newly env σ).
Qed.

(** C2 (as amended).  With an identifier source that never repeats
    itself, in every run of the actor each generation record and each limit
    check is removed by at most one input, and no input sends more
    generation requests than it removes generation records.  A reply whose
    correlation id is in no table changes nothing and sends nothing; it
    leaves one warning in the log, except a verdict flagged as status or
    auth check, which is skipped silently.  An identifier that has been
    issued and is no longer in a table never comes back, so every later
    reply for it is such an unknown reply. *)
Theorem replies_resolve_at_most_once :
  uuid_injective env →
  (∀ inputs attached,
     let h := resolutions env cfg inputs (init attached) in
     NoDup (concat (resolved_requests <$> h)) ∧
     NoDup (concat (resolved_limits <$> h)) ∧
     Forall (fun x => (dispatched x ≤ length (resolved_requests x))%nat) h) ∧
  (∀ σ now,
     (∀ p, unknown (cp_request_id p) (_pending_requests σ) →
           handle_message env cfg (CONTEXT_RESPONSE p) now σ =
             (Ok tt, σ, [Log WARNING (UnknownContextId (cp_request_id p))])) ∧
     (∀ p, unknown (ltm_request_id p) (_pending_requests σ) →
           handle_message env cfg (LTM_RESPONSE p) now σ =
             (Ok tt, σ, [Log WARNING (UnknownLtmId (ltm_request_id p))])) ∧
     (∀ p, unknown (ep_request_id p) (_pending_requests σ) →
           handle_message env cfg (EMBEDDING_RESPONSE p) now σ =
             (Ok tt, σ,
              [Log WARNING (UnknownEmbeddingId (ep_request_id p))])) ∧
     (∀ p, unknown (lp_request_id p) (_pending_limits σ) →
           handle_message env cfg (LIMIT_RESPONSE p) now σ =
             (Ok tt, σ,
              if is_status_check p || is_auth_check p then []
              else [Log WARNING (UnknownLimitId (lp_request_id p))]))) ∧
  (∀ inputs attached σ t rid later σ' t',
     run env cfg inputs (init attached) = (σ, t) →
     drawn_between env 0 (uuid_drawn σ) rid →
     run env cfg later σ = (σ', t') →
     (get rid (_pending_requests σ) = None →
      get rid (_pending_requests σ') = None) ∧
     (get rid (_pending_limits σ) = None →
      get rid (_pending_limits σ') = None)).
Proof.
  intros Hinj. split; [|split].
  - intros inputs attached h.
    destruct (resolutions_once inputs (init attached)
                (well_formed_init env attached) Hinj)
      as ((H1 & _) & (H2 & _) & H3).
    done.
  - intros σ now. split; [|split; [|split]]; intros p Hp.
    + by apply unknown_context_ignored.
    + by apply unknown_ltm_ignored.
    + by apply unknown_embedding_ignored.
    + by apply unknown_limit_ignored.
  - intros inputs attached σ t rid later σ' t' _ Hrid Hlater.
    by eapply run_stays_resolved.
Qed.

End Once.

Lemma replies_resolve_at_most_once_witness :
  let env := sample_env "talk" (false, "recent"%string) in
  let again :=
    happy_path ++
    [(Deliver (CONTEXT_RESPONSE (sample_context_reply ["hello"%string])), 3)]
  in
  uuid_injective env ∧
  (let h := resolutions env settings again (init true) in
   NoDup (concat (resolved_requests <$> h)) ∧
   NoDup (concat (resolved_limits <$> h)) ∧
   Forall (fun x => (dispatched x ≤ length (resolved_requests x))%nat) h) ∧
  length (generation_requests (snd (run env settings again (init true))))
    = 1%nat.
Proof.
  intros env again. split; [apply sample_env_injective|].
  destruct (replies_resolve_at_most_once env settings
              (sample_env_injective _ _)) as (Honce & _ & _).
  split; [apply (Honce again true) | vm_compute; reflexivity].
Defined.

(** * The session registry and the ingestion of a turn *)

Section Ingestion.

Context (env : Collaborators) (cfg : Settings).

Lemma get_or_create_known uid uname now l σ :
  _sessions σ !! uid = Some l →
  _get_or_create_session uid uname now σ = (Ok l, σ, []).
Proof.
  intros H. unfold _get_or_create_session.
  rewrite bind_read. cbv beta. unfold loc in *. by rewrite H.
Qed.

Lemma get_or_create_unknown uid uname now σ :
  _sessions σ !! uid = None →
  _get_or_create_session uid uname now σ =
    (Ok (length (heap σ)),
     set_sessions (<[uid := length (heap σ)]> (_sessions σ))
       (heap σ ++ [new_session uid uname now]) σ,
     [AppendEvent (SessionCreatedEvent uid uname now);
      Log INFO (CreatedSession uid)]).
Proof.
  intros H. unfold _get_or_create_session.
  rewrite bind_read. cbv beta. unfold loc in *. rewrite H.
  rewrite bind_read. cbv beta zeta.
  by rewrite bind_write, bind_append_event, bind_log.
Qed.

Lemma get_or_create_registered uid uname now σ :
  ∃ t,
    _get_or_create_session uid uname now σ =
      (Ok (fst (registered uid uname now σ)),
       snd (registered uid uname now σ), t) ∧
    sent t = [] ∧
    appended t =
      (match _sessions σ !! uid with Some _ => []
       | None => [SessionCreatedEvent uid uname now] end).
Proof.
  unfold registered. destruct (_sessions σ !! uid) as [l|] eqn:E.
  - rewrite (get_or_create_known _ _ _ l) by done. by eexists.
  - rewrite get_or_create_unknown by done. by eexists.
Qed.

Lemma registered_lookup uid uname now σ :
  _sessions (snd (registered uid uname now σ)) !! uid =
    Some (fst (registered uid uname now σ)).
Proof.
  unfold registered. destruct (_sessions σ !! uid) as [l|] eqn:E; simpl.
  - done.
  - apply lookup_insert_eq.
Qed.

Lemma registered_valid uid uname now σ :
  registry_valid σ → registry_valid (snd (registered uid uname now σ)).
Proof.
  intros Hval. unfold registered.
  destruct (_sessions σ !! uid) as [l|] eqn:E; simpl; [done|].
  intros uid' l'. simpl. rewrite lookup_insert.
  case_decide as Heq.
  - intros [= <-]. rewrite lookup_app_r by done.
    rewrite Nat.sub_diag. by eexists.
  - intros [s Hs]%Hval. exists s. by apply lookup_app_l_Some.
Qed.

(** X1. The session registry is idempotent.  A known user gets the
    location of the existing session: nothing is created, nothing is
    emitted, and the display name passed is not stored.  An unknown user
    gets a new session with the field defaults at the end of the heap and
    one session-created event; the sessions and registrations of the other
    users are left as they were.  Whatever the first call did, a second
    call for the same user returns the same location and changes and emits
    nothing. *)
Theorem session_registry_is_idempotent (uid : string) (uname : option string)
    (now : Time) (σ : Actor) :
  (∀ l, _sessions σ !! uid = Some l →
        _get_or_create_session uid uname now σ = (Ok l, σ, [])) ∧
  (_sessions σ !! uid = None →
     ∃ σ1,
       _get_or_create_session uid uname now σ =
         (Ok (length (heap σ)), σ1,
          [AppendEvent (SessionCreatedEvent uid uname now);
           Log INFO (CreatedSession uid)]) ∧
       heap σ1 !! length (heap σ) = Some (new_session uid uname now) ∧
       (∀ l s, heap σ !! l = Some s → heap σ1 !! l = Some s) ∧
       (∀ uid', uid' ≠ uid → _sessions σ1 !! uid' = _sessions σ !! uid') ∧
       _pending_requests σ1 = _pending_requests σ ∧
       _pending_limits σ1 = _pending_limits σ) ∧
  (∀ r σ1 t1,
     _get_or_create_session uid uname now σ = (r, σ1, t1) →
     ∃ l, r = Ok l ∧
          ∀ uname' now',
            _get_or_create_session uid uname' now' σ1 = (Ok l, σ1, [])).
Proof.
  split; [|split].
  - intros l Hl. by apply get_or_create_known.
  - intros Hnone. eexists. split; [by apply get_or_create_unknown|].
    simpl. split; [|split; [|split; [|done]]].
    + rewrite lookup_app_r by done. by rewrite Nat.sub_diag.
    + intros l s Hs. by apply lookup_app_l_Some.
    + intros uid' Hne. by apply lookup_insert_ne.
  - intros r σ1 t1 Hrun.
    destruct (get_or_create_registered uid uname now σ) as (t & Heq & _).
    rewrite Hrun in Heq. injection Heq as -> -> ->.
    eexists. split; [done|]. intros uname' now'.
    apply get_or_create_known, registered_lookup.
Qed.

Lemma registered_frame uid uname now σ :
  uuid_drawn (snd (registered uid uname now σ)) = uuid_drawn σ ∧
  actor_system (snd (registered uid uname now σ)) = actor_system σ ∧
  _pending_requests (snd (registered uid uname now σ)) = _pending_requests σ ∧
  _pending_limits (snd (registered uid uname now σ)) = _pending_limits σ.
Proof. unfold registered. by destruct (_sessions σ !! uid). Qed.

Lemma registered_session uid uname now σ :
  registry_valid σ →
  is_Some (heap (snd (registered uid uname now σ)) !!
             fst (registered uid uname now σ)).
Proof.
  intros Hval. eapply registered_valid; [exact Hval|].
  apply registered_lookup.
Qed.

Lemma handle_user_message_attached p now s σ :
  actor_system σ = true →
  heap (snd (registered (um_user_id p) (um_username p) now σ)) !!
    fst (registered (um_user_id p) (um_username p) now σ) = Some s →
  ∃ t,
    _handle_user_message env p now σ = (Ok tt, ingested env p now s σ, t) ∧
    sent t =
      [("memory"%string,
        STORE_MEMORY (um_user_id p) "user" (um_text p) (um_username p) now);
       ("auth"%string,
        CHECK_LIMIT (um_user_id p) (uuid4 env (uuid_drawn σ)))] ∧
    appended t =
      (match _sessions σ !! um_user_id p with
       | Some _ => []
       | None => [SessionCreatedEvent (um_user_id p) (um_username p) now]
       end).
Proof.
  intros Hsys Hs. unfold _handle_user_message, ingested.
  destruct (get_or_create_registered (um_user_id p) (um_username p) now σ)
    as (t0 & Hreg & Hsent0 & Happ0).
  destruct (registered_frame (um_user_id p) (um_username p) now σ)
    as (Hn & Hsys0 & _ & _).
  destruct (registered (um_user_id p) (um_username p) now σ) as [l σ0].
  cbn [fst snd] in *.
  rewrite (bind_emitting _ _ _ _ _ _ Hreg).
  rewrite (bind_update_session _ s) by exact Hs.
  rewrite bind_send_if_system by (simpl; congruence).
  rewrite bind_fresh_uuid, bind_write.
  rewrite bind_send_message by (simpl; congruence).
  unfold log, emit. rewrite !emitting_triple.
  eexists. split.
  - unfold with_limit. simpl. rewrite Hn. reflexivity.
  - unfold sent, appended in *. rewrite !omap_app, Hsent0, Happ0. simpl.
    by rewrite app_nil_r.
Qed.

Lemma handle_user_message_detached p now s σ :
  actor_system σ = false →
  heap (snd (registered (um_user_id p) (um_username p) now σ)) !!
    fst (registered (um_user_id p) (um_username p) now σ) = Some s →
  ∃ t,
    _handle_user_message env p now σ =
      (Raised AttributeError, ingested env p now s σ, t) ∧
    sent t = [].
Proof.
  intros Hsys Hs. unfold _handle_user_message, ingested.
  destruct (get_or_create_registered (um_user_id p) (um_username p) now σ)
    as (t0 & Hreg & Hsent0 & Happ0).
  destruct (registered_frame (um_user_id p) (um_username p) now σ)
    as (Hn & Hsys0 & _ & _).
  destruct (registered (um_user_id p) (um_username p) now σ) as [l σ0].
  cbn [fst snd] in *.
  rewrite (bind_emitting _ _ _ _ _ _ Hreg).
  rewrite (bind_update_session _ s) by exact Hs.
  unfold send_if_system, when_system.
  rewrite bind_assoc, bind_read. simpl actor_system at 1.
  rewrite Hsys0, Hsys, bind_ret, bind_fresh_uuid, bind_write.
  unfold send_message. rewrite bind_assoc, bind_read. simpl actor_system at 1.
  rewrite Hsys0, Hsys. rewrite bind_raise, emitting_triple.
  eexists. split.
  - unfold with_limit. simpl. rewrite Hn. reflexivity.
  - unfold sent in *. by rewrite app_nil_r.
Qed.

(** X2. Taking in a turn only registers it and asks for the limit check.
    On an actor whose registry is valid the text of the turn is written on
    the session of its user, one fresh id is drawn and the limit check is
    stored under it with the turn and the session.  Attached to an actor
    system, the handler returns after sending exactly two messages, the
    turn to the memory and the limit check carrying that id to the
    authorization actor; no generation record is created and the mode, its
    history and the message count of the session are not touched, so
    nothing of the generation starts before the verdict.  Detached, the
    same state is reached but the handler ends in an attribute error on the
    absent system, after the check has been stored and with nothing
    sent. *)
Theorem turn_ingestion_waits_for_the_verdict (p : UserMessagePayload)
    (now : Time) (σ : Actor) :
  registry_valid σ →
  let l := fst (registered (um_user_id p) (um_username p) now σ) in
  let rid := uuid4 env (uuid_drawn σ) in
  ∃ s σ' r t,
    handle_message env cfg (USER_MESSAGE p) now σ = (r, σ', t) ∧
    heap (snd (registered (um_user_id p) (um_username p) now σ)) !! l
      = Some s ∧
    σ' = ingested env p now s σ ∧
    get rid (_pending_limits σ') = Some (limit_of_turn p l now) ∧
    _pending_requests σ' = _pending_requests σ ∧
    heap σ' !! l = Some (set_last_user_text (Some (um_text p)) s) ∧
    generation_requests t = [] ∧
    (actor_system σ = true →
       r = Ok tt ∧
       sent t =
         [("memory"%string,
           STORE_MEMORY (um_user_id p) "user" (um_text p) (um_username p)
             now);
          ("auth"%string, CHECK_LIMIT (um_user_id p) rid)]) ∧
    (actor_system σ = false → r = Raised AttributeError ∧ sent t = []).
Proof.
  intros Hval l rid.
  destruct (registered_session (um_user_id p) (um_username p) now σ Hval)
    as [s Hs].
  destruct (registered_frame (um_user_id p) (um_username p) now σ)
    as (Hn & Hsys0 & Hreq & Hlim).
  assert (Hstate :
    get rid (_pending_limits (ingested env p now s σ))
      = Some (limit_of_turn p l now) ∧
    _pending_requests (ingested env p now s σ) = _pending_requests σ ∧
    heap (ingested env p now s σ) !! l
      = Some (set_last_user_text (Some (um_text p)) s)).
  { unfold ingested, with_limit. simpl. split; [apply DictFacts.get_set_eq|].
    split; [exact Hreq|]. by apply (with_session_get _ _ s). }
  destruct Hstate as (H1 & H2 & H3).
  destruct (actor_system σ) eqn:Hsys.
  - destruct (handle_user_message_attached p now s σ Hsys Hs)
      as (t & Hrun & Hsent & _).
    exists s, (ingested env p now s σ), (Ok tt), t.
    repeat split; try done.
    by rewrite sent_generation_requests, Hsent.
  - destruct (handle_user_message_detached p now s σ Hsys Hs)
      as (t & Hrun & Hsent).
    exists s, (ingested env p now s σ), (Raised AttributeError), t.
    repeat split; try done.
    by rewrite sent_generation_requests, Hsent.
Qed.

End Ingestion.

Lemma session_registry_is_idempotent_witness :
  let σ := sample_actor sample_request in
  _sessions σ !! "43"%string = None ∧
  ∃ σ1,
    _get_or_create_session "43" (Some "ann"%string) 9 σ =
      (Ok 1%nat, σ1,
       [AppendEvent (SessionCreatedEvent "43" (Some "ann"%string) 9);
        Log INFO (CreatedSession "43")]) ∧
    heap σ1 !! 1%nat = Some (new_session "43" (Some "ann"%string) 9) ∧
    _get_or_create_session "43" None 10 σ1 = (Ok 1%nat, σ1, []).
Proof.
  intros σ. split; [reflexivity|].
  destruct (session_registry_is_idempotent "43" (Some "ann"%string) 9 σ)
    as (_ & Hnew & Hagain).
  destruct (Hnew eq_refl) as (σ1 & Hrun & Hcell & _).
  exists σ1. split; [exact Hrun|]. split; [exact Hcell|].
  destruct (Hagain _ _ _ Hrun) as (l & Hl & Hsame).
  injection Hl as <-. apply Hsame.
Defined.

Lemma sample_actor_registry_valid p : registry_valid (sample_actor p).
Proof.
  intros uid l H. simpl in H.
  apply lookup_singleton_Some in H as [_ <-]. by eexists.
Qed.

Lemma turn_ingestion_waits_for_the_verdict_witness :
  let env := sample_env "talk" (false, EmptyString) in
  let σ := sample_actor sample_request in
  registry_valid σ ∧
  ∃ σ' r t,
    handle_message env settings (USER_MESSAGE sample_turn) 5 σ = (r, σ', t) ∧
    get "id2" (_pending_limits σ') = Some (limit_of_turn sample_turn 0%nat 5) ∧
    _pending_requests σ' = _pending_requests σ ∧
    generation_requests t = [].
Proof.
  intros env σ. split; [apply sample_actor_registry_valid|].
  destruct (turn_ingestion_waits_for_the_verdict env settings sample_turn 5 σ
              (sample_actor_registry_valid _))
    as (s & σ' & r & t & Hrun & _ & _ & Hlim & Hreq & _ & Hgen & _).
  exists σ', r, t. split; [exact Hrun|]. split; [exact Hlim|].
  split; [exact Hreq | exact Hgen].
Defined.

(** * The continuation of a turn: events, legs and rejected detections *)

Section Continuation.

Context (env : Collaborators) (cfg : Settings).

Local Ltac session_step H :=
  first
    [ erewrite bind_update_session
        by (first [exact H | eapply with_session_get; exact H])
    | erewrite bind_get_session
        by (first [exact H | eapply with_session_get; exact H]) ];
  rewrite ?with_session_twice.

Local Ltac request_step :=
  first
    [ rewrite (bind_update_request _ _ _ _ _ (with_request_get _ _ _))
    | rewrite (update_request_eval _ _ _ _ (with_request_get _ _ _)) ];
  rewrite with_request_twice.

Local Ltac absurd_member :=
  repeat match goal with
    | H : ∃ _, _ |- _ => destruct H as [? H]
    | H : _ ∧ _ |- _ => destruct H
    | H : _ ∈ _ |- _ => apply list_elem_of_In in H; simpl in H
    | H : _ ∨ _ |- _ => destruct H as [H|H]
    | H : (_, _) = (_, _) |- _ => discriminate H
    | H : true = false |- _ => discriminate H
    | H : false = true |- _ => discriminate H
    | H : False |- _ => destruct H
    end.

(** The continuation with its events. *)
Lemma continue_events pending now s σ :
  heap σ !! pl_session pending = Some s →
  actor_system σ = true →
  validate_mode
    (fst (fst (_determine_generation_mode env (pl_text pending) s))) = true →
  validate_confidence
    (snd (fst (_determine_generation_mode env (pl_text pending) s))) = true →
  ∃ t,
    _continue_message_processing env cfg pending now σ =
      (Ok tt, continued_actor env cfg pending now s σ, t) ∧
    sent t =
      fan_out env cfg pending (uuid4 env (uuid_drawn σ))
        (continued_session env cfg (pl_text pending) now s) ∧
    appended t = continued_events env cfg pending now s.
Proof.
  intros Hs Hsys Hmode Hconf.
  unfold _continue_message_processing, continued_actor, continued_events,
    continued_session, continued_request, fan_out, ltm_legs,
    assign_current_mode, assign_mode_confidence.
  rewrite bind_log, (bind_when_system _ _ _ Hsys).
  rewrite bind_assoc, bind_deliver, bind_log.
  rewrite (bind_get_session _ s) by done.
  destruct (_determine_generation_mode env (pl_text pending) s)
    as [[new_mode confidence] details].
  simpl in Hmode, Hconf. rewrite bind_write. cbn [snd].
  set (σ1 := set_details details σ).
  assert (heap σ1 !! pl_session pending = Some s) as Hs1 by done.
  rewrite Hmode, Hconf.
  set (s1 := if bool_decide (new_mode ≠ current_mode s)
             then set_current_mode new_mode (set_last_mode_change (Some now) s)
             else s).
  assert (∀ {B} (k : bool → M B),
    bind (if bool_decide (new_mode ≠ current_mode s)
          then update_session (pl_session pending)
                 (set_last_mode_change (Some now)) >>
               update_session (pl_session pending)
                 (set_current_mode new_mode) >>
               ret true
          else ret false) k σ1 =
    k (bool_decide (new_mode ≠ current_mode s))
      (with_session (pl_session pending) s1 σ1)) as Hchange.
  { intros B k. subst s1. case_bool_decide.
    - rewrite !bind_assoc. session_step Hs1. rewrite bind_assoc.
      session_step Hs1. by rewrite bind_ret.
    - rewrite bind_ret. unfold with_session. simpl.
      by rewrite list_insert_id. }
  rewrite Hchange. clear Hchange.
  session_step Hs1. session_step Hs1. rewrite bind_log.
  session_step Hs1.
  set (s3 := set_mode_history _ (set_mode_confidence confidence s1)).
  assert (∀ {B} (k : unit → M B) σ',
    bind (if bool_decide (new_mode ≠ current_mode s)
          then do details0 <- read _last_detection_details;
               append_event
                 (ModeDetectedEvent (pl_user_id pending) new_mode confidence
                    (previous_of (mode_history s3)) details0 now)
          else ret tt) k σ' =
    emitting
      (if bool_decide (new_mode ≠ current_mode s)
       then [AppendEvent
               (ModeDetectedEvent (pl_user_id pending) new_mode confidence
                  (previous_of (mode_history s3))
                  (_last_detection_details σ') now)]
       else []) (k tt σ')) as Hevent.
  { intros B k σ'. case_bool_decide.
    - by rewrite bind_assoc, bind_read, bind_append_event.
    - by rewrite bind_ret, emitting_nil. }
  rewrite Hevent. clear Hevent.
  session_step Hs1. session_step Hs1. session_step Hs1.
  set (s' := set_last_activity now _).
  assert (∀ {B} (k : unit → M B) σ',
    bind (if _should_include_prompt env s'
          then append_event
                 (PromptInclusionEvent (pl_user_id pending)
                    (message_count s') (prompt_strategy env)
                    (_get_prompt_reason env s'))
          else ret tt) k σ' =
    emitting
      (if _should_include_prompt env s'
       then [AppendEvent
               (PromptInclusionEvent (pl_user_id pending)
                  (message_count s') (prompt_strategy env)
                  (_get_prompt_reason env s'))]
       else []) (k tt σ')) as Hprompt.
  { intros B k σ'. destruct (_should_include_prompt env s').
    - by rewrite bind_append_event.
    - by rewrite bind_ret, emitting_nil. }
  rewrite Hprompt. clear Hprompt.
  rewrite bind_fresh_uuid, bind_insert_request.
  rewrite bind_send_message by exact Hsys.
  rewrite bind_log.
  change (uuid_drawn (with_session (pl_session pending) s' σ1))
    with (uuid_drawn σ).
  destruct (LTM_REQUEST_ENABLED cfg).
  - destruct (_should_request_ltm env (pl_text pending) s')
      as [[|] search_type].
    + do 7 request_step.
      destruct (String.eqb search_type "vector").
      * do 2 request_step. rewrite bind_send_message by exact Hsys.
        rewrite log_eval, !emitting_triple.
        eexists. split; [reflexivity|].
        repeat case_bool_decide; destruct (_should_include_prompt env s');
          split; reflexivity.
      * rewrite bind_send_message by exact Hsys.
        rewrite log_eval, !emitting_triple.
        eexists. split; [reflexivity|].
        repeat case_bool_decide; destruct (_should_include_prompt env s');
          split; reflexivity.
    + do 4 request_step.
      rewrite (update_request_eval _ _ _ _ (with_request_get _ _ _)).
      rewrite with_request_twice, !emitting_triple.
      eexists. split; [reflexivity|].
      repeat case_bool_decide; destruct (_should_include_prompt env s');
        split; reflexivity.
  - rewrite ret_eval, !emitting_triple.
    eexists. split; [reflexivity|].
    repeat case_bool_decide; destruct (_should_include_prompt env s');
      split; reflexivity.
Qed.


Lemma previous_of_push_mode (new_mode : string) (history : list string) :
  (2 ≤ MODE_HISTORY_SIZE cfg)%nat →
  previous_of (push_mode cfg new_mode history) = last history.
Proof.
  intros Hcap. unfold push_mode, previous_of, pop0.
  rewrite last_lookup. case_bool_decide as Hfull.
  - rewrite length_tl, lookup_tail, !length_app. rewrite length_app in Hfull.
    simpl in *. rewrite decide_True by lia.
    replace (S (length history + 1 - 1 - 2)) with (pred (length history))
      by lia.
    apply lookup_app_l. lia.
  - rewrite length_app. cbn [length].
    destruct (decide (1 < length history + 1)%nat) as [Hlt|Hge].
    + replace (length history + 1 - 2)%nat with (pred (length history))
        by lia.
      apply lookup_app_l. lia.
    + destruct history; [done | simpl in Hge; lia].
Qed.

Lemma last_push_mode (new_mode : string) (history : list string) :
  (1 ≤ MODE_HISTORY_SIZE cfg)%nat →
  last (push_mode cfg new_mode history) = Some new_mode.
Proof.
  intros Hcap. unfold push_mode, pop0. case_bool_decide as Hfull.
  - rewrite length_app in Hfull. simpl in Hfull.
    destruct history as [|m0 history]; [simpl in *; lia|].
    simpl. apply last_snoc.
  - apply last_snoc.
Qed.

Lemma continued_actor_session pending now s σ :
  heap σ !! pl_session pending = Some s →
  heap (continued_actor env cfg pending now s σ) !! pl_session pending =
    Some (continued_session env cfg (pl_text pending) now s).
Proof.
  intros Hs. unfold continued_actor. simpl.
  apply list_lookup_insert_eq. by eapply lookup_lt_Some.
Qed.

(** X3. What the continuation of a turn does to the session and which
    events it appends.  With a detection the session accepts and a history
    cap of at least two, the session ends with the detected mode and
    confidence, the detected mode as the last entry of its history, one
    more message and the time of the turn as last activity.  The
    mode-detected event is appended exactly when the detected mode differs
    from the mode the session had, and only then is the time of the last
    mode change set; the previous mode it reports is the last entry the
    history had before the turn, so it is none on a new session although
    the session was in the default mode.  The prompt-inclusion event is
    appended exactly when the prompt is included and quotes the new
    message count. *)
Theorem mode_change_is_recorded (pending : PendingLimit) (now : Time)
    (s : UserSession) (σ : Actor) :
  heap σ !! pl_session pending = Some s →
  actor_system σ = true →
  (2 ≤ MODE_HISTORY_SIZE cfg)%nat →
  let detection := _determine_generation_mode env (pl_text pending) s in
  let new_mode := fst (fst detection) in
  let confidence := snd (fst detection) in
  let changed := bool_decide (new_mode ≠ current_mode s) in
  validate_mode new_mode = true →
  validate_confidence confidence = true →
  ∃ σ' t s',
    _continue_message_processing env cfg pending now σ = (Ok tt, σ', t) ∧
    heap σ' !! pl_session pending = Some s' ∧
    current_mode s' = new_mode ∧
    mode_confidence s' = confidence ∧
    last (mode_history s') = Some new_mode ∧
    message_count s' = message_count s + 1 ∧
    last_activity s' = now ∧
    last_mode_change s' =
      (if changed then Some now else last_mode_change s) ∧
    appended t =
      (if changed
       then [ModeDetectedEvent (pl_user_id pending) new_mode confidence
               (last (mode_history s)) (snd detection) now]
       else []) ++
      (if _should_include_prompt env s'
       then [PromptInclusionEvent (pl_user_id pending) (message_count s + 1)
               (prompt_strategy env) (_get_prompt_reason env s')]
       else []).
Proof.
  intros Hs Hsys Hcap detection new_mode confidence changed Hmode Hconf.
  destruct (continue_events pending now s σ Hs Hsys Hmode Hconf)
    as (t & Hrun & _ & Hevents).
  exists (continued_actor env cfg pending now s σ), t,
    (continued_session env cfg (pl_text pending) now s).
  split; [exact Hrun|]. split; [by apply continued_actor_session|].
  rewrite Hevents. unfold continued_events.
  subst changed new_mode confidence detection.
  unfold continued_session.
  destruct (_determine_generation_mode env (pl_text pending) s)
    as [[new_mode confidence] details].
  cbn [fst snd]. case_bool_decide as Hchanged; simpl.
  - rewrite previous_of_push_mode, last_push_mode by lia. done.
  - rewrite last_push_mode by lia. done.
Qed.

(** X4. The record the continuation creates waits exactly for the replies
    it has asked for.  The record is stored under the id just drawn, with
    the turn and the mode, confidence and message count of the updated
    session; neither the context nor the memories are marked received,
    and no generation request goes out.  The
    context request carrying that id is always sent; the record awaits an
    embedding exactly when the embedding request was sent, and it expects
    long-term memories without awaiting an embedding exactly when the
    memory search was sent.  With the LTM switch off, or when the policy
    declines, the record expects no long-term memories and only the
    analysis and the context request go out. *)
Theorem record_waits_for_the_requested_replies (pending : PendingLimit)
    (now : Time) (s : UserSession) (σ : Actor) :
  heap σ !! pl_session pending = Some s →
  actor_system σ = true →
  validate_mode
    (fst (fst (_determine_generation_mode env (pl_text pending) s))) = true →
  validate_confidence
    (snd (fst (_determine_generation_mode env (pl_text pending) s))) = true →
  let rid := uuid4 env (uuid_drawn σ) in
  let uid := pl_user_id pending in
  ∃ σ' t q s',
    _continue_message_processing env cfg pending now σ = (Ok tt, σ', t) ∧
    heap σ' !! pl_session pending = Some s' ∧
    get rid (_pending_requests σ') = Some q ∧
    pr_user_id q = uid ∧ pr_chat_id q = pl_chat_id pending ∧
    pr_text q = pl_text pending ∧ pr_timestamp q = now ∧
    pr_mode q = current_mode s' ∧
    pr_mode_confidence q = mode_confidence s' ∧
    pr_message_count q = message_count s' ∧
    flag (stm_received q) = false ∧ flag (ltm_received q) = false ∧
    generation_requests t = [] ∧
    ("memory"%string,
     GET_CONTEXT uid rid (STM_CONTEXT_SIZE_FOR_GENERATION cfg) "structured")
      ∈ sent t ∧
    (awaiting_embedding q = true ↔
       ∃ text emotions,
         ("ltm"%string, GENERATE_EMBEDDING text emotions rid) ∈ sent t) ∧
    (flag (expecting_ltm q) = true ∧ awaiting_embedding q = false ↔
       ∃ search_type,
         ("ltm"%string,
          GET_LTM_MEMORY uid search_type None (LTM_CONTEXT_LIMIT cfg) rid)
           ∈ sent t) ∧
    (flag (expecting_ltm q) = false →
       sent t =
         [("perception"%string, ANALYZE_EMOTION uid (pl_text pending));
          ("memory"%string,
           GET_CONTEXT uid rid (STM_CONTEXT_SIZE_FOR_GENERATION cfg)
             "structured")]).
Proof.
  intros Hs Hsys Hmode Hconf rid uid.
  destruct (continue_events pending now s σ Hs Hsys Hmode Hconf)
    as (t & Hrun & Hsent & _).
  set (s' := continued_session env cfg (pl_text pending) now s) in *.
  exists (continued_actor env cfg pending now s σ), t,
    (continued_request env cfg pending now s'), s'.
  split; [exact Hrun|]. split; [by apply continued_actor_session|].
  split; [apply with_request_get|].
  rewrite sent_generation_requests, Hsent. fold rid. clearbody s'.
  unfold continued_request, fan_out, ltm_legs, awaiting_embedding.
  destruct (LTM_REQUEST_ENABLED cfg);
    [destruct (_should_request_ltm env (pl_text pending) s')
       as [[|] search_type];
     [destruct (String.eqb search_type "vector")|]|];
    simpl; repeat (split; [done|]);
    (split; [apply list_elem_of_In; simpl; tauto|]);
    repeat split; try done;
    first
      [ by (intros; repeat eexists; apply list_elem_of_In; simpl;
            right; right; left; reflexivity)
      | by (intros; absurd_member) ].
Qed.

(** X5. A detection the session rejects aborts the continuation half way.
    A detected mode that differs from the mode of the session and is not
    one of the valid modes raises a validation error on [current_mode]
    after the time of the last mode change has been written; a confidence
    out of range raises one on [mode_confidence] after a changed mode has
    been written.  In both cases only the emotion analysis has been sent,
    no event is appended, no id is drawn, no generation record is created,
    and the session keeps its mode history and its message count. *)
Theorem rejected_detection_aborts_the_continuation (pending : PendingLimit)
    (now : Time) (s : UserSession) (σ : Actor) :
  heap σ !! pl_session pending = Some s →
  actor_system σ = true →
  let detection := _determine_generation_mode env (pl_text pending) s in
  let new_mode := fst (fst detection) in
  let confidence := snd (fst detection) in
  let aborted (field : string) (s1 : UserSession) :=
    ∃ σ' t,
      _continue_message_processing env cfg pending now σ =
        (Raised (ValidationError field), σ', t) ∧
      heap σ' !! pl_session pending = Some s1 ∧
      _pending_requests σ' = _pending_requests σ ∧
      _pending_limits σ' = _pending_limits σ ∧
      uuid_drawn σ' = uuid_drawn σ ∧
      sent t =
        [("perception"%string,
          ANALYZE_EMOTION (pl_user_id pending) (pl_text pending))] ∧
      appended t = [] in
  (new_mode ≠ current_mode s → validate_mode new_mode = false →
     aborted "current_mode"%string (set_last_mode_change (Some now) s)) ∧
  (new_mode ≠ current_mode s → validate_mode new_mode = true →
   validate_confidence confidence = false →
     aborted "mode_confidence"%string
       (set_current_mode new_mode (set_last_mode_change (Some now) s))) ∧
  (new_mode = current_mode s → validate_confidence confidence = false →
     aborted "mode_confidence"%string s).
Proof.
  intros Hs Hsys detection new_mode confidence aborted.
  subst aborted new_mode confidence detection. cbv beta.
  unfold _continue_message_processing,
    assign_current_mode, assign_mode_confidence.
  rewrite bind_log, (bind_when_system _ _ _ Hsys).
  rewrite bind_assoc, bind_deliver, bind_log.
  rewrite (bind_get_session _ s) by done.
  destruct (_determine_generation_mode env (pl_text pending) s)
    as [[new_mode confidence] details].
  cbn [fst snd]. rewrite bind_write.
  set (σ1 := set_details details σ).
  assert (heap σ1 !! pl_session pending = Some s) as Hs1 by done.
  split; [|split].
  - intros Hchanged Hmode.
    rewrite (bool_decide_eq_true_2 _ Hchanged), !bind_assoc.
    session_step Hs1. rewrite Hmode, !bind_assoc, bind_raise.
    rewrite !emitting_triple. eexists _, _. split; [reflexivity|].
    split; [by apply (with_session_get _ _ s)|]. done.
  - intros Hchanged Hmode Hconf.
    rewrite (bool_decide_eq_true_2 _ Hchanged), !bind_assoc.
    session_step Hs1. rewrite Hmode, !bind_assoc.
    session_step Hs1. rewrite bind_ret, Hconf, bind_raise.
    rewrite !emitting_triple. eexists _, _. split; [reflexivity|].
    split; [by apply (with_session_get _ _ s)|]. done.
  - intros Hsame Hconf.
    rewrite bool_decide_eq_false_2 by (by intros ?).
    rewrite bind_ret, Hconf, bind_raise.
    rewrite !emitting_triple. eexists _, _. split; [reflexivity|]. done.
Qed.

End Continuation.

Lemma mode_change_is_recorded_witness :
  let env := sample_env "expert" (false, EmptyString) in
  let σ := sample_actor sample_request in
  let s := new_session "42" None 0 in
  heap σ !! pl_session sample_limit = Some s ∧
  (2 ≤ MODE_HISTORY_SIZE settings)%nat ∧
  ∃ σ' t s',
    _continue_message_processing env settings sample_limit 5 σ
      = (Ok tt, σ', t) ∧
    heap σ' !! 0%nat = Some s' ∧
    current_mode s' = "expert"%string ∧
    last_mode_change s' = Some 5 ∧
    appended t =
      [ModeDetectedEvent "42" "expert" (1 # 2)%Q None "details" 5;
       PromptInclusionEvent "42" 1 "always" "first message"].
Proof.
  intros env σ s. split; [reflexivity|]. split; [simpl; lia|].
  destruct (mode_change_is_recorded env settings sample_limit 5 s σ
              eq_refl eq_refl ltac:(simpl; lia) eq_refl eq_refl)
    as (σ' & t & s' & Hrun & Hs' & Hmode & _ & _ & _ & _ & Hchange & Hev).
  exists σ', t, s'. split; [exact Hrun|]. split; [exact Hs'|].
  split; [exact Hmode|]. split; [exact Hchange | exact Hev].
Defined.

Lemma record_waits_for_the_requested_replies_witness :
  let env := sample_env "talk" (true, "vector"%string) in
  let σ := sample_actor sample_request in
  heap σ !! pl_session sample_limit = Some (new_session "42" None 0) ∧
  actor_system σ = true ∧
  ∃ σ' t q,
    _continue_message_processing env settings sample_limit 5 σ
      = (Ok tt, σ', t) ∧
    get "id2" (_pending_requests σ') = Some q ∧
    pr_timestamp q = 5 ∧
    (awaiting_embedding q = true ↔
       ∃ text emotions,
         ("ltm"%string, GENERATE_EMBEDDING text emotions "id2") ∈ sent t).
Proof.
  intros env σ. split; [reflexivity|]. split; [reflexivity|].
  destruct (record_waits_for_the_requested_replies env settings sample_limit
              5 (new_session "42" None 0) σ eq_refl eq_refl eq_refl eq_refl)
    as (σ' & t & q & s' & Hrun & _ & Hq & _ & _ & _ & Hnow & _ & _ & _ & _ &
        _ & _ & _ & Hemb & _).
  exists σ', t, q. split; [exact Hrun|]. split; [exact Hq|].
  split; [exact Hnow | exact Hemb].
Defined.

Lemma rejected_detection_aborts_the_continuation_witness :
  let env := sample_env "poetry" (false, EmptyString) in
  let σ := sample_actor sample_request in
  let s := new_session "42" None 0 in
  heap σ !! pl_session sample_limit = Some s ∧
  validate_mode "poetry" = false ∧
  ∃ σ' t,
    _continue_message_processing env settings sample_limit 5 σ =
      (Raised (ValidationError "current_mode"), σ', t) ∧
    heap σ' !! 0%nat = Some (set_last_mode_change (Some 5) s) ∧
    _pending_requests σ' = _pending_requests σ ∧
    appended t = [].
Proof.
  intros env σ s. split; [reflexivity|]. split; [reflexivity|].
  destruct (rejected_detection_aborts_the_continuation env settings
              sample_limit 5 s σ eq_refl eq_refl) as (Hmode & _ & _).
  destruct (Hmode ltac:(discriminate) eq_refl)
    as (σ' & t & Hrun & Hs' & Hreq & _ & _ & _ & Hev).
  exists σ', t. split; [exact Hrun|]. split; [exact Hs'|].
  split; [exact Hreq | exact Hev].
Defined.

(** * Verdicts that let the turn through, and verdicts with a figure
      missing *)

Section Allowed.

Context (env : Collaborators) (cfg : Settings).

Local Ltac telegram_only :=
  let Hin := fresh "Hin" in
  intros Hin%list_elem_of_In; simpl in Hin;
  repeat (destruct Hin as [[= <- <-]|Hin]; [reflexivity|]);
  destruct Hin.

Lemma sent_sends ms : sent (sends ms) = ms.
Proof. induction ms as [|[target m] ms IH]; simpl; by rewrite ?IH. Qed.

Lemma appended_sends ms : appended (sends ms) = [].
Proof. induction ms as [|[target m] ms IH]; simpl; by rewrite ?IH. Qed.

Lemma sent_app t1 t2 : sent (t1 ++ t2) = sent t1 ++ sent t2.
Proof. apply omap_app. Qed.

Lemma appended_app t1 t2 : appended (t1 ++ t2) = appended t1 ++ appended t2.
Proof. apply omap_app. Qed.

Lemma verdict_warnings_telegram p pending target m :
  (target, m) ∈ verdict_warnings env p pending → target = "telegram"%string.
Proof.
  unfold verdict_warnings.
  destruct (approaching_limit p), (messages_remaining p), (lp_limit p),
    (subscription_expiring p), (days_remaining p); telegram_only.
Qed.

(** A verdict within the limit with every figure present: the warnings go
    out, then the turn is continued on the actor without the limit
    check. *)
Lemma within_limit_eval rid pending verdict now σ :
  get rid (_pending_limits σ) = Some pending →
  rid ≠ EmptyString →
  actor_system σ = true →
  is_status_check verdict = false →
  is_auth_check verdict = false →
  lp_request_id verdict = Some rid →
  missing_figure verdict = None →
  within_limit cfg verdict →
  handle_limit_response env cfg verdict now σ =
    emitting (sends (verdict_warnings env verdict pending) ++
              [Log INFO (WithinLimits (pl_user_id pending))])
      (_continue_message_processing env cfg pending now
         (without_limit rid σ)).
Proof.
  intros Hget Hne Hsys Hstatus Hauth Hid Hfig Hin.
  unfold handle_limit_response.
  rewrite Hstatus, Hauth. cbn [orb].
  rewrite bind_read, Hid, (present_Some _ _ _ Hne Hget).
  rewrite (bind_pop_limit _ pending) by done.
  fold (without_limit rid σ).
  assert (actor_system (without_limit rid σ) = true) as Hsys1 by done.
  assert (negb (flag (unlimited verdict)) &&
          bool_decide (default 0 (messages_today verdict) >=
                       default (DAILY_MESSAGE_LIMIT cfg) (lp_limit verdict))
          = false) as ->.
  { destruct Hin as [->|Hlt]; [done|].
    rewrite bool_decide_eq_false_2 by lia. by rewrite andb_false_r. }
  unfold missing_figure, verdict_warnings in *.
  destruct (approaching_limit verdict),
    (messages_remaining verdict) as [remaining|],
    (lp_limit verdict) as [lim|],
    (subscription_expiring verdict),
    (days_remaining verdict) as [days|];
    try discriminate Hfig;
    unfold index; mnorm; reflexivity.
Qed.

Lemma bind_send_if_system_detached {B} target m (k : unit → M B) σ :
  actor_system σ = false →
  bind (send_if_system target m) k σ = k tt σ.
Proof.
  intros Hsys. unfold send_if_system, when_system.
  by rewrite bind_assoc, bind_read, Hsys, bind_ret.
Qed.

(** X6. A verdict within the limit lets the turn through.  For a verdict
    without the status or authorization flag, whose id matches a pending
    limit check, with every figure its warnings quote, and either an
    unlimited user or a usage below the limit, the handler removes the
    limit check, sends the warnings the verdict asks for to the front end
    and then continues the turn: the session is updated, the generation
    record is stored under a fresh id, and the emotion analysis, the
    context request and the LTM leg go out after the warnings.  No
    generation request is sent yet. *)
Theorem within_limit_verdict_continues_the_turn (rid : string)
    (pending : PendingLimit) (verdict : LimitPayload) (now : Time)
    (s : UserSession) (σ : Actor) :
  get rid (_pending_limits σ) = Some pending →
  rid ≠ EmptyString →
  actor_system σ = true →
  is_status_check verdict = false →
  is_auth_check verdict = false →
  lp_request_id verdict = Some rid →
  missing_figure verdict = None →
  within_limit cfg verdict →
  heap σ !! pl_session pending = Some s →
  validate_mode
    (fst (fst (_determine_generation_mode env (pl_text pending) s))) = true →
  validate_confidence
    (snd (fst (_determine_generation_mode env (pl_text pending) s))) = true →
  let s' := continued_session env cfg (pl_text pending) now s in
  let new_id := uuid4 env (uuid_drawn σ) in
  ∃ σ' t,
    handle_message env cfg (LIMIT_RESPONSE verdict) now σ = (Ok tt, σ', t) ∧
    σ' = continued_actor env cfg pending now s (without_limit rid σ) ∧
    get rid (_pending_limits σ') = None ∧
    heap σ' !! pl_session pending = Some s' ∧
    get new_id (_pending_requests σ') =
      Some (continued_request env cfg pending now s') ∧
    sent t =
      verdict_warnings env verdict pending ++
      fan_out env cfg pending new_id s' ∧
    appended t = continued_events env cfg pending now s ∧
    generation_requests t = [].
Proof.
  intros Hget Hne Hsys Hstatus Hauth Hid Hfig Hin Hs Hmode Hconf s' new_id.
  unfold handle_message.
  rewrite (within_limit_eval rid pending) by done.
  destruct (continue_events env cfg pending now s (without_limit rid σ)
              Hs Hsys Hmode Hconf) as (t & Hrun & Hsent & Hev).
  rewrite Hrun, emitting_triple. eexists _, _. split; [reflexivity|].
  split; [reflexivity|]. split; [apply DictFacts.get_remove_eq|].
  split; [by apply continued_actor_session|].
  split; [apply with_request_get|].
  assert (sent ((sends (verdict_warnings env verdict pending) ++
                 [Log INFO (WithinLimits (pl_user_id pending))]) ++ t) =
          verdict_warnings env verdict pending ++
          fan_out env cfg pending new_id s') as Hall.
  { rewrite !sent_app, sent_sends, Hsent. simpl. by rewrite app_nil_r. }
  split; [exact Hall|]. split.
  - rewrite !appended_app, appended_sends, Hev. done.
  - rewrite sent_generation_requests, Hall, omap_app.
    assert (omap (λ tm : string * OutMsg,
                    match tm with
                    | (target, GENERATE_RESPONSE p) =>
                        if String.eqb target "generation" then Some p
                        else None
                    | _ => None
                    end) (verdict_warnings env verdict pending) = []) as ->.
    { unfold verdict_warnings.
      by destruct (approaching_limit verdict), (messages_remaining verdict),
        (lp_limit verdict), (subscription_expiring verdict),
        (days_remaining verdict). }
    unfold fan_out.
    destruct (LTM_REQUEST_ENABLED cfg); [|done].
    destruct (_should_request_ltm env (pl_text pending) s') as [[|] st];
      [|done].
    by destruct (String.eqb st "vector").
Qed.

(** X7. A warning flag without the figure it quotes loses the turn.  For a
    verdict without the status or authorization flag whose id matches a
    pending limit check, if [approaching_limit] is set and
    [messages_remaining] or [limit] is absent, or [subscription_expiring]
    is set and [days_remaining] is absent, the handler ends in a key error
    on the first absent key after it has removed the limit check.  The
    turn is neither continued nor refused: no generation record is
    created, no session is touched, no event is appended; nothing but a
    front-end warning built before the failure can have been sent, and
    nothing at all when the failing key belongs to the approaching-limit
    warning.  This holds whatever the verdict says about the limit. *)
Theorem warning_without_its_figure_loses_the_turn (rid key : string)
    (pending : PendingLimit) (verdict : LimitPayload) (now : Time)
    (σ : Actor) :
  get rid (_pending_limits σ) = Some pending →
  rid ≠ EmptyString →
  is_status_check verdict = false →
  is_auth_check verdict = false →
  lp_request_id verdict = Some rid →
  missing_figure verdict = Some key →
  ∃ t,
    handle_message env cfg (LIMIT_RESPONSE verdict) now σ =
      (Raised (KeyError key), without_limit rid σ, t) ∧
    get rid (_pending_limits (without_limit rid σ)) = None ∧
    appended t = [] ∧
    generation_requests t = [] ∧
    (∀ target m, (target, m) ∈ sent t → target = "telegram"%string) ∧
    (key ≠ "days_remaining"%string → t = []).
Proof.
  intros Hget Hne Hstatus Hauth Hid Hfig.
  unfold handle_message, handle_limit_response.
  rewrite Hstatus, Hauth. cbn [orb].
  rewrite bind_read, Hid, (present_Some _ _ _ Hne Hget).
  rewrite (bind_pop_limit _ pending) by done.
  fold (without_limit rid σ).
  destruct (actor_system (without_limit rid σ)) eqn:Hsys;
    unfold missing_figure in Hfig;
    destruct (approaching_limit verdict),
      (messages_remaining verdict) as [remaining|],
      (lp_limit verdict) as [lim|],
      (subscription_expiring verdict),
      (days_remaining verdict) as [days|];
    try discriminate Hfig; injection Hfig as <-;
    unfold index;
    repeat (first [ rewrite bind_assoc | rewrite bind_ret
                  | rewrite bind_raise
                  | rewrite bind_send_if_system_detached by exact Hsys
                  | rewrite bind_send_if_system by exact Hsys
                  | rewrite emitting_triple ]; cbv beta);
    eexists; (split; [reflexivity|]);
    (split; [apply DictFacts.get_remove_eq|]);
    (split; [reflexivity|]); (split; [reflexivity|]);
    (split; [intros target m; telegram_only | done]).
Qed.

End Allowed.

Lemma within_limit_verdict_continues_the_turn_witness :
  let env := sample_env "talk" (false, EmptyString) in
  let σ := sample_actor sample_request in
  let verdict := sample_verdict false "id0" 3 in
  get "id0" (_pending_limits σ) = Some sample_limit ∧
  missing_figure verdict = None ∧
  within_limit settings verdict ∧
  ∃ σ' t,
    handle_message env settings (LIMIT_RESPONSE verdict) 5 σ
      = (Ok tt, σ', t) ∧
    get "id0" (_pending_limits σ') = None ∧
    is_Some (get "id2" (_pending_requests σ')) ∧
    sent t =
      [("perception"%string, ANALYZE_EMOTION "42" "hi");
       ("memory"%string, GET_CONTEXT "42" "id2" 20 "structured")] ∧
    generation_requests t = [].
Proof.
  intros env σ verdict. split; [reflexivity|]. split; [reflexivity|].
  assert (within_limit settings verdict) as Hin by (right; reflexivity).
  split; [exact Hin|].
  destruct (within_limit_verdict_continues_the_turn env settings "id0"
              sample_limit verdict 5 (new_session "42" None 0) σ
              eq_refl ltac:(discriminate) eq_refl eq_refl eq_refl eq_refl
              eq_refl Hin eq_refl eq_refl eq_refl)
    as (σ' & t & Hrun & _ & Hgone & _ & Hrec & Hsent & _ & Hgen).
  exists σ', t. split; [exact Hrun|]. split; [exact Hgone|].
  split; [eexists; exact Hrec|]. split; [exact Hsent | exact Hgen].
Defined.

Lemma warning_without_its_figure_loses_the_turn_witness :
  let env := sample_env "talk" (false, EmptyString) in
  let σ := sample_actor sample_request in
  let verdict :=
    {| is_status_check := false; is_auth_check := false;
       lp_request_id := Some "id0"%string; approaching_limit := true;
       messages_remaining := None; lp_limit := Some 10;
       subscription_expiring := false; days_remaining := None;
       unlimited := Some true; messages_today := Some 9 |} in
  get "id0" (_pending_limits σ) = Some sample_limit ∧
  missing_figure verdict = Some "messages_remaining"%string ∧
  handle_message env settings (LIMIT_RESPONSE verdict) 5 σ =
    (Raised (KeyError "messages_remaining"), without_limit "id0" σ, []) ∧
  _pending_limits (without_limit "id0" σ) = [].
Proof.
  intros env σ verdict. split; [reflexivity|]. split; [reflexivity|].
  destruct (warning_without_its_figure_loses_the_turn env settings "id0"
              "messages_remaining" sample_limit verdict 5 σ
              eq_refl ltac:(discriminate) eq_refl eq_refl eq_refl eq_refl)
    as (t & Hrun & _ & _ & _ & _ & Hnil).
  rewrite (Hnil ltac:(discriminate)) in Hrun.
  split; [exact Hrun | reflexivity].
Defined.

(** * A reply changes its own record only *)

Section Frame.

Context (env : Collaborators) (cfg : Settings).

Lemma remove_set {V} (k : string) (v : V) (d : dict V) :
  remove k (set k v d) = remove k d.
Proof.
  induction d as [|[k' v'] d IH]; simpl.
  - by rewrite String.eqb_refl.
  - destruct (String.eqb k k') eqn:E; simpl; rewrite E; [done|].
    by rewrite IH.
Qed.

Lemma advances_refl p : advances p p.
Proof. by repeat split. Qed.

Lemma advances_trans p q r : advances p q → advances q r → advances p r.
Proof.
  unfold advances. intros Hpq Hqr.
  destruct_and!. repeat split; try congruence; auto.
Qed.

Lemma advances_after_context messages p :
  advances p (after_context messages p).
Proof. by repeat split. Qed.

Lemma advances_after_ltm success results p :
  advances p (after_ltm success results p).
Proof. by repeat split. Qed.

Lemma advances_after_embedding v p : advances p (after_embedding v p).
Proof. by repeat split. Qed.

Lemma advances_after_fallback p : advances p (after_fallback p).
Proof. by repeat split. Qed.

Lemma untouched_with_request rid q σ :
  untouched_but rid σ (with_request rid q σ).
Proof.
  split; [|done]. intros k Hne. simpl. by apply DictFacts.get_set_ne.
Qed.

Lemma untouched_without_request rid σ :
  untouched_but rid σ (without_request rid σ).
Proof.
  split; [|done]. intros k Hne. simpl. by apply DictFacts.get_remove_ne.
Qed.

Lemma without_with_request rid q σ :
  without_request rid (with_request rid q σ) = without_request rid σ.
Proof. unfold without_request, with_request. simpl. by rewrite remove_set. Qed.

(** The readiness check on the record [q] the handler has just written. *)
Lemma check_outcome rid p q now σ t0 :
  advances p q →
  actor_system σ = true →
  sent t0 = [] → appended t0 = [] →
  ∃ σ' t,
    emitting t0 (_check_ready_to_generate cfg rid now (with_request rid q σ))
      = (Ok tt, σ', t) ∧
    reply_outcome cfg rid p σ σ' t.
Proof.
  intros Hadv Hsys Hsent0 Happ0.
  destruct (check_ready_spec cfg rid q now (with_request rid q σ)
              (with_request_get _ _ _) Hsys) as (t & Hrun & Hsent & Happ).
  rewrite Hrun, emitting_triple. eexists _, _. split; [reflexivity|].
  assert (sent (t0 ++ t) = check_sends cfg rid q now) as Hall.
  { unfold sent in *. by rewrite omap_app, Hsent0, Hsent. }
  assert (appended (t0 ++ t) = []) as Hnone.
  { unfold appended in *. by rewrite omap_app, Happ0, Happ. }
  unfold check_state, check_sends in *.
  destruct (awaiting_embedding q).
  - destruct (embedding_timed_out cfg q now).
    + exists (after_fallback q). split.
      { eapply advances_trans; [exact Hadv | apply advances_after_fallback]. }
      split; [exact Hnone|]. left. split; [apply with_request_twice|].
      rewrite Hall. intros tm ->%list_elem_of_singleton.
      exists "recent"%string, None. unfold recent_search.
      by destruct Hadv as (-> & _).
    + exists q. split; [exact Hadv|]. split; [exact Hnone|]. left.
      split; [done|]. rewrite Hall. by intros tm ?%elem_of_nil.
  - destruct (ready cfg q now).
    + exists q. split; [exact Hadv|]. split; [exact Hnone|]. right.
      split; [apply without_with_request | exact Hall].
    + exists q. split; [exact Hadv|]. split; [exact Hnone|]. left.
      split; [done|]. rewrite Hall. by intros tm ?%elem_of_nil.
Qed.

Lemma embedding_reply_eval rid p reply σ :
  get rid (_pending_requests σ) = Some p →
  rid ≠ EmptyString →
  actor_system σ = true →
  ep_request_id reply = Some rid →
  ∃ σ' t,
    handle_embedding_response cfg reply σ = (Ok tt, σ', t) ∧
    reply_outcome cfg rid p σ σ' t.
Proof.
  intros Hget Hne Hsys Hid. unfold handle_embedding_response.
  rewrite bind_read, Hid, (present_Some _ _ _ Hne Hget), Hget.
  assert (∀ line,
    ∃ σ' t,
      (log WARNING line >> _fallback_to_recent_search cfg rid) σ
        = (Ok tt, σ', t) ∧
      reply_outcome cfg rid p σ σ' t) as Hfallback.
  { intros line. rewrite bind_log, (fallback_eval cfg _ _ _ Hget Hsys).
    rewrite emitting_triple. eexists _, _. split; [reflexivity|].
    exists (after_fallback p). split; [apply advances_after_fallback|].
    split; [done|]. left. split; [done|].
    intros tm Hin%list_elem_of_In. simpl in Hin.
    destruct Hin as [<-|[]]. by exists "recent"%string, None. }
  destruct (flag (ep_success reply)); [|apply Hfallback].
  destruct (ep_embedding reply) as [[|x v]|]; try apply Hfallback.
  rewrite (bind_update_request _ _ p) by done.
  rewrite (bind_update_request _ _ _ _ _ (with_request_get _ _ _)).
  rewrite with_request_twice, bind_log, bind_send_message by done.
  rewrite log_eval, !emitting_triple. eexists _, _. split; [reflexivity|].
  exists (after_embedding (x :: v) p).
  split; [apply advances_after_embedding|].
  split; [done|]. left. split; [done|].
  intros tm Hin%list_elem_of_In. simpl in Hin.
  destruct Hin as [<-|[]]. by exists "vector"%string, (Some (x :: v)).
Qed.

Lemma reply_eval rid p m now σ :
  get rid (_pending_requests σ) = Some p →
  rid ≠ EmptyString →
  actor_system σ = true →
  reply_for rid m →
  ∃ σ' t,
    handle_message env cfg m now σ = (Ok tt, σ', t) ∧
    reply_outcome cfg rid p σ σ' t.
Proof.
  intros Hget Hne Hsys Hfor.
  destruct m as [turn|reply|reply|reply|verdict]; try done;
    simpl in Hfor; unfold handle_message.
  - rewrite (context_response_eval cfg rid p) by done.
    by apply check_outcome.
  - destruct (ltm_response_eval cfg rid p reply now σ Hget Hne Hfor)
      as (line & -> & Hsent & Happ & _).
    by apply check_outcome.
  - by apply embedding_reply_eval.
Qed.

(** X8. A reply changes its own record only.  A context, memory or
    embedding reply whose id matches a pending generation record is
    handled without an exception and leaves every other generation
    record, the table of limit checks, the sessions and their registry,
    and the id counter as they were.  It appends no event, and every
    message it sends is either a memory search carrying the id of the
    record and the user of the record, or the generation request; the
    generation request is sent exactly when the record leaves the table,
    and then it is the only message. *)
Theorem reply_touches_only_its_record (rid : string) (p : PendingRequest)
    (m : ActorMessage) (now : Time) (σ : Actor) :
  get rid (_pending_requests σ) = Some p →
  rid ≠ EmptyString →
  actor_system σ = true →
  reply_for rid m →
  ∃ σ' t,
    handle_message env cfg m now σ = (Ok tt, σ', t) ∧
    untouched_but rid σ σ' ∧
    appended t = [] ∧
    (is_Some (get rid (_pending_requests σ')) →
       ∀ tm, tm ∈ sent t → search_for cfg rid p tm) ∧
    (get rid (_pending_requests σ') = None ↔
       ∃ payload,
         sent t = [("generation"%string, GENERATE_RESPONSE payload)]) ∧
    (is_Some (get rid (_pending_requests σ')) ↔ generation_requests t = []).
Proof.
  intros Hget Hne Hsys Hfor.
  destruct (reply_eval rid p m now σ Hget Hne Hsys Hfor)
    as (σ' & t & Hrun & q & Hadv & Happ & Hcase).
  exists σ', t. split; [exact Hrun|].
  destruct Hcase as [[-> Hsearch]|[-> Hsent]].
  - assert (generation_requests t = []) as Hgen.
    { rewrite sent_generation_requests.
      induction (sent t) as [|tm l IH]; [done|].
      destruct (Hsearch tm) as (st & v & ->); [by left|].
      simpl. apply IH. intros tm' Hin. apply Hsearch. by right. }
    split; [apply untouched_with_request|]. split; [exact Happ|].
    split; [done|]. rewrite with_request_get. split; [split|].
    + done.
    + intros [payload Hsent]. rewrite sent_generation_requests, Hsent in Hgen.
      done.
    + split; [done | by eexists].
  - split; [apply untouched_without_request|]. split; [exact Happ|].
    assert (get rid (_pending_requests (without_request rid σ)) = None)
      as Hgone by apply DictFacts.get_remove_eq.
    rewrite Hgone. split; [by intros [? ?]|]. split.
    + split; [by eexists | done].
    + rewrite sent_generation_requests, Hsent. simpl.
      split; [by intros [? ?] | done].
Qed.

(** X9. A pending record only moves forward.  After a context, memory or
    embedding reply whose id matches a pending generation record, a record
    that is still in the table has the same turn, the same snapshot of the
    session (mode, confidence, message count, prompt decision, session
    data), the same time of creation, the same expectations and the same
    time of the memory request as before, and every leg that was marked
    received is still marked received.  When the record leaves the table
    instead, the generation request carries the user, chat, text, mode,
    confidence, message count and prompt decision the record had when the
    reply arrived. *)
Theorem pending_record_only_advances (rid : string) (p : PendingRequest)
    (m : ActorMessage) (now : Time) (σ : Actor) :
  get rid (_pending_requests σ) = Some p →
  rid ≠ EmptyString →
  actor_system σ = true →
  reply_for rid m →
  ∃ σ' t,
    handle_message env cfg m now σ = (Ok tt, σ', t) ∧
    (∀ q, get rid (_pending_requests σ') = Some q → advances p q) ∧
    (∀ payload, payload ∈ generation_requests t →
       gp_user_id payload = pr_user_id p ∧
       gp_chat_id payload = pr_chat_id p ∧
       gp_text payload = pr_text p ∧
       gp_include_prompt payload = pr_include_prompt p ∧
       gp_message_count payload = pr_message_count p ∧
       gp_session_data payload = pr_session_data p ∧
       gp_mode payload = pr_mode p ∧
       gp_mode_confidence payload = pr_mode_confidence p).
Proof.
  intros Hget Hne Hsys Hfor.
  destruct (reply_eval rid p m now σ Hget Hne Hsys Hfor)
    as (σ' & t & Hrun & q & Hadv & Happ & Hcase).
  exists σ', t. split; [exact Hrun|].
  destruct Hcase as [[-> Hsearch]|[-> Hsent]].
  - split.
    + intros q'. rewrite with_request_get. by intros [= <-].
    + intros payload. rewrite sent_generation_requests.
      intros Hin. exfalso. revert Hin.
      induction (sent t) as [|tm l IH]; [by intros ?%elem_of_nil|].
      destruct (Hsearch tm) as (st & v & ->); [by left|].
      simpl. apply IH. intros tm' Hin. apply Hsearch. by right.
  - split.
    + intros q'. unfold without_request. simpl.
      by rewrite DictFacts.get_remove_eq.
    + intros payload. rewrite sent_generation_requests, Hsent. simpl.
      intros ->%list_elem_of_singleton.
      unfold advances in Hadv. destruct_and!. by repeat split.
Qed.

End Frame.

Lemma reply_touches_only_its_record_witness :
  let env := sample_env "talk" (false, EmptyString) in
  let σ := sample_actor sample_request in
  let m := EMBEDDING_RESPONSE (sample_embedding_reply false []) in
  get "id1" (_pending_requests σ) = Some sample_request ∧
  reply_for "id1" m ∧
  ∃ σ' t,
    handle_message env settings m 1 σ = (Ok tt, σ', t) ∧
    _pending_limits σ' = _pending_limits σ ∧
    heap σ' = heap σ ∧
    appended t = [] ∧
    (is_Some (get "id1" (_pending_requests σ')) ↔
       generation_requests t = []).
Proof.
  intros env σ m. split; [reflexivity|]. split; [reflexivity|].
  destruct (reply_touches_only_its_record env settings "id1" sample_request
              m 1 σ eq_refl ltac:(discriminate) eq_refl eq_refl)
    as (σ' & t & Hrun & (_ & Hlim & Hheap & _) & Happ & _ & _ & Hiff).
  exists σ', t. split; [exact Hrun|]. split; [exact Hlim|].
  split; [exact Hheap|]. split; [exact Happ | exact Hiff].
Defined.

Lemma pending_record_only_advances_witness :
  let env := sample_env "talk" (false, EmptyString) in
  let σ := sample_actor sample_request in
  let m := CONTEXT_RESPONSE (sample_context_reply ["hello"%string]) in
  get "id1" (_pending_requests σ) = Some sample_request ∧
  reply_for "id1" m ∧
  ∃ σ' t,
    handle_message env settings m 1 σ = (Ok tt, σ', t) ∧
    ∀ q, get "id1" (_pending_requests σ') = Some q →
         pr_timestamp q = 0 ∧ expecting_ltm q = Some true ∧
         pr_text q = "hi"%string.
Proof.
  intros env σ m. split; [reflexivity|]. split; [reflexivity|].
  destruct (pending_record_only_advances env settings "id1" sample_request
              m 1 σ eq_refl ltac:(discriminate) eq_refl eq_refl)
    as (σ' & t & Hrun & Hadv & _).
  exists σ', t. split; [exact Hrun|]. intros q Hq.
  destruct (Hadv q Hq)
    as (_ & _ & Htext & _ & _ & _ & _ & _ & Hts & Hexp & _).
  split; [exact Hts|]. split; [exact Hexp | exact Htext].
Defined.

(** * An actor without an actor system *)

Section Detached.

Context (env : Collaborators) (cfg : Settings).

Lemma sent_not_a_message t : Forall not_a_message t → sent t = [].
Proof.
  induction 1 as [|e t He _ IH]; [done|].
  destruct e as [target m| |]; [done | exact IH | exact IH].
Qed.

Lemma step_detached i now σ r σ' t :
  actor_system σ = false →
  step env cfg i now σ = (r, σ', t) →
  sent t = [] ∧ actor_system σ' = false.
Proof.
  intros Hsys Hstep.
  destruct (keeps_step_input env cfg not_a_message _
              (stable_detached env cfg) admits_generation_detached
              i now σ r σ' t Hsys Hstep) as [Ht Hkept].
  split; [by apply sent_not_a_message | by destruct r].
Qed.

(** X10. An actor that is not attached to an actor system never sends a
    message and never becomes attached: whatever is delivered to it and
    however often it is swept, no message leaves it. *)
Theorem detached_actor_sends_nothing (inputs : list (Input * Time))
    (σ σ' : Actor) (t : list Effect) :
  actor_system σ = false →
  run env cfg inputs σ = (σ', t) →
  sent t = [] ∧ actor_system σ' = false.
Proof.
  revert σ σ' t.
  induction inputs as [|[i now] rest IH]; intros σ σ' t Hsys; simpl.
  - by intros [= <- <-].
  - destruct (step env cfg i now σ) as [[r σ1] t1] eqn:Estep.
    destruct (run env cfg rest σ1) as [σ2 t2] eqn:Erun.
    intros [= <- <-].
    destruct (step_detached _ _ _ _ _ _ Hsys Estep) as [Hsent1 Hsys1].
    destruct (IH _ _ _ Hsys1 Erun) as [Hsent2 Hsys2].
    split; [|exact Hsys2].
    unfold sent in *. by rewrite omap_app, Hsent1, Hsent2.
Qed.

End Detached.

Lemma detached_actor_sends_nothing_witness :
  let env := sample_env "talk" (false, EmptyString) in
  actor_system (init false) = false ∧
  ∃ σ' t,
    run env settings (happy_path ++ [(Sweep, seconds 60)]) (init false)
      = (σ', t) ∧
    sent t = [] ∧
    keys (_pending_limits σ') = [] ∧
    length (heap σ') = 1%nat.
Proof.
  intros env. split; [reflexivity|].
  destruct (run env settings (happy_path ++ [(Sweep, seconds 60)])
              (init false)) as [σ' t] eqn:Hrun.
  exists σ', t. split; [reflexivity|].
  split; [exact (proj1 (detached_actor_sends_nothing env settings _
                          (init false) σ' t eq_refl Hrun))|].
  vm_compute in Hrun. injection Hrun as <- <-. split; reflexivity.
Defined.

(** * The join, reply after reply *)

Section Join.

Context (env : Collaborators) (cfg : Settings).

Lemma check_leaves_pending rid q now σ :
  get rid (_pending_requests σ) = Some q →
  actor_system σ = true →
  awaiting_embedding q = false →
  ready cfg q now = false →
  ∃ t, _check_ready_to_generate cfg rid now σ = (Ok tt, σ, t) ∧ sent t = [].
Proof.
  intros Hget Hsys Hemb Hready.
  destruct (check_ready_spec cfg rid q now σ Hget Hsys)
    as (t & Hrun & Hsent & _).
  unfold check_state, check_sends in *. rewrite Hemb, Hready in *.
  by exists t.
Qed.

Lemma check_resolves rid q now σ :
  get rid (_pending_requests σ) = Some q →
  actor_system σ = true →
  awaiting_embedding q = false →
  ready cfg q now = true →
  ∃ t,
    _check_ready_to_generate cfg rid now σ =
      (Ok tt, without_request rid σ, t) ∧
    sent t = [("generation"%string, GENERATE_RESPONSE (generate_payload q))].
Proof.
  intros Hget Hsys Hemb Hready.
  destruct (check_ready_spec cfg rid q now σ Hget Hsys)
    as (t & Hrun & Hsent & _).
  unfold check_state, check_sends in *. rewrite Hemb, Hready in *.
  by exists t.
Qed.

(** The context reply and the memory reply for a record under [rid], each
    followed by the readiness check. *)
Lemma context_then_check rid p reply now σ :
  get rid (_pending_requests σ) = Some p →
  rid ≠ EmptyString →
  actor_system σ = true →
  cp_request_id reply = Some rid →
  let q := after_context (cp_messages reply) p in
  awaiting_embedding p = false →
  ∃ t,
    handle_message env cfg (CONTEXT_RESPONSE reply) now σ =
      (Ok tt,
       if ready cfg q now then without_request rid σ
       else with_request rid q σ, t) ∧
    sent t =
      if ready cfg q now
      then [("generation"%string, GENERATE_RESPONSE (generate_payload q))]
      else [].
Proof.
  intros Hget Hne Hsys Hid q Hemb. unfold handle_message.
  rewrite (context_response_eval cfg rid p) by done. fold q.
  assert (awaiting_embedding q = false) as Hemb' by exact Hemb.
  destruct (ready cfg q now) eqn:Hready.
  - destruct (check_resolves rid q now (with_request rid q σ))
      as (t & -> & Hsent); try done; [apply with_request_get|].
    rewrite emitting_triple, without_with_request. by eexists.
  - destruct (check_leaves_pending rid q now (with_request rid q σ))
      as (t & -> & Hsent); try done; [apply with_request_get|].
    rewrite emitting_triple. by eexists.
Qed.

Lemma memory_then_check rid p reply now σ :
  get rid (_pending_requests σ) = Some p →
  rid ≠ EmptyString →
  actor_system σ = true →
  ltm_request_id reply = Some rid →
  let q := after_ltm (ltm_success reply) (ltm_results reply) p in
  awaiting_embedding p = false →
  ∃ t,
    handle_message env cfg (LTM_RESPONSE reply) now σ =
      (Ok tt,
       if ready cfg q now then without_request rid σ
       else with_request rid q σ, t) ∧
    sent t =
      if ready cfg q now
      then [("generation"%string, GENERATE_RESPONSE (generate_payload q))]
      else [].
Proof.
  intros Hget Hne Hsys Hid q Hemb. unfold handle_message.
  destruct (ltm_response_eval cfg rid p reply now σ Hget Hne Hid)
    as (line & -> & Hline & _). fold q.
  assert (awaiting_embedding q = false) as Hemb' by exact Hemb.
  destruct (ready cfg q now) eqn:Hready.
  - destruct (check_resolves rid q now (with_request rid q σ))
      as (t & -> & Hsent); try done; [apply with_request_get|].
    rewrite emitting_triple, without_with_request. eexists.
    split; [reflexivity|]. by rewrite sent_app, Hline, Hsent.
  - destruct (check_leaves_pending rid q now (with_request rid q σ))
      as (t & -> & Hsent); try done; [apply with_request_get|].
    rewrite emitting_triple. eexists.
    split; [reflexivity|]. by rewrite sent_app, Hline, Hsent.
Qed.

(** X11. The join does not depend on the order of the replies.  For a
    pending record that expects long-term memories, awaits no embedding and
    has received neither leg, the context reply followed by the memory
    reply and the memory reply followed by the context reply end in the
    same actor, with the record gone, and send the same single message: a
    generation request with the turn of the record, the context of the one
    reply and the memories of the other (none when the memory reply reports
    a failure).  The first reply alone sends nothing.  This needs the
    memory request not to have timed out when the context reply comes
    first. *)
Theorem join_is_order_independent (rid : string) (p : PendingRequest)
    (context : ContextPayload) (memory : LtmPayload) (now1 now2 : Time)
    (σ : Actor) :
  get rid (_pending_requests σ) = Some p →
  rid ≠ EmptyString →
  actor_system σ = true →
  cp_request_id context = Some rid →
  ltm_request_id memory = Some rid →
  awaiting_embedding p = false →
  flag (expecting_ltm p) = true →
  flag (stm_received p) = false →
  flag (ltm_received p) = false →
  ltm_timed_out cfg p now1 = false →
  let payload :=
    generate_payload
      (after_ltm (ltm_success memory) (ltm_results memory)
         (after_context (cp_messages context) p)) in
  ∃ t1 t2,
    run env cfg [(Deliver (CONTEXT_RESPONSE context), now1);
                 (Deliver (LTM_RESPONSE memory), now2)] σ
      = (without_request rid σ, t1) ∧
    run env cfg [(Deliver (LTM_RESPONSE memory), now1);
                 (Deliver (CONTEXT_RESPONSE context), now2)] σ
      = (without_request rid σ, t2) ∧
    sent t1 = [("generation"%string, GENERATE_RESPONSE payload)] ∧
    sent t2 = [("generation"%string, GENERATE_RESPONSE payload)] ∧
    gp_text payload = pr_text p ∧
    gp_historical_context payload = Some (default [] (cp_messages context)) ∧
    gp_ltm_memories payload =
      Some (Some (if flag (ltm_success memory)
                  then default [] (ltm_results memory) else [])).
Proof.
  intros Hget Hne Hsys Hcid Hmid Hemb Hexp Hstm Hltm Htime payload.
  set (qc := after_context (cp_messages context) p).
  set (qm := after_ltm (ltm_success memory) (ltm_results memory) p).
  assert (ready cfg qc now1 = false) as Hqc.
  { unfold ready, ltm_timed_out in *. subst qc. simpl.
    rewrite Hltm, Hexp. simpl. exact Htime. }
  assert (ready cfg qm now1 = false) as Hqm.
  { unfold ready. subst qm. simpl. by rewrite Hstm. }
  destruct (context_then_check rid p context now1 σ)
    as (tc1 & Hc1 & Hsc1); try done.
  destruct (memory_then_check rid p memory now1 σ)
    as (tm1 & Hm1 & Hsm1); try done.
  fold qc in Hc1, Hsc1. fold qm in Hm1, Hsm1.
  rewrite Hqc in Hc1, Hsc1. rewrite Hqm in Hm1, Hsm1.
  destruct (memory_then_check rid qc memory now2 (with_request rid qc σ))
    as (tm2 & Hm2 & Hsm2); try done; [apply with_request_get|].
  destruct (context_then_check rid qm context now2 (with_request rid qm σ))
    as (tc2 & Hc2 & Hsc2); try done; [apply with_request_get|].
  assert (ready cfg (after_ltm (ltm_success memory) (ltm_results memory) qc)
            now2 = true) as Hr1 by done.
  assert (ready cfg (after_context (cp_messages context) qm) now2 = true)
    as Hr2.
  { unfold ready. simpl. done. }
  rewrite Hr1, without_with_request in Hm2. rewrite Hr1 in Hsm2.
  rewrite Hr2, without_with_request in Hc2. rewrite Hr2 in Hsc2.
  exists (tc1 ++ tm2 ++ []), (tm1 ++ tc2 ++ []).
  cbn [run step]. rewrite Hc1, Hm2, Hm1, Hc2.
  split; [done|]. split; [done|].
  rewrite !sent_app, Hsc1, Hsm2, Hsm1, Hsc2. simpl.
  split; [done|]. split; [done|]. done.
Qed.

End Join.

Lemma join_is_order_independent_witness :
  let env := sample_env "talk" (false, EmptyString) in
  let p := set_embedding_received (Some true) sample_request in
  let context := sample_context_reply ["hello"%string] in
  let memory := sample_ltm_reply true ["a memory"%string] in
  awaiting_embedding p = false ∧
  ltm_timed_out settings p 1 = false ∧
  ∃ t1 t2,
    run env settings [(Deliver (CONTEXT_RESPONSE context), 1);
                      (Deliver (LTM_RESPONSE memory), 2)] (sample_actor p)
      = (without_request "id1" (sample_actor p), t1) ∧
    run env settings [(Deliver (LTM_RESPONSE memory), 1);
                      (Deliver (CONTEXT_RESPONSE context), 2)] (sample_actor p)
      = (without_request "id1" (sample_actor p), t2) ∧
    sent t1 = sent t2 ∧
    generation_requests t1 =
      [generate_payload
         (after_ltm (Some true) (Some ["a memory"%string])
            (after_context (Some ["hello"%string]) p))].
Proof.
  intros env p context memory. split; [reflexivity|]. split; [reflexivity|].
  destruct (join_is_order_independent env settings "id1" p context memory
              1 2 (sample_actor p) eq_refl ltac:(discriminate) eq_refl
              eq_refl eq_refl eq_refl eq_refl eq_refl eq_refl eq_refl)
    as (t1 & t2 & Hrun1 & Hrun2 & Hsent1 & Hsent2 & _).
  exists t1, t2. split; [exact Hrun1|]. split; [exact Hrun2|].
  split; [by rewrite Hsent1, Hsent2|].
  by rewrite sent_generation_requests, Hsent1.
Defined.

(** * A whole turn *)

Section Turn.

Context (env : Collaborators) (cfg : Settings).

Lemma generation_requests_sent t :
  generation_requests t = omap generation_of (sent t).
Proof. apply sent_generation_requests. Qed.

Lemma verdict_warnings_not_generation verdict pending :
  omap generation_of (verdict_warnings env verdict pending) = [].
Proof.
  unfold verdict_warnings.
  by destruct (approaching_limit verdict), (messages_remaining verdict),
    (lp_limit verdict), (subscription_expiring verdict),
    (days_remaining verdict).
Qed.

Lemma fan_out_not_generation pending rid s :
  omap generation_of (fan_out env cfg pending rid s) = [].
Proof.
  unfold fan_out. destruct (LTM_REQUEST_ENABLED cfg); [|done].
  destruct (_should_request_ltm env (pl_text pending) s) as [[|] st];
    [|done].
  by destruct (String.eqb st "vector").
Qed.

Lemma fan_out_declined pending rid s :
  ltm_declined env cfg (pl_text pending) →
  fan_out env cfg pending rid s =
    [("perception"%string,
      ANALYZE_EMOTION (pl_user_id pending) (pl_text pending));
     ("memory"%string,
      GET_CONTEXT (pl_user_id pending) rid
        (STM_CONTEXT_SIZE_FOR_GENERATION cfg) "structured")].
Proof.
  intros [Hoff|Hno]; unfold fan_out.
  - by rewrite Hoff.
  - destruct (LTM_REQUEST_ENABLED cfg); [|done]. specialize (Hno s).
    by destruct (_should_request_ltm env (pl_text pending) s) as [[|] st].
Qed.

Lemma continued_request_declined pending now s messages now' :
  ltm_declined env cfg (pl_text pending) →
  let q := continued_request env cfg pending now s in
  awaiting_embedding q = false ∧
  ready cfg (after_context messages q) now' = true.
Proof.
  intros [Hoff|Hno]; unfold continued_request, ltm_legs.
  - by rewrite Hoff.
  - destruct (LTM_REQUEST_ENABLED cfg); [|done]. specialize (Hno s).
    by destruct (_should_request_ltm env (pl_text pending) s) as [[|] st].
Qed.

Lemma continued_request_snapshot pending now s :
  let q := continued_request env cfg pending now s in
  pr_user_id q = pl_user_id pending ∧
  pr_chat_id q = pl_chat_id pending ∧
  pr_text q = pl_text pending ∧
  pr_mode q = current_mode s ∧
  pr_mode_confidence q = mode_confidence s ∧
  pr_message_count q = message_count s ∧
  pr_timestamp q = now.
Proof.
  unfold continued_request, ltm_legs.
  destruct (LTM_REQUEST_ENABLED cfg); [|done].
  destruct (_should_request_ltm env (pl_text pending) s) as [[|] st];
    [|done].
  by destruct (String.eqb st "vector").
Qed.

(** X12. A turn whose limit check passes and for which no long-term
    memory is requested produces exactly one generation request, after the
    context reply.  From an attached actor with a valid registry: the turn
    is taken in, the verdict for the id of its limit check lets it through,
    the context reply for the id of its generation record arrives.  The
    three handlers send, in this order, the turn to the memory, the limit
    check, the warnings of the verdict, the emotion analysis, the context
    request and the generation request.  The request carries the user,
    chat and text of the turn, the context of the reply, and the mode,
    confidence and message count the session has at the end; both pending
    records of the turn are gone. *)
Theorem turn_is_generated_after_the_context (p : UserMessagePayload)
    (verdict : LimitPayload) (context : ContextPayload)
    (now0 now1 now2 : Time) (σ : Actor) :
  registry_valid σ →
  actor_system σ = true →
  uuid_nonempty env →
  detector_valid env →
  ltm_declined env cfg (um_text p) →
  let rid0 := uuid4 env (uuid_drawn σ) in
  let rid1 := uuid4 env (S (uuid_drawn σ)) in
  let l := fst (registered (um_user_id p) (um_username p) now0 σ) in
  is_status_check verdict = false →
  is_auth_check verdict = false →
  lp_request_id verdict = Some rid0 →
  missing_figure verdict = None →
  within_limit cfg verdict →
  cp_request_id context = Some rid1 →
  ∃ σ' t payload s',
    run env cfg [(Deliver (USER_MESSAGE p), now0);
                 (Deliver (LIMIT_RESPONSE verdict), now1);
                 (Deliver (CONTEXT_RESPONSE context), now2)] σ = (σ', t) ∧
    sent t =
      [("memory"%string,
        STORE_MEMORY (um_user_id p) "user" (um_text p) (um_username p) now0);
       ("auth"%string, CHECK_LIMIT (um_user_id p) rid0)] ++
      verdict_warnings env verdict (limit_of_turn p l now0) ++
      [("perception"%string, ANALYZE_EMOTION (um_user_id p) (um_text p));
       ("memory"%string,
        GET_CONTEXT (um_user_id p) rid1
          (STM_CONTEXT_SIZE_FOR_GENERATION cfg) "structured");
       ("generation"%string, GENERATE_RESPONSE payload)] ∧
    generation_requests t = [payload] ∧
    gp_user_id payload = um_user_id p ∧
    gp_chat_id payload = um_chat_id p ∧
    gp_text payload = um_text p ∧
    gp_historical_context payload = Some (default [] (cp_messages context)) ∧
    heap σ' !! l = Some s' ∧
    gp_mode payload = current_mode s' ∧
    gp_mode_confidence payload = mode_confidence s' ∧
    gp_message_count payload = message_count s' ∧
    last_user_text s' = Some (um_text p) ∧
    get rid0 (_pending_limits σ') = None ∧
    get rid1 (_pending_requests σ') = None.
Proof.
  intros Hval Hsys Hids Hdet Hltm rid0 rid1 l Hstatus Hauth Hid Hfig Hin Hcid.
  destruct (registered_session (um_user_id p) (um_username p) now0 σ Hval)
    as [s Hs].
  destruct (handle_user_message_attached env p now0 s σ Hsys Hs)
    as (t0 & Hrun0 & Hsent0 & _).
  set (σ0 := ingested env p now0 s σ) in *.
  set (pending := limit_of_turn p l now0).
  set (s0 := set_last_user_text (Some (um_text p)) s).
  assert (get rid0 (_pending_limits σ0) = Some pending) as Hlim
    by apply DictFacts.get_set_eq.
  assert (actor_system σ0 = true) as Hsys0.
  { subst σ0. unfold ingested, with_limit. simpl.
    by destruct (registered_frame (um_user_id p) (um_username p) now0 σ)
      as (_ & -> & _). }
  assert (heap (without_limit rid0 σ0) !! pl_session pending = Some s0)
    as Hs0 by (by apply (with_session_get _ _ s)).
  destruct (continue_events env cfg pending now1 s0 (without_limit rid0 σ0)
              Hs0 Hsys0 (proj1 (Hdet _ _)) (proj2 (Hdet _ _)))
    as (t1 & Hrun1 & Hsent1 & _).
  set (s' := continued_session env cfg (pl_text pending) now1 s0) in *.
  set (σ1 := continued_actor env cfg pending now1 s0 (without_limit rid0 σ0))
    in *.
  set (q := continued_request env cfg pending now1 s').
  assert (uuid4 env (uuid_drawn (without_limit rid0 σ0)) = rid1) as Hrid1
    by done.
  rewrite Hrid1 in Hsent1.
  assert (get rid1 (_pending_requests σ1) = Some q) as Hq.
  { subst σ1. unfold continued_actor. rewrite Hrid1.
    apply with_request_get. }
  assert (actor_system σ1 = true) as Hsys1 by exact Hsys0.
  destruct (continued_request_declined pending now1 s' (cp_messages context)
              now2 Hltm) as [Hemb Hready].
  destruct (context_then_check env cfg rid1 q context now2 σ1 Hq (Hids _)
              Hsys1 Hcid Hemb) as (t2 & Hrun2 & Hsent2).
  fold q in Hready. rewrite Hready in Hrun2, Hsent2.
  set (payload := generate_payload (after_context (cp_messages context) q))
    in *.
  exists (without_request rid1 σ1),
    (t0 ++
     ((sends (verdict_warnings env verdict pending) ++
       [Log INFO (WithinLimits (pl_user_id pending))]) ++ t1) ++
     t2 ++ []), payload, s'.
  split.
  { cbn [run step]. unfold handle_message at 1. rewrite Hrun0.
    unfold handle_message at 1.
    rewrite (within_limit_eval env cfg rid0 pending) by (done || apply Hids).
    rewrite Hrun1, emitting_triple, Hrun2. reflexivity. }
  assert (sent (t0 ++
                ((sends (verdict_warnings env verdict pending) ++
                  [Log INFO (WithinLimits (pl_user_id pending))]) ++ t1) ++
                t2 ++ []) =
          [("memory"%string,
            STORE_MEMORY (um_user_id p) "user" (um_text p) (um_username p)
              now0);
           ("auth"%string, CHECK_LIMIT (um_user_id p) rid0)] ++
          verdict_warnings env verdict pending ++
          [("perception"%string, ANALYZE_EMOTION (um_user_id p) (um_text p));
           ("memory"%string,
            GET_CONTEXT (um_user_id p) rid1
              (STM_CONTEXT_SIZE_FOR_GENERATION cfg) "structured");
           ("generation"%string, GENERATE_RESPONSE payload)]) as Hall.
  { rewrite !sent_app, sent_sends, Hsent0, Hsent1, Hsent2.
    rewrite (fan_out_declined pending rid1 s' Hltm). simpl.
    by rewrite app_nil_r, <- app_assoc. }
  split; [exact Hall|]. split.
  { rewrite generation_requests_sent, Hall, !omap_app.
    by rewrite verdict_warnings_not_generation. }
  destruct (continued_request_snapshot pending now1 s')
    as (Huid & Hchat & Htext & Hmode & Hconf & Hcount & _).
  fold q in Huid, Hchat, Htext, Hmode, Hconf, Hcount.
  split; [exact Huid|]. split; [exact Hchat|]. split; [exact Htext|].
  split; [done|].
  split; [exact (continued_actor_session env cfg pending now1 s0 _ Hs0)|].
  split; [exact Hmode|]. split; [exact Hconf|]. split; [exact Hcount|].
  split.
  { subst s' s0. unfold continued_session.
    destruct (_determine_generation_mode env (pl_text pending) _)
      as [[new_mode confidence] details].
    by case_bool_decide. }
  split; [apply DictFacts.get_remove_eq|].
  apply DictFacts.get_remove_eq.
Qed.

End Turn.

Lemma init_registry_valid attached : registry_valid (init attached).
Proof. intros uid l H. simpl in H. by rewrite lookup_empty in H. Qed.

Lemma turn_is_generated_after_the_context_witness :
  let env := sample_env "talk" (false, EmptyString) in
  registry_valid (init true) ∧
  ltm_declined env settings (um_text sample_turn) ∧
  within_limit settings (sample_verdict false "id0" 3) ∧
  ∃ σ' t payload,
    run env settings happy_path (init true) = (σ', t) ∧
    generation_requests t = [payload] ∧
    gp_text payload = "hi"%string ∧
    gp_historical_context payload = Some ["hello"%string] ∧
    gp_message_count payload = 1 ∧
    _pending_limits σ' = [] ∧ _pending_requests σ' = [].
Proof.
  intros env.
  assert (ltm_declined env settings (um_text sample_turn)) as Hltm
    by (right; intros s; reflexivity).
  assert (within_limit settings (sample_verdict false "id0" 3)) as Hin
    by (right; reflexivity).
  split; [apply init_registry_valid|]. split; [exact Hltm|].
  split; [exact Hin|].
  destruct (turn_is_generated_after_the_context env settings sample_turn
              (sample_verdict false "id0" 3)
              (sample_context_reply ["hello"%string]) 0 1 2 (init true)
              (init_registry_valid _) eq_refl (sample_env_nonempty _ _)
              (sample_env_valid _) Hltm eq_refl eq_refl eq_refl eq_refl Hin
              eq_refl)
    as (σ' & t & payload & s' & Hrun & _ & Hgen & _ & _ & Htext & Hctx & _).
  exists σ', t, payload. split; [exact Hrun|]. split; [exact Hgen|].
  split; [exact Htext|]. split; [exact Hctx|].
  change (run env settings happy_path (init true) = (σ', t)) in Hrun.
  vm_compute in Hrun. injection Hrun as <- <-.
  vm_compute in Hgen. injection Hgen as <-. repeat split.
Defined.

(** * A sweep that meets a failing turn *)

Section SweepFailure.

Context (env : Collaborators) (cfg : Settings).

Lemma continue_rejected_mode pending now s σ :
  heap σ !! pl_session pending = Some s →
  actor_system σ = true →
  fst (fst (_determine_generation_mode env (pl_text pending) s))
    ≠ current_mode s →
  validate_mode
    (fst (fst (_determine_generation_mode env (pl_text pending) s)))
    = false →
  ∃ σ' t,
    _continue_message_processing env cfg pending now σ =
      (Raised (ValidationError "current_mode"), σ', t) ∧
    _pending_requests σ' = _pending_requests σ ∧
    _pending_limits σ' = _pending_limits σ ∧
    generation_requests t = [] ∧
    appended t = [].
Proof.
  intros Hs Hsys Hchanged Hmode.
  unfold _continue_message_processing, assign_current_mode.
  rewrite bind_log, (bind_when_system _ _ _ Hsys).
  rewrite bind_assoc, bind_deliver, bind_log.
  rewrite (bind_get_session _ s) by done.
  destruct (_determine_generation_mode env (pl_text pending) s)
    as [[new_mode confidence] details].
  cbn [fst snd] in *. rewrite bind_write.
  rewrite (bool_decide_eq_true_2 _ Hchanged), !bind_assoc.
  rewrite (bind_update_session _ s) by done.
  rewrite Hmode, !bind_assoc, bind_raise, !emitting_triple.
  by eexists _, _.
Qed.

(** X13. One failing turn ends a sweep but not the loop.  On an attached
    actor with the fallback to demo enabled, let the first expired limit
    check belong to a turn whose detected mode the session rejects.  The
    sweep still answers every expired generation record with its request
    and removes it; it then removes that first limit check, fails in its
    continuation, and the loop catches the validation error and logs it as
    its last effect, so the iteration ends normally.  The expired limit
    checks after the first are not handled in this iteration: they are
    still in the table, for the next sweep. *)
Theorem sweep_survives_a_failing_turn (now : Time) (k : string)
    (rest : list string) (p : PendingLimit) (s : UserSession) (σ : Actor) :
  actor_system σ = true →
  NoDup (keys (_pending_requests σ)) →
  NoDup (keys (_pending_limits σ)) →
  AUTH_FALLBACK_TO_DEMO cfg = true →
  expired_keys pl_timestamp (AUTH_CHECK_TIMEOUT cfg) now (_pending_limits σ)
    = k :: rest →
  get k (_pending_limits σ) = Some p →
  heap σ !! pl_session p = Some s →
  fst (fst (_determine_generation_mode env (pl_text p) s))
    ≠ current_mode s →
  validate_mode (fst (fst (_determine_generation_mode env (pl_text p) s)))
    = false →
  ∃ σ' t,
    step env cfg Sweep now σ = (Ok tt, σ', t) ∧
    last t =
      Some (Log ERROR (CleanupLoopError (ValidationError "current_mode"))) ∧
    generation_requests t = timeout_requests cfg now (_pending_requests σ) ∧
    _pending_requests σ' =
      remove_all
        (expired_keys pr_timestamp (STM_CONTEXT_REQUEST_TIMEOUT cfg) now
           (_pending_requests σ))
        (_pending_requests σ) ∧
    _pending_limits σ' = remove k (_pending_limits σ) ∧
    (∀ k', k' ∈ rest →
       ∃ p', get k' (_pending_limits σ') = Some p' ∧
             now - pl_timestamp p' > AUTH_CHECK_TIMEOUT cfg).
Proof.
  intros Hsys Hreq Hlim Hdemo Hexp Hk Hs Hchanged Hmode.
  set (expired := expired_keys pr_timestamp (STM_CONTEXT_REQUEST_TIMEOUT cfg)
                    now (_pending_requests σ)).
  destruct (expire_requests_eval expired σ Hsys) as (t1 & Hrun1 & Hgen1 & _).
  { by apply NoDup_expired_keys. }
  { intros k' Hk'. apply expired_keys_spec in Hk' as (p' & -> & _); eauto. }
  set (σ1 := set_pending_requests (remove_all expired (_pending_requests σ)) σ)
    in *.
  set (σ2 := set_pending_limits (remove k (_pending_limits σ1)) σ1).
  destruct (continue_rejected_mode p now s σ2 Hs Hsys Hchanged Hmode)
    as (σ' & t2 & Hrun2 & Hreq2 & Hlim2 & Hgen2 & _).
  assert (_cleanup_expired_requests env cfg now σ =
          (Raised (ValidationError "current_mode"), σ',
           t1 ++ [Log WARNING (LimitCheckTimeout (pl_user_id p))] ++ t2))
    as Hsweep.
  { unfold _cleanup_expired_requests. rewrite bind_read. fold expired.
    rewrite (bind_emitting _ _ _ _ _ _ Hrun1), bind_read.
    change (_pending_limits σ1) with (_pending_limits σ). rewrite Hexp.
    cbn [for_each].
    erewrite bind_raised; [by rewrite emitting_triple|].
    rewrite (expire_limit_eval env cfg now k p σ1 Hk Hdemo). fold σ2.
    by rewrite Hrun2, emitting_triple. }
  exists σ',
    ((t1 ++ [Log WARNING (LimitCheckTimeout (pl_user_id p))] ++ t2) ++
     [Log ERROR (CleanupLoopError (ValidationError "current_mode"))]).
  split.
  { cbn [step]. unfold cleanup_iteration, try_except. by rewrite Hsweep. }
  split; [apply last_snoc|].
  split.
  { rewrite !generation_requests_app, Hgen1, Hgen2. simpl.
    by rewrite !app_nil_r. }
  split; [by rewrite Hreq2|]. split; [by rewrite Hlim2|].
  intros k' Hk'. rewrite Hlim2. simpl.
  assert (NoDup (k :: rest)) as Hnd.
  { rewrite <- Hexp. by apply NoDup_expired_keys. }
  apply NoDup_cons in Hnd as [Hnin _].
  rewrite get_remove_ne by (intros ->; done).
  apply (expired_keys_spec pl_timestamp (AUTH_CHECK_TIMEOUT cfg) now
           (_pending_limits σ) k' Hlim).
  rewrite Hexp. by right.
Qed.

End SweepFailure.

Lemma sweep_survives_a_failing_turn_witness :
  let env := sample_env "poetry" (false, EmptyString) in
  let σ :=
    set_pending_limits
      [("id0"%string, sample_limit); ("id5"%string, sample_limit)]
      (sample_actor sample_request) in
  expired_keys pl_timestamp (AUTH_CHECK_TIMEOUT settings) (seconds 3)
    (_pending_limits σ) = ["id0"%string; "id5"%string] ∧
  validate_mode "poetry" = false ∧
  ∃ σ' t,
    step env settings Sweep (seconds 3) σ = (Ok tt, σ', t) ∧
    last t =
      Some (Log ERROR (CleanupLoopError (ValidationError "current_mode"))) ∧
    generation_requests t = [] ∧
    _pending_limits σ' = [("id5"%string, sample_limit)].
Proof.
  intros env σ. split; [reflexivity|]. split; [reflexivity|].
  destruct (sweep_survives_a_failing_turn env settings (seconds 3) "id0"
              ["id5"%string] sample_limit (new_session "42" None 0) σ)
    as (σ' & t & Hrun & Hlast & Hgen & _ & Hlim & _);
    try reflexivity; try discriminate.
  - apply NoDup_ListNoDup. repeat constructor; simpl; tauto.
  - apply NoDup_ListNoDup.
    repeat constructor; simpl; intuition discriminate.
  - exists σ', t. split; [exact Hrun|]. split; [exact Hlast|].
    split; [exact Hgen | exact Hlim].
Defined.

(** * The size validators of the session *)

Section Validators.

Lemma last_items_spec {A} (n : nat) (v : list A) :
  (0 < n < length v)%nat →
  length (last_items n v) = n ∧
  v = take (length v - n) v ++ last_items n v.
Proof.
  intros Hn. unfold last_items. destruct n as [|n]; [lia|].
  split; [rewrite length_drop; lia | by rewrite take_drop].
Qed.

Lemma validate_mode_history_size_spec (v : list string) :
  length (validate_mode_history_size v) =
    (length v `min` PYDANTIC_MODE_HISTORY_MAX_SIZE)%nat ∧
  ∃ older, v = older ++ validate_mode_history_size v.
Proof.
  unfold validate_mode_history_size. case_bool_decide as Hlong.
  - destruct (last_items_spec PYDANTIC_MODE_HISTORY_MAX_SIZE v) as [Hlen Hv].
    { unfold PYDANTIC_MODE_HISTORY_MAX_SIZE in *. lia. }
    split; [lia | by eexists].
  - split; [lia | by exists []].
Qed.

Lemma validate_cache_metrics_size_spec (v : list Q) :
  length (validate_cache_metrics_size v) =
    (length v `min` PYDANTIC_CACHE_METRICS_MAX_SIZE)%nat ∧
  ∃ older, v = older ++ validate_cache_metrics_size v.
Proof.
  unfold validate_cache_metrics_size. case_bool_decide as Hlong.
  - destruct (last_items_spec PYDANTIC_CACHE_METRICS_MAX_SIZE v) as [Hlen Hv].
    { unfold PYDANTIC_CACHE_METRICS_MAX_SIZE in *. lia. }
    split; [lia | by eexists].
  - split; [lia | by exists []].
Qed.

(** X14. The size validators of the session cut, they do not reject.
    [validate_mode_history_size] returns the last 10 entries of a longer
    history and any other history unchanged: the result is a suffix of the
    input of length min(len, 10), so validating twice changes nothing
    more.  [validate_cache_metrics_size] does the same with 100 metrics.
    A history the coordinator has capped with the configured
    [MODE_HISTORY_SIZE] passes the validator unchanged. *)
Theorem size_validators_keep_the_latest_entries :
  (∀ v : list string,
     length (validate_mode_history_size v) =
       (length v `min` PYDANTIC_MODE_HISTORY_MAX_SIZE)%nat ∧
     (∃ older, v = older ++ validate_mode_history_size v) ∧
     validate_mode_history_size (validate_mode_history_size v) =
       validate_mode_history_size v) ∧
  (∀ v : list Q,
     length (validate_cache_metrics_size v) =
       (length v `min` PYDANTIC_CACHE_METRICS_MAX_SIZE)%nat ∧
     (∃ older, v = older ++ validate_cache_metrics_size v) ∧
     validate_cache_metrics_size (validate_cache_metrics_size v) =
       validate_cache_metrics_size v) ∧
  (∀ new_mode history,
     (length history ≤ MODE_HISTORY_SIZE settings)%nat →
     validate_mode_history_size (push_mode settings new_mode history) =
       push_mode settings new_mode history).
Proof.
  assert (∀ v : list string,
            (length v ≤ PYDANTIC_MODE_HISTORY_MAX_SIZE)%nat →
            validate_mode_history_size v = v) as Hshort.
  { intros v Hv. unfold validate_mode_history_size.
    by rewrite bool_decide_eq_false_2 by lia. }
  assert (∀ v : list Q,
            (length v ≤ PYDANTIC_CACHE_METRICS_MAX_SIZE)%nat →
            validate_cache_metrics_size v = v) as Hshort'.
  { intros v Hv. unfold validate_cache_metrics_size.
    by rewrite bool_decide_eq_false_2 by lia. }
  split; [|split].
  - intros v. destruct (validate_mode_history_size_spec v) as [Hlen Hsuf].
    split; [exact Hlen|]. split; [exact Hsuf|]. apply Hshort. lia.
  - intros v. destruct (validate_cache_metrics_size_spec v) as [Hlen Hsuf].
    split; [exact Hlen|]. split; [exact Hsuf|]. apply Hshort'. lia.
  - intros new_mode history Hcap. apply Hshort.
    pose proof (push_mode_bounded settings new_mode history Hcap) as Hb.
    unfold PYDANTIC_MODE_HISTORY_MAX_SIZE. simpl in Hb. lia.
Qed.

End Validators.

Lemma size_validators_keep_the_latest_entries_witness :
  let history := ["talk"%string; "expert"%string] in
  (length history ≤ MODE_HISTORY_SIZE settings)%nat ∧
  validate_mode_history_size (push_mode settings "base" history) =
    ["talk"%string; "expert"%string; "base"%string] ∧
  validate_mode_history_size (replicate 12 "talk"%string) =
    replicate 10 "talk"%string.
Proof.
  intros history.
  destruct size_validators_keep_the_latest_entries as (_ & _ & Hcapped).
  split; [simpl; lia|]. split; [|reflexivity].
  rewrite (Hcapped "base"%string history) by (simpl; lia). reflexivity.
Defined.

(** * The emotion result *)

Section Emotions.

Context (env : Collaborators) (cfg : Settings).

Lemma same_but_emotions_refl s : same_but_emotions s s.
Proof. by repeat split. Qed.

(** X15. An emotion result touches the emotions of one session and nothing
    else.  Whatever the payload, the handler leaves both pending tables,
    the registry, the id counter and the attachment as they were, and every
    session keeps all its fields but the emotion vector and the dominant
    emotions; so a valid registry stays valid, the handler then ends
    without an exception, and the cap on the mode histories is kept.
    Without a user id, or for a user without a session,
    no session changes and no event is created; the last line is a
    warning.  For a user with a session, the emotions and the dominant
    emotions of the payload (empty when absent) are stored on that session
    only and exactly one event is created, carrying the stored values and
    the text of the payload. *)
Theorem emotion_result_touches_only_the_emotions (p : EmotionPayload)
    (σ σ' : Actor) (r : Result unit) (t : list EmotionEffect) :
  handle_emotion_result p σ = (r, σ', t) →
  let scores := default [] (er_emotions p) in
  let dominant := default [] (er_dominant_emotions p) in
  (_pending_requests σ' = _pending_requests σ ∧
   _pending_limits σ' = _pending_limits σ ∧
   _sessions σ' = _sessions σ ∧
   uuid_drawn σ' = uuid_drawn σ ∧
   actor_system σ' = actor_system σ ∧
   length (heap σ') = length (heap σ) ∧
   (∀ l s', heap σ' !! l = Some s' →
            ∃ s, heap σ !! l = Some s ∧ same_but_emotions s s')) ∧
  (registry_valid σ → registry_valid σ' ∧ r = Ok tt) ∧
  (history_bounded cfg σ → history_bounded cfg σ') ∧
  (truthy_id (er_user_id p) = None →
     σ' = σ ∧ t = [EmotionLog WARNING EmotionResultWithoutUser]) ∧
  (∀ uid, truthy_id (er_user_id p) = Some uid →
          _sessions σ !! uid = None →
     σ' = σ ∧ emotion_events t = [] ∧
     last t = Some (EmotionLog WARNING (NoSessionFound uid))) ∧
  (∀ uid l s, truthy_id (er_user_id p) = Some uid →
              _sessions σ !! uid = Some l →
              heap σ !! l = Some s →
     heap σ' !! l =
       Some (set_last_dominant_emotions dominant
               (set_last_emotion_vector (Some scores) s)) ∧
     (∀ l', l' ≠ l → heap σ' !! l' = heap σ !! l') ∧
     emotion_events t =
       [EmotionDetectedEvent uid dominant scores
          (default EmptyString (er_text p))]).
Proof.
  intros Hrun scores dominant. unfold handle_emotion_result in Hrun.
  fold scores dominant in Hrun.
  assert (∀ l s', heap σ !! l = Some s' →
                  ∃ s, heap σ !! l = Some s ∧ same_but_emotions s s')
    as Hsame by (intros l s' H; exists s'; split; [done|];
                 apply same_but_emotions_refl).
  assert (emotion_events [emotion_summary "" dominant scores] = [] ∧
          ∀ uid, emotion_events [emotion_summary uid dominant scores] = [])
    as [_ Hsummary].
  { unfold emotion_summary. by destruct scores. }
  assert (∀ uid rest,
            emotion_events (emotion_summary uid dominant scores :: rest) =
            emotion_events rest) as Hskip.
  { intros uid rest. unfold emotion_summary. by destruct scores. }
  destruct (truthy_id (er_user_id p)) as [uid|] eqn:Hid.
  2: { injection Hrun as <- <- <-. by repeat split. }
  destruct (_sessions σ !! uid) as [l|] eqn:Hreg.
  2: { injection Hrun as <- <- <-.
       repeat split; try done; intros; simplify_eq; by rewrite ?Hskip. }
  destruct (heap σ !! l) as [s|] eqn:Hs.
  2: { injection Hrun as <- <- <-. split; [done|]. split.
       - intros Hval. destruct (Hval uid l Hreg) as [s Hs']. congruence.
       - repeat split; try done; intros; simplify_eq. }
  injection Hrun as <- <- <-.
  assert (l < length (heap σ))%nat as Hl by (by eapply lookup_lt_Some).
  split; [|split; [|split; [|split; [|split]]]].
  - repeat split; try done; [by simpl; rewrite length_insert|].
    intros l' s'. simpl. destruct (decide (l' = l)) as [->|Hne].
    + rewrite list_lookup_insert_eq by done. intros [= <-].
      exists s. split; [done|]. by repeat split.
    + rewrite list_lookup_insert_ne by done. apply Hsame.
  - intros Hval. split; [|done]. intros uid' l' Hreg'. simpl in *.
    apply lookup_lt_is_Some. rewrite length_insert.
    apply lookup_lt_is_Some. by eapply Hval.
  - unfold history_bounded. simpl. intros Hb.
    apply Forall_insert; [exact Hb|].
    simpl. by eapply (Forall_lookup_1 _ _ _ _ Hb).
  - done.
  - intros uid' [= <-]. by rewrite Hreg.
  - intros uid' l' s0 [= <-]. rewrite Hreg. intros [= <-].
    rewrite Hs. intros [= <-]. split; [|split].
    + simpl. by apply list_lookup_insert_eq.
    + intros l' Hne. simpl. by apply list_lookup_insert_ne.
    + by rewrite Hskip.
Qed.

Lemma continued_session_emotions text now s :
  last_emotion_vector (continued_session env cfg text now s) =
    last_emotion_vector s.
Proof.
  unfold continued_session.
  destruct (_determine_generation_mode env text s) as [[new_mode c] d].
  by case_bool_decide.
Qed.

Lemma fan_out_vector pending rid s :
  LTM_REQUEST_ENABLED cfg = true →
  _should_request_ltm env (pl_text pending) s = (true, "vector"%string) →
  fan_out env cfg pending rid s =
    [("perception"%string,
      ANALYZE_EMOTION (pl_user_id pending) (pl_text pending));
     ("memory"%string,
      GET_CONTEXT (pl_user_id pending) rid
        (STM_CONTEXT_SIZE_FOR_GENERATION cfg) "structured");
     ("ltm"%string,
      GENERATE_EMBEDDING (pl_text pending)
        (default [] (last_emotion_vector s)) rid)].
Proof.
  intros Hon Hvector. unfold fan_out. rewrite Hon, Hvector. simpl.
  by destruct (last_emotion_vector s) as [[|e v]|].
Qed.

(** X16. The embedding request of a turn carries the emotions stored by
    the last emotion result.  When the LTM policy chooses the vector
    search, the continuation of a turn sends the emotion analysis of the
    text, the context request and the embedding request, and the emotions
    of the embedding request are the emotion vector the session had when
    the continuation started (empty when it had none): after an emotion
    result for the user they are the emotions of that result.  The
    analysis requested in the same continuation does not contribute to
    them. *)
Theorem embedding_request_carries_the_stored_emotions (p : EmotionPayload)
    (pending : PendingLimit) (now : Time) (uid : string) (s : UserSession)
    (σ : Actor) :
  heap σ !! pl_session pending = Some s →
  actor_system σ = true →
  detector_valid env →
  LTM_REQUEST_ENABLED cfg = true →
  (∀ s, _should_request_ltm env (pl_text pending) s = (true, "vector"%string)) →
  let rid := uuid4 env (uuid_drawn σ) in
  let requests (emotions : Emotions) :=
    [("perception"%string,
      ANALYZE_EMOTION (pl_user_id pending) (pl_text pending));
     ("memory"%string,
      GET_CONTEXT (pl_user_id pending) rid
        (STM_CONTEXT_SIZE_FOR_GENERATION cfg) "structured");
     ("ltm"%string, GENERATE_EMBEDDING (pl_text pending) emotions rid)] in
  (∃ σ2 t,
     _continue_message_processing env cfg pending now σ = (Ok tt, σ2, t) ∧
     sent t = requests (default [] (last_emotion_vector s))) ∧
  (truthy_id (er_user_id p) = Some uid →
   _sessions σ !! uid = Some (pl_session pending) →
   ∃ σ1 te σ2 t,
     handle_emotion_result p σ = (Ok tt, σ1, te) ∧
     _continue_message_processing env cfg pending now σ1 = (Ok tt, σ2, t) ∧
     sent t = requests (default [] (er_emotions p))).
Proof.
  intros Hs Hsys Hdet Hon Hvector rid requests. split.
  - destruct (continue_events env cfg pending now s σ Hs Hsys
                (proj1 (Hdet _ _)) (proj2 (Hdet _ _)))
      as (t & Hrun & Hsent & _).
    eexists _, t. split; [exact Hrun|].
    rewrite Hsent, (fan_out_vector _ _ _ Hon (Hvector _)).
    by rewrite continued_session_emotions.
  - intros Hid Hreg. unfold handle_emotion_result. rewrite Hid, Hreg, Hs.
    set (s2 := set_last_dominant_emotions _ _).
    set (σ1 := set_heap _ σ).
    assert (heap σ1 !! pl_session pending = Some s2) as Hs2.
    { subst σ1. simpl. apply list_lookup_insert_eq.
      by eapply lookup_lt_Some. }
    destruct (continue_events env cfg pending now s2 σ1 Hs2 Hsys
                (proj1 (Hdet _ _)) (proj2 (Hdet _ _)))
      as (t & Hrun & Hsent & _).
    eexists σ1, _, _, t. split; [reflexivity|]. split; [exact Hrun|].
    rewrite Hsent, (fan_out_vector _ _ _ Hon (Hvector _)).
    by rewrite continued_session_emotions.
Qed.

End Emotions.

Lemma emotion_result_touches_only_the_emotions_witness :
  let σ := sample_actor sample_request in
  let scores := [("joy"%string, (9 # 10)%Q); ("fear"%string, (1 # 10)%Q)] in
  let p :=
    {| er_user_id := Some "42"%string;
       er_dominant_emotions := Some ["joy"%string];
       er_emotions := Some scores; er_text := Some "hi"%string |} in
  ∃ σ' t,
    handle_emotion_result p σ = (Ok tt, σ', t) ∧
    _pending_requests σ' = _pending_requests σ ∧
    last_emotion_vector <$> (heap σ' !! 0%nat) = Some (Some scores) ∧
    emotion_events t = [EmotionDetectedEvent "42" ["joy"%string] scores "hi"].
Proof.
  intros σ scores p.
  destruct (handle_emotion_result p σ) as [[r σ'] t] eqn:Hrun.
  destruct (emotion_result_touches_only_the_emotions settings p σ σ' r t Hrun)
    as ((Hreq & _) & Hval & _ & _ & _ & Hknown).
  destruct (Hval (sample_actor_registry_valid _)) as [_ ->].
  destruct (Hknown "42"%string 0%nat (new_session "42" None 0)
              eq_refl eq_refl eq_refl) as (Hs & _ & Hev).
  exists σ', t. split; [reflexivity|]. split; [exact Hreq|].
  split; [exact (f_equal (fmap last_emotion_vector) Hs) | exact Hev].
Defined.

Lemma embedding_request_carries_the_stored_emotions_witness :
  let env := sample_env "talk" (true, "vector"%string) in
  let σ := sample_actor sample_request in
  let scores := [("joy"%string, (9 # 10)%Q); ("fear"%string, (1 # 10)%Q)] in
  let p :=
    {| er_user_id := Some "42"%string;
       er_dominant_emotions := Some ["joy"%string];
       er_emotions := Some scores; er_text := Some "hi"%string |} in
  heap σ !! pl_session sample_limit = Some (new_session "42" None 0) ∧
  LTM_REQUEST_ENABLED settings = true ∧
  ∃ σ1 te σ2 t,
    handle_emotion_result p σ = (Ok tt, σ1, te) ∧
    _continue_message_processing env settings sample_limit 5 σ1
      = (Ok tt, σ2, t) ∧
    sent t =
      [("perception"%string, ANALYZE_EMOTION "42" "hi");
       ("memory"%string, GET_CONTEXT "42" "id2" 20 "structured");
       ("ltm"%string, GENERATE_EMBEDDING "hi" scores "id2")].
Proof.
  intros env σ scores p. split; [reflexivity|]. split; [reflexivity|].
  destruct (embedding_request_carries_the_stored_emotions env settings p
              sample_limit 5 "42" (new_session "42" None 0) σ
              eq_refl eq_refl (sample_env_valid _) eq_refl
              (fun _ => eq_refl)) as [_ Hafter].
  destruct (Hafter eq_refl eq_refl) as (σ1 & te & σ2 & t & H1 & H2 & H3).
  exists σ1, te, σ2, t. split; [exact H1|]. split; [exact H2 | exact H3].
Defined.

(** * The summary line of an emotion result *)

Section Summary.

Lemma insert_by_score_perm x l : insert_by_score x l ≡ₚ x :: l.
Proof.
  induction l as [|y l IH]; simpl; [done|].
  destruct (Qle_bool (snd y) (snd x)); [done|].
  rewrite IH. apply perm_swap.
Qed.

Lemma insert_by_score_descending x l :
  descending l → descending (insert_by_score x l).
Proof.
  induction l as [|y l IH]; simpl; [done|]. intros [Hy Hl].
  destruct (Qle_bool (snd y) (snd x)) eqn:E.
  - apply Qle_bool_iff in E. simpl. split; [|done].
    constructor; [done|]. eapply Forall_impl; [exact Hy|].
    intros z Hz. simpl in Hz. by eapply Qle_trans.
  - simpl. split; [|by apply IH].
    rewrite insert_by_score_perm. constructor; [|done].
    apply Qlt_le_weak, Qnot_le_lt. intros Hle.
    apply Qle_bool_iff in Hle. congruence.
Qed.

Lemma sorted_by_score_perm items : sorted_by_score items ≡ₚ items.
Proof.
  induction items as [|x items IH]; simpl; [done|].
  by rewrite insert_by_score_perm, IH.
Qed.

Lemma sorted_by_score_descending items : descending (sorted_by_score items).
Proof.
  induction items as [|x items IH]; simpl; [done|].
  by apply insert_by_score_descending.
Qed.

Lemma descending_take n l :
  descending l →
  descending (take n l) ∧
  ∀ x y, x ∈ take n l → y ∈ drop n l → (snd y <= snd x)%Q.
Proof.
  revert l. induction n as [|n IH]; intros [|z l]; simpl; try done.
  - intros _. split; [done|]. by intros x y ?%elem_of_nil.
  - intros _. split; [done|]. by intros x y ?%elem_of_nil.
  - intros _. split; [done|]. by intros x y ?%elem_of_nil.
  - intros [Hz Hl]. destruct (IH l Hl) as [Htake Hdrop]. split.
    + split; [|done]. apply Forall_forall. intros y Hy.
      eapply Forall_forall in Hz; [exact Hz|].
      by apply (subseteq_take n l).
    + intros x y [->|Hx]%elem_of_cons Hy; [|by apply Hdrop].
      eapply Forall_forall in Hz; [exact Hz|].
      by apply (subseteq_drop n l).
Qed.

(** X17. The summary line of an emotion result shows the highest scores.
    For a payload with emotions the line lists at most three of them, as
    many as there are when fewer, in an order in which the score never
    increases; the emotions it leaves out are the other entries of the
    payload and none of them has a higher score than a listed one.  Its
    emoji is that of the first dominant emotion, or the default emoji when
    there is no dominant emotion or the first one is not in the map.
    Without emotions the line only names the user. *)
Theorem emotion_summary_shows_the_highest_scores (uid : string)
    (dominant : list string) (scores : Emotions) :
  (scores = [] →
     emotion_summary uid dominant scores =
       EmotionLog INFO (NoEmotionsDetected uid)) ∧
  (scores ≠ [] →
     ∃ emoji top rest,
       emotion_summary uid dominant scores =
         EmotionLog INFO (EmotionSummary emoji top dominant) ∧
       length top = (3 `min` length scores)%nat ∧
       descending top ∧
       top ++ rest ≡ₚ scores ∧
       (∀ x y, x ∈ top → y ∈ rest → (snd y <= snd x)%Q) ∧
       (dominant = [] → emoji = DEFAULT_EMOJI) ∧
       (∀ first others, dominant = first :: others →
          emoji = default DEFAULT_EMOJI (get first EMOTION_EMOJI_MAP))).
Proof.
  split; [by intros ->|]. intros Hne.
  destruct scores as [|x scores]; [done|]. unfold emotion_summary.
  set (items := x :: scores).
  destruct (descending_take 3 (sorted_by_score items)
              (sorted_by_score_descending items)) as [Htop Hrest].
  eexists _, (take 3 (sorted_by_score items)),
    (drop 3 (sorted_by_score items)).
  split; [reflexivity|]. split.
  { rewrite length_take, (Permutation_length (sorted_by_score_perm items)).
    done. }
  split; [exact Htop|]. split.
  { by rewrite take_drop, sorted_by_score_perm. }
  split; [exact Hrest|]. split; [by intros ->|].
  by intros first others ->.
Qed.

End Summary.

Lemma emotion_summary_shows_the_highest_scores_witness :
  let scores :=
    [("fear"%string, (1 # 10)%Q); ("joy"%string, (9 # 10)%Q);
     ("love"%string, (5 # 10)%Q); ("pride"%string, (3 # 10)%Q)] in
  scores ≠ [] ∧
  ∃ emoji top,
    emotion_summary "42" ["serenity"%string] scores =
      EmotionLog INFO (EmotionSummary emoji top ["serenity"%string]) ∧
    top = [("joy"%string, (9 # 10)%Q); ("love"%string, (5 # 10)%Q);
           ("pride"%string, (3 # 10)%Q)] ∧
    emoji = DEFAULT_EMOJI ∧
    descending top.
Proof.
  intros scores. split; [discriminate|].
  destruct (emotion_summary_shows_the_highest_scores "42"
              ["serenity"%string] scores) as [_ Hsome].
  destruct (Hsome ltac:(discriminate))
    as (emoji & top & rest & Hline & _ & Hdesc & _ & _ & _ & Hemoji).
  exists emoji, top. split; [exact Hline|].
  injection Hline as Hemoji' Htop.
  split; [by rewrite <- Htop|].
  split; [by rewrite (Hemoji _ _ eq_refl) | exact Hdesc].
Defined.

(** * The registry along a run *)

Section Registry.

Context (env : Collaborators) (cfg : Settings).

Lemma stable_registry n :
  stable env cfg (fun _ => True) (registry_grown n).
Proof.
  constructor; try done.
  - intros σ l s f [Hval Hlen] Hs _. split; simpl.
    + intros uid l' Hreg. simpl in *. apply lookup_lt_is_Some.
      rewrite length_insert.
      apply lookup_lt_is_Some. by eapply Hval.
    + by rewrite length_insert.
  - intros σ uid uname now [Hval Hlen]. split; simpl.
    + intros uid' l'. simpl. rewrite lookup_insert. case_decide as Heq.
      * intros [= <-]. apply lookup_lt_is_Some. rewrite length_app.
        simpl. lia.
      * intros Hreg. apply lookup_lt_is_Some. rewrite length_app.
        apply Hval, lookup_lt_is_Some in Hreg. lia.
    + rewrite length_app. lia.
Qed.

Lemma step_registry n i now σ r σ' t :
  registry_grown n σ →
  step env cfg i now σ = (r, σ', t) →
  registry_grown n σ'.
Proof.
  intros Hσ Hstep.
  destruct (keeps_step_input env cfg (fun _ => True) _ (stable_registry n)
              (admits_generation_any _) i now σ r σ' t Hσ Hstep)
    as [_ Hkept].
  by destruct r.
Qed.

(** X18. The registry stays valid along every run.  From an actor in which
    every registered user refers to a session of the heap, whatever is
    delivered and however often the actor is swept, every registered user
    still refers to a session of the heap and no session has been removed.
    So on a coordinator started empty and attached, a turn is always taken
    in without an exception, whatever was handled before. *)
Theorem registry_stays_valid (inputs : list (Input * Time))
    (σ σ' : Actor) (t : list Effect) :
  registry_valid σ →
  run env cfg inputs σ = (σ', t) →
  registry_valid σ' ∧
  (length (heap σ) ≤ length (heap σ'))%nat ∧
  (actor_system σ = true →
   ∀ p now, ∃ σ'' t',
     handle_message env cfg (USER_MESSAGE p) now σ' = (Ok tt, σ'', t')).
Proof.
  intros Hval Hrun.
  assert (registry_grown (length (heap σ)) σ') as [Hval' Hlen].
  { assert (registry_grown (length (heap σ)) σ) as Hσ by (by split).
    clear Hval. revert σ' t Hrun Hσ. generalize (length (heap σ)) as n.
    revert σ. induction inputs as [|[i now] rest IH]; intros σ n σ' t; simpl.
    - by intros [= <- <-].
    - destruct (step env cfg i now σ) as [[r σ1] t1] eqn:Estep.
      destruct (run env cfg rest σ1) as [σ2 t2] eqn:Erun.
      intros [= <- <-] Hσ. eapply IH; [exact Erun|].
      by eapply step_registry. }
  split; [exact Hval'|]. split; [exact Hlen|].
  intros Hsys p now.
  assert (actor_system σ' = true) as Hsys'.
  { rewrite <- Hsys. by apply (run_evolves env cfg inputs σ σ' t). }
  destruct (registered_session (um_user_id p) (um_username p) now σ' Hval')
    as [s Hs].
  destruct (handle_user_message_attached env p now s σ' Hsys' Hs)
    as (t' & Hturn & _).
  by eexists _, t'.
Qed.

End Registry.

Lemma registry_stays_valid_witness :
  let env := sample_env "talk" (false, EmptyString) in
  registry_valid (init true) ∧
  ∃ σ' t,
    run env settings (happy_path ++ happy_path) (init true) = (σ', t) ∧
    registry_valid σ' ∧
    ∃ σ'' t',
      handle_message env settings (USER_MESSAGE sample_turn) 9 σ'
        = (Ok tt, σ'', t').
Proof.
  intros env. split; [apply init_registry_valid|].
  destruct (run env settings (happy_path ++ happy_path) (init true))
    as [σ' t] eqn:Hrun.
  destruct (registry_stays_valid env settings _ (init true) σ' t
              (init_registry_valid _) Hrun) as (Hval & _ & Hturn).
  exists σ', t. split; [reflexivity|]. split; [exact Hval|].
  apply (Hturn eq_refl).
Defined.

(** * The sweep of the limit checks *)

Section LimitSweepClosed.

Context (env : Collaborators) (cfg : Settings).






Lemma demo_continued_not_generation now l σ :
  omap generation_of (snd (fst (demo_continued env cfg now l σ))) = [].
Proof.
  revert σ. induction l as [|k l IH]; intros σ; cbn [demo_continued]; [done|].
  destruct (get k (_pending_limits σ)) as [p|]; [|done].
  destruct (heap σ !! pl_session p) as [s|]; [|done].
  specialize (IH (continued_actor env cfg p now s (without_limit k σ))).
  destruct (demo_continued env cfg now l _) as [[σ' ms] evs].
  cbn [fst snd] in *. by rewrite omap_app, fan_out_not_generation, IH.
Qed.



End LimitSweepClosed.

Section LimitSweepTheorem.

Context (env : Collaborators) (cfg : Settings).




End LimitSweepTheorem.



